(** * reporting.js: result cache, request coalescing and temp-workspace scoping

    A shallow embedding of [src/reporting.js] of the matrix-content-scanner,
    and the properties of its key derivation, its cache, its coalescing of
    concurrent requests and its scoped temporary directories.

    Layout:
    - [Js]: the fragment of JavaScript values the module manipulates
      (truthiness, property access, [String.prototype.split], [slice(-2)],
      template literals, [JSON.stringify]).
    - Section [Reporting]: the functions of [reporting.js] over an explicit
      world (result cache, heap of result objects, temporary directories,
      trace of calls made to the collaborators), in a state-and-exception
      monad.  The collaborators that are not part of the file ([crypto],
      [request], [decrypt-file.js], [execute-cmd.js], [fs.promises.mkdtemp],
      [rimraf]) are parameters.
    - [Coalescer]: [deduplicatePromises] as a labelled transition system over
      the registry [ongoing], for the interleavings of concurrent calls.

    Console output ([console.info], [console.error]) is not part of the
    modelled state. *)

From Stdlib Require Import ZArith String Ascii List Lia.
From Stdlib Require Import DecimalString DecimalPos.
From stdpp Require Import base option strings gmap list.

Open Scope string_scope.
Open Scope list_scope.

(** ** JavaScript values *)

Module Js.

(** Strings are sequences of code units below 256.  Numbers are the
    integers and the non-finite values; an integer stands for the number
    JavaScript holds exactly and prints in plain decimal notation, which it
    does up to [Number.MAX_SAFE_INTEGER].  Fractions and the negative zero
    are not represented.  An object is the list of its own enumerable
    properties in enumeration order, each name once. *)
Inductive jsnum : Type :=
| NInt (z : Z)
| NInfinity (negative : bool)
| NNaN.

#[warnings="-register-all"]
Inductive jsval : Type :=
| JUndefined
| JNull
| JBool (b : bool)
| JNum (n : jsnum)
| JStr (s : string)
| JArr (elems : list jsval)
| JObj (props : list (string * jsval)).

(** Induction over values that also gives the hypothesis for the elements of
    an array and the property values of an object. *)
Section jsval_ind_nested.
Variable P : jsval -> Prop.
Hypothesis Hundef : P JUndefined.
Hypothesis Hnull : P JNull.
Hypothesis Hbool : forall b, P (JBool b).
Hypothesis Hnum : forall n, P (JNum n).
Hypothesis Hstr : forall s, P (JStr s).
Hypothesis Harr : forall l, Forall P l -> P (JArr l).
Hypothesis Hobj : forall ps, Forall (fun kv => P (snd kv)) ps -> P (JObj ps).

Fixpoint jsval_ind_nested (v : jsval) : P v :=
    match v with
    | JUndefined => Hundef
    | JNull => Hnull
    | JBool b => Hbool b
    | JNum n => Hnum n
    | JStr s => Hstr s
    | JArr l =>
        Harr l ((fix go (l : list jsval) : Forall P l :=
                   match l with
                   | [] => Forall_nil_2 P
                   | x :: l' => Forall_cons_2 P x l' (jsval_ind_nested x) (go l')
                   end) l)
    | JObj ps =>
        Hobj ps ((fix go (ps : list (string * jsval))
                    : Forall (fun kv => P (snd kv)) ps :=
                    match ps with
                    | [] => Forall_nil_2 _
                    | kv :: ps' =>
                        Forall_cons_2 (fun kv => P (snd kv)) kv ps'
                          (jsval_ind_nested (snd kv)) (go ps')
                    end) ps)
    end.
End jsval_ind_nested.

(** [ToBoolean]: what [if (v)] and [!v] test. *)
Definition truthy (v : jsval) : bool :=
  match v with
  | JUndefined | JNull => false
  | JBool b => b
  | JNum (NInt z) => negb (z =? 0)%Z
  | JNum (NInfinity _) => true
  | JNum NNaN => false
  | JStr s => negb (String.eqb s "")
  | JArr _ | JObj _ => true
  end.

(** [o.name] for the names the module reads ([url], [key]): the own property
    of an object, [undefined] on every other value that has properties.  The
    module only reads a property of a value it has tested to be truthy. *)
Fixpoint lookup_prop (name : string) (ps : list (string * jsval)) : jsval :=
  match ps with
  | [] => JUndefined
  | (k, x) :: ps' => if String.eqb k name then x else lookup_prop name ps'
  end.

Definition get_prop (v : jsval) (name : string) : jsval :=
  match v with
  | JObj ps => lookup_prop name ps
  | _ => JUndefined
  end.

(** [s.split('/')]: never empty; an empty piece for every separator at an
    end of the string or next to another one. *)
Fixpoint split_slash (s : string) : list string :=
  match s with
  | EmptyString => [""]
  | String c s' =>
      if Ascii.eqb c "/" then "" :: split_slash s'
      else match split_slash s' with
           | [] => [String c ""]
           | w :: ws => String c w :: ws
           end
  end.

(** [l.slice(-2)]: the last two elements, or all of them when there are
    fewer. *)
Definition slice_last2 {A} (l : list A) : list A :=
  drop (length l - 2) l.

(** [`${x}`] for a binding that holds a string or [undefined]. *)
Definition template (x : option string) : string :=
  match x with
  | Some s => s
  | None => "undefined"
  end.

(** *** JSON.stringify *)

Definition dquote : ascii := "034"%char.
Definition backslash : ascii := "092"%char.

Definition hex_digit (n : N) : ascii :=
  match n with
  | 0 => "0" | 1 => "1" | 2 => "2" | 3 => "3" | 4 => "4" | 5 => "5"
  | 6 => "6" | 7 => "7" | 8 => "8" | 9 => "9" | 10 => "a" | 11 => "b"
  | 12 => "c" | 13 => "d" | 14 => "e" | _ => "f"
  end%N%char.

(** One code unit of [QuoteJSONString]: the short escapes, [\u00xx] for the
    other control characters, every other code unit as it is. *)
Definition quote_char (c : ascii) : string :=
  let n := N_of_ascii c in
  if (n =? 8)%N then String backslash "b"
  else if (n =? 9)%N then String backslash "t"
  else if (n =? 10)%N then String backslash "n"
  else if (n =? 12)%N then String backslash "f"
  else if (n =? 13)%N then String backslash "r"
  else if (n =? 34)%N then String backslash (String dquote "")
  else if (n =? 92)%N then String backslash (String backslash "")
  else if (n <? 32)%N then
    String backslash
      (String "u" (String "0" (String "0"
         (String (hex_digit (n / 16)) (String (hex_digit (n mod 16)) "")))))
  else String c "".

Fixpoint quote_body (s : string) : string :=
  match s with
  | EmptyString => String dquote ""
  | String c s' => quote_char c +:+ quote_body s'
  end.

Definition QuoteJSONString (s : string) : string := String dquote (quote_body s).

(** [Number::toString] on an integer. *)
Definition Number_toString (z : Z) : string :=
  NilZero.string_of_int (Z.to_int z).

Fixpoint join_comma (l : list string) : string :=
  match l with
  | [] => ""
  | [x] => x
  | x :: l' => x +:+ "," +:+ join_comma l'
  end.

(** [SerializeJSONProperty] without indentation: [None] is the [undefined]
    that makes the enclosing object drop the property and the enclosing array
    print [null]. *)
Fixpoint SerializeJSONProperty (v : jsval) : option string :=
  match v with
  | JUndefined => None
  | JNull => Some "null"
  | JBool true => Some "true"
  | JBool false => Some "false"
  | JNum (NInt z) => Some (Number_toString z)
  | JNum _ => Some "null"
  | JStr s => Some (QuoteJSONString s)
  | JArr l =>
      Some ("[" +:+ join_comma
                     (map (fun e => default "null" (SerializeJSONProperty e)) l)
                +:+ "]")
  | JObj ps =>
      Some ("{" +:+ join_comma
                     (omap (fun kv =>
                              (fun s => QuoteJSONString (fst kv) +:+ ":" +:+ s)
                                <$> SerializeJSONProperty (snd kv)) ps)
                +:+ "}")
  end.

Definition JSON_stringify (v : jsval) : option string := SerializeJSONProperty v.

(** [Number.isSafeInteger] *)
Definition safe_integer (z : Z) : bool :=
  (Z.abs z <=? 9007199254740991)%Z.

(** The values [JSON.stringify] prints without loss: no [undefined] and no
    non-finite number anywhere inside, and every integer a safe one. *)
Fixpoint is_json (v : jsval) : bool :=
  match v with
  | JUndefined => false
  | JNull | JBool _ | JStr _ => true
  | JNum (NInt z) => safe_integer z
  | JNum _ => false
  | JArr l => forallb is_json l
  | JObj ps => forallb (fun kv => is_json (snd kv)) ps
  end.

Definition is_digit (c : ascii) : bool :=
  let n := N_of_ascii c in ((48 <=? n) && (n <=? 57))%N.

(** What may follow a printed number: nothing, or a character that is not a digit. *)
Definition ends_number (r : string) : Prop :=
  match r with
  | EmptyString => True
  | String c _ => is_digit c = false
  end.

(** Reading one quoted code unit back. *)
Definition hex_value (c : ascii) : option N :=
  let n := N_of_ascii c in
  if ((48 <=? n) && (n <=? 57))%N then Some (n - 48)%N
  else if ((97 <=? n) && (n <=? 102))%N then Some (n - 87)%N
  else None.

Definition unquote_char (s : string) : option (ascii * string) :=
  match s with
  | String c s' =>
      if Ascii.eqb c backslash then
        match s' with
        | String "b" t => Some ("008"%char, t)
        | String "t" t => Some ("009"%char, t)
        | String "n" t => Some ("010"%char, t)
        | String "f" t => Some ("012"%char, t)
        | String "r" t => Some ("013"%char, t)
        | String "u" (String "0" (String "0" (String h (String l t)))) =>
            match hex_value h, hex_value l with
            | Some a, Some b => Some (ascii_of_N (16 * a + b), t)
            | _, _ => None
            end
        | String x t => Some (x, t)
        | EmptyString => None
        end
      else if Ascii.eqb c dquote then None
      else Some (c, s')
  | EmptyString => None
  end.

(** The text of a value inside an array, where [undefined] prints as
    [null]; for a value that [is_json], the text [JSON.stringify] gives. *)
Definition ser (v : jsval) : string := default "null" (SerializeJSONProperty v).

Definition ser_prop (kv : string * jsval) : string :=
  QuoteJSONString (fst kv) +:+ ":" +:+ ser (snd kv).

Definition value_start (c : ascii) : bool :=
  is_digit c
  || bool_decide (c ∈ ["-"; "n"; "t"; "f"; dquote; "["; "{"]%char).

(** No code unit of [s] is a slash. *)
Fixpoint slash_free (s : string) : bool :=
  match s with
  | EmptyString => true
  | String c s' => negb (Ascii.eqb c "/") && slash_free s'
  end.

End Js.

Import Js.

(** ** The world of the module *)

(** An error object raised by a collaborator, as the module receives it: its
    [statusCode] property ([undefined] when it has none) and its message. *)
Record error_object : Type := {
  err_statusCode : jsval;
  err_message : string;
}.

Inductive exn : Type :=
| ClientError (status : Z) (message : string)
| Error (message : string)
| TypeError
| Thrown (e : error_object).

Inductive outcome (A : Type) : Type :=
| Ok (a : A)
| Throw (e : exn).
Arguments Ok {A} a.
Arguments Throw {A} e.

(** The object [execute-cmd.js] resolves to, with the two properties
    [_generateReport] adds to it; [None] is a property not set, or set to
    [undefined]. *)
Record result_obj : Type := {
  clean : bool;
  info : string;
  exitCode : Z;
  filePath : option string;
  headers : option (gmap string string);
}.

(** What [execute-cmd.js] computes from the scanner's exit. *)
Record verdict : Type := {
  v_clean : bool;
  v_info : string;
  v_exitCode : Z;
}.

Record report : Type := {
  scanned : bool;
  report_clean : option bool;
  report_info : option string;
}.

Record options : Type := {
  baseUrl : option string;
  tempDirectory : option string;
  script : option string;
}.

(** Calls made to the collaborators, in the order they are made. *)
Inductive event : Type :=
| EvMkdtemp (prefix : string)
| EvRimraf (dir : string)
| EvGet (url path : string)
| EvDecrypt (src dst : string) (file : jsval)
| EvExec (cmd : string)
| EvSet (responseHeaders : list (string * option string))
| EvSendFile (path : option string).

(** Result objects live in a heap and are held by reference: the cache, the
    caller of [generateReport] and a later cache hit all see one object. *)
Abbreviation loc := nat (only parsing).

Record world : Type := {
  resultCache : gmap string loc;
  heap : list result_obj;
  dirs : gset string;
  trace : list event;
}.

Definition init_world : world :=
  {| resultCache := ∅; heap := []; dirs := ∅; trace := [] |}.

(** Every cached reference points to an allocated result object. *)
Definition wf_world (w : world) : Prop :=
  forall k l, resultCache w !! k = Some l -> is_Some (heap w !! l).

(** The entry the cache holds for a key, read through the reference. *)
Definition cache_entry (w : world) (k : string) : option result_obj :=
  l ← resultCache w !! k; heap w !! l.

(** The arguments of [getInputHash] and [_generateReport] as the one value
    [deduplicatePromises] passes on ([...args]); the [console] is left out. *)
Definition report_args : Type :=
  option string * option string * jsval * options.

Definition uncurry4 {A B C D R : Type} (f : A -> B -> C -> D -> R)
  : A * B * C * D -> R :=
  fun '(a, b, c, d) => f a b c d.

(** ** State and exceptions *)

Definition M (A : Type) : Type := world -> outcome A * world.

Definition ret {A} (a : A) : M A := fun w => (Ok a, w).
Definition throw {A} (e : exn) : M A := fun w => (Throw e, w).
Definition bind {A B} (m : M A) (k : A -> M B) : M B :=
  fun w => match m w with
           | (Ok a, w') => k a w'
           | (Throw e, w') => (Throw e, w')
           end.
Definition lift {A} (o : outcome A) : M A := fun w => (o, w).

Declare Scope M_scope.
Delimit Scope M_scope with M.
Notation "'let*' x ':=' m 'in' k" := (bind m (fun x => k))
  (at level 10, x pattern, m at level 100, k at level 200) : M_scope.
Open Scope M_scope.

(** [try { body } catch (err) { handler }] *)
Definition try_catch {A} (body : M A) (handler : exn -> M A) : M A :=
  fun w => match body w with
           | (Ok a, w') => (Ok a, w')
           | (Throw e, w') => handler e w'
           end.

(** [try { body } finally { cleanup }]: the cleanup runs on both exits, and
    when it throws, its exception is what leaves the statement. *)
Definition try_finally {A} (body : M A) (cleanup : M unit) : M A :=
  fun w => match body w with
           | (r, w') =>
               match cleanup w' with
               | (Ok _, w'') => (r, w'')
               | (Throw e, w'') => (Throw e, w'')
               end
           end.

(** The world after one more call to a collaborator. *)
Definition logged (ev : event) (w : world) : world :=
  {| resultCache := resultCache w; heap := heap w; dirs := dirs w;
     trace := trace w ++ [ev] |}.

Definition log_event (ev : event) : M unit :=
  fun w => (Ok tt, logged ev w).

(** The world in which the function wrapped by [withTempDir] starts: the
    directory has been created. *)
Definition after_mkdtemp (w : world) (prefix tempDir : string) : world :=
  {| resultCache := resultCache w; heap := heap w;
     dirs := dirs w ∪ {[ tempDir ]};
     trace := trace w ++ [EvMkdtemp prefix] |}.

(** The object a verdict arrives as. *)
Definition new_result (v : verdict) : result_obj :=
  {| clean := v_clean v; info := v_info v; exitCode := v_exitCode v;
     filePath := None; headers := None |}.

Definition config_error : exn :=
  Error "Expected baseUrl, tempDirectory and script in opts".

(** [err.statusCode] on what a [catch] receives. *)
Definition statusCode_of (e : exn) : jsval :=
  match e with
  | Thrown o => err_statusCode o
  | _ => JUndefined
  end.

(** ** deduplicatePromises under interleaving

    [deduplicatePromises(getKey, asyncFn)] keeps the registry [ongoing] in
    its closure, so no other code reads or writes it.  What [asyncFn] does is
    therefore left open here: an execution is started by a call, settles with
    some outcome at some later point, and its [finally] callback runs at a
    still later point; calls may arrive between any two of these.

    - a call computes its key; when the registry holds nothing under it, the
      call starts an execution and registers it; the call then awaits what is
      registered under the key;
    - [.finally(() => { delete ongoing[k] })] removes the key and then
      settles the registered promise with the outcome of the execution;
    - an awaiting call resumes with that outcome. *)

Module Coalescer.

Section Definitions.

Context {Args V : Type}.
Variable getKey : Args -> outcome string.

Inductive phase : Type :=
| Running
| Settled (o : outcome V)
| Finalized (o : outcome V).

Record execution : Type := {
  ex_key : string;
  ex_args : Args;
  ex_phase : phase;
}.

(** A call of the function [deduplicatePromises] returns: what it awaits
    (nothing when [getKey] threw) and what it has resumed with. *)
Record call : Type := {
  call_args : Args;
  call_awaits : option nat;
  call_result : option (outcome V);
}.

Record state : Type := {
  ongoing : gmap string nat;
  executions : list execution;
  calls : list call;
}.

Definition init : state := {| ongoing := ∅; executions := []; calls := [] |}.

Inductive label : Type :=
| LCall (args : Args)
| LSettle (e : nat) (o : outcome V)
| LFinalize (e : nat)
| LResume (c : nat).

Definition in_flight (x : execution) : bool :=
  match ex_phase x with
  | Finalized _ => false
  | _ => true
  end.

Definition step (s : state) (l : label) : option state :=
  match l with
  | LCall args =>
      match getKey args with
      | Throw err =>
          Some {| ongoing := ongoing s; executions := executions s;
                  calls := calls s ++ [{| call_args := args; call_awaits := None;
                                          call_result := Some (Throw err) |}] |}
      | Ok k =>
          match ongoing s !! k with
          | None =>
              let e := length (executions s) in
              Some {| ongoing := <[k := e]> (ongoing s);
                      executions := executions s
                        ++ [{| ex_key := k; ex_args := args; ex_phase := Running |}];
                      calls := calls s ++ [{| call_args := args; call_awaits := Some e;
                                              call_result := None |}] |}
          | Some e =>
              Some {| ongoing := ongoing s; executions := executions s;
                      calls := calls s ++ [{| call_args := args; call_awaits := Some e;
                                              call_result := None |}] |}
          end
      end
  | LSettle e o =>
      match executions s !! e with
      | Some x =>
          match ex_phase x with
          | Running =>
              Some {| ongoing := ongoing s;
                      executions := <[e := {| ex_key := ex_key x; ex_args := ex_args x;
                                              ex_phase := Settled o |}]> (executions s);
                      calls := calls s |}
          | _ => None
          end
      | None => None
      end
  | LFinalize e =>
      match executions s !! e with
      | Some x =>
          match ex_phase x with
          | Settled o =>
              Some {| ongoing := delete (ex_key x) (ongoing s);
                      executions := <[e := {| ex_key := ex_key x; ex_args := ex_args x;
                                              ex_phase := Finalized o |}]> (executions s);
                      calls := calls s |}
          | _ => None
          end
      | None => None
      end
  | LResume c =>
      match calls s !! c with
      | Some cl =>
          match call_awaits cl, call_result cl with
          | Some e, None =>
              match executions s !! e with
              | Some x =>
                  match ex_phase x with
                  | Finalized o =>
                      Some {| ongoing := ongoing s; executions := executions s;
                              calls := <[c := {| call_args := call_args cl;
                                                 call_awaits := Some e;
                                                 call_result := Some o |}]> (calls s) |}
                  | _ => None
                  end
              | None => None
              end
          | _, _ => None
          end
      | None => None
      end
  end.

Fixpoint run (s : state) (ls : list label) : option state :=
  match ls with
  | [] => Some s
  | l :: ls' =>
      match step s l with
      | Some s' => run s' ls'
      | None => None
      end
  end.

Definition reachable (s : state) : Prop := exists ls, run init ls = Some s.

(** The registry holds exactly the executions whose [finally] callback has
    not run, each under its key. *)
Definition registry_exact (s : state) : Prop :=
  forall k e,
    ongoing s !! k = Some e <->
    exists x, executions s !! e = Some x /\ ex_key x = k /\ in_flight x = true.

(** No two executions under one key are in flight together. *)
Definition at_most_one_in_flight (s : state) : Prop :=
  forall e1 e2 x1 x2,
    executions s !! e1 = Some x1 -> executions s !! e2 = Some x2 ->
    ex_key x1 = ex_key x2 -> in_flight x1 = true -> in_flight x2 = true ->
    e1 = e2.

(** A call that has resumed holds the outcome of the execution it awaited,
    and that execution ran under the call's key. *)
Definition calls_share_outcome (s : state) : Prop :=
  forall c cl e,
    calls s !! c = Some cl -> call_awaits cl = Some e ->
    exists x, executions s !! e = Some x
      /\ getKey (call_args cl) = Ok (ex_key x)
      /\ forall o, call_result cl = Some o -> ex_phase x = Finalized o.

(** A call whose key has an execution in flight awaits that execution, and
    starts none. *)
Definition call_joins (s : state) : Prop :=
  forall args e x,
    executions s !! e = Some x -> in_flight x = true ->
    getKey args = Ok (ex_key x) ->
    step s (LCall args)
    = Some {| ongoing := ongoing s; executions := executions s;
              calls := calls s ++ [{| call_args := args; call_awaits := Some e;
                                      call_result := None |}] |}.

(** When the [finally] callback of a settled execution has run, its key is
    free, and the next call under that key starts an execution of its own. *)
Definition finalize_frees_key (s : state) : Prop :=
  forall e x o,
    executions s !! e = Some x -> ex_phase x = Settled o ->
    exists s', step s (LFinalize e) = Some s'
      /\ ongoing s' !! ex_key x = None
      /\ forall args, getKey args = Ok (ex_key x) ->
           step s' (LCall args)
           = Some {| ongoing := <[ex_key x := length (executions s')]> (ongoing s');
                     executions := executions s'
                       ++ [{| ex_key := ex_key x; ex_args := args;
                              ex_phase := Running |}];
                     calls := calls s'
                       ++ [{| call_args := args;
                              call_awaits := Some (length (executions s'));
                              call_result := None |}] |}.

(** What every reachable state satisfies. *)
Definition inv (s : state) : Prop :=
  registry_exact s /\ calls_share_outcome s.

(** Every execution was started by a call, with the arguments of that call
    and under the key of these arguments. *)
Definition started_by_call (s : state) : Prop :=
  forall e x,
    executions s !! e = Some x ->
    getKey (ex_args x) = Ok (ex_key x)
    /\ exists c cl, calls s !! c = Some cl
         /\ call_awaits cl = Some e
         /\ call_args cl = ex_args x.

(** A call that awaits nothing has its result already: the exception of
    [getKey]. *)
Definition failed_without_await (s : state) : Prop :=
  forall c cl,
    calls s !! c = Some cl -> call_awaits cl = None ->
    exists err, getKey (call_args cl) = Throw err
      /\ call_result cl = Some (Throw err).

(** A call that has not resumed awaits an execution that exists, under the
    call's own key, and gets the outcome of that execution: when the
    execution settles with [o] and its [finally] callback runs, the call
    resumes with [o]. *)
Definition await_delivers (s : state) : Prop :=
  forall c cl,
    calls s !! c = Some cl ->
    call_result cl = None ->
    exists e x,
      call_awaits cl = Some e
      /\ executions s !! e = Some x
      /\ getKey (call_args cl) = Ok (ex_key x)
      /\ forall o,
          ex_phase x = Running \/ ex_phase x = Settled o
            \/ ex_phase x = Finalized o ->
          exists s',
            run s (match ex_phase x with
                   | Running => [LSettle e o; LFinalize e; LResume c]
                   | Settled _ => [LFinalize e; LResume c]
                   | Finalized _ => [LResume c]
                   end)
            = Some s'
            /\ calls s' !! c
               = Some {| call_args := call_args cl; call_awaits := Some e;
                         call_result := Some o |}.

End Definitions.

End Coalescer.

(** ** Example collaborators

    Concrete answers of the collaborators, for running the module on
    examples.  [example_digest] stands in for the digest: the examples only
    compare keys derived from the inputs they name. *)

Definition example_digest (s : string) : string := s.

Definition example_path_join (a b : string) : string := a +:+ "/" +:+ b.

Definition example_headers : gmap string string :=
  {[ "content-type" := "image/png" ]}.

Definition get_ok (t : nat) (url path : string)
  : option (gmap string string) + error_object :=
  inl (Some example_headers).

Definition error_404 : error_object :=
  {| err_statusCode := JNum (NInt 404); err_message := "Not Found" |}.

Definition error_reset : error_object :=
  {| err_statusCode := JUndefined; err_message := "ECONNRESET" |}.

Definition error_busy : error_object :=
  {| err_statusCode := JUndefined; err_message := "EBUSY" |}.

Definition error_bad_key : error_object :=
  {| err_statusCode := JUndefined; err_message := "Invalid key" |}.

Definition get_404 (t : nat) (url path : string)
  : option (gmap string string) + error_object :=
  inr error_404.

Definition get_reset (t : nat) (url path : string)
  : option (gmap string string) + error_object :=
  inr error_reset.

Definition decrypt_ok (t : nat) (src dst : string) (file : jsval)
  : option error_object := None.

Definition decrypt_throws (t : nat) (src dst : string) (file : jsval)
  : option error_object := Some error_bad_key.

Definition scan_clean (t : nat) (cmd : string) : verdict + error_object :=
  inl {| v_clean := true; v_info := "File clean"; v_exitCode := 0 |}.

(** A different directory for the first call and for the later ones. *)
Definition mkdtemp_ok (t : nat) (prefix : string) : string + error_object :=
  inl (if decide (t = 0) then "aaaaaa" else "bbbbbb").

Definition rimraf_ok (t : nat) (dir : string) : option error_object := None.

Definition rimraf_fails (t : nat) (dir : string) : option error_object :=
  Some error_busy.

Definition example_opts : options :=
  {| baseUrl := Some "https://hs"; tempDirectory := Some "/tmp";
     script := Some "scan.sh" |}.

Definition opts_no_script : options :=
  {| baseUrl := Some "https://hs"; tempDirectory := Some "/tmp";
     script := None |}.

Definition example_file : jsval :=
  JObj [("url", JStr "mxc://example.org/abc123");
        ("key", JObj [("k", JStr "secret")])].

(** The same media referenced without a key. *)
Definition file_no_key : jsval :=
  JObj [("url", JStr "mxc://example.org/abc123")].

(** Two descriptors that differ in their [key]: [null], which is falsy, and
    [Infinity], which is truthy (what [JSON.parse] gives for [1e999]). *)
Definition file_key_null : jsval :=
  JObj [("url", JStr "mxc://example.org/abc123"); ("key", JNull)].

Definition file_key_infinity : jsval :=
  JObj [("url", JStr "mxc://example.org/abc123");
        ("key", JNum (NInfinity false))].

Definition example_url : string :=
  "https://hs/_matrix/media/v1/download/example.org/abc123".

Definition example_args : report_args :=
  (Some "example.org", Some "abc123", JUndefined, example_opts).

(** Two calls for one media arrive together; the execution settles with the
    object 0, its [finally] callback runs, both calls resume; then a third
    call arrives. *)
Definition example_calls : list (Coalescer.label (Args := report_args) (V := loc)) :=
  [Coalescer.LCall example_args; Coalescer.LCall example_args;
   Coalescer.LSettle 0 (Ok 0); Coalescer.LFinalize 0;
   Coalescer.LResume 0; Coalescer.LResume 1;
   Coalescer.LCall example_args].

(** Further answers of the collaborators: a scanner that finds something,
    a scanner that cannot be run, a directory that cannot be created. *)
Definition scan_infected (t : nat) (cmd : string) : verdict + error_object :=
  inl {| v_clean := false; v_info := "Virus found"; v_exitCode := 1 |}.

Definition error_no_scanner : error_object :=
  {| err_statusCode := JUndefined; err_message := "ENOENT" |}.

Definition scan_fails (t : nat) (cmd : string) : verdict + error_object :=
  inr error_no_scanner.

Definition error_no_space : error_object :=
  {| err_statusCode := JUndefined; err_message := "ENOSPC" |}.

Definition mkdtemp_fails (t : nat) (prefix : string) : string + error_object :=
  inr error_no_space.

(** A descriptor with a key and no [url]. *)
Definition file_no_url : jsval :=
  JObj [("key", JObj [("k", JStr "secret")])].

(** Two calls for one media arrive together and nothing has settled yet. *)
Definition example_calls_pending
  : list (Coalescer.label (Args := report_args) (V := loc)) :=
  [Coalescer.LCall example_args; Coalescer.LCall example_args].

(** The two calls have resumed and no third call has arrived. *)
Definition example_calls_done
  : list (Coalescer.label (Args := report_args) (V := loc)) :=
  [Coalescer.LCall example_args; Coalescer.LCall example_args;
   Coalescer.LSettle 0 (Ok 0); Coalescer.LFinalize 0;
   Coalescer.LResume 0; Coalescer.LResume 1].

(** A first call is in flight: it has created its directory and runs
    [_generateReport] with that directory in its options when a second call
    arrives. *)
Definition opts_first_call : options :=
  {| baseUrl := Some "https://hs"; tempDirectory := Some "/tmp/av-aaaaaa";
     script := Some "scan.sh" |}.

Definition world_first_call : world :=
  after_mkdtemp init_world "/tmp/av-" "/tmp/av-aaaaaa".

(** ** reporting.js *)

Section Reporting.

(** [crypto]: the base64 text of the SHA-256 digest of a string.  Such a text
    has 44 characters and names no property of [Object.prototype], so the
    plain objects [resultCache] and [ongoing] are maps from digests. *)
Variable base64sha256 : string -> string.

(** [path.sep] and [path.join]. *)
Variable path_sep : string.
Variable path_join : string -> string -> string.

(** The collaborators answer by the number of calls made so far, so that
    one of them may answer the same call differently later on.
    - [request_get t url path]: the response headers ([None] when the
      stream ended without a response event) or the error emitted;
    - [decryptFile t src dst file]: [None] when it returns, the error when it
      throws;
    - [executeCommand t cmd]: the verdict, or the error it rejects with;
    - [mkdtemp t prefix]: the characters appended to the prefix, or the
      error;
    - [rimraf t dir]: [None] when the callback gets no error. *)
Variable request_get :
  nat -> string -> string -> option (gmap string string) + error_object.
Variable decryptFile : nat -> string -> string -> jsval -> option error_object.
Variable executeCommand : nat -> string -> verdict + error_object.
Variable mkdtemp : nat -> string -> string + error_object.
Variable rimraf : nat -> string -> option error_object.

(** The string [generateResultHash] hashes.  [JSON.stringify] of an object
    literal is always a string, so the second branch is never taken. *)
Definition hash_input (httpUrl : string) (eventContentFile : jsval) : string :=
  match JSON_stringify (JObj [("httpUrl", JStr httpUrl);
                              ("eventContentFile", eventContentFile)]) with
  | Some s => s
  | None => "undefined"
  end.

Definition generateResultHash (httpUrl : string) (eventContentFile : jsval)
  : string :=
  base64sha256 (hash_input httpUrl eventContentFile).

Definition generateHttpUrl (baseUrl domain mediaId : option string) : string :=
  template baseUrl +:+ "/_matrix/media/v1/download/" +:+ template domain
    +:+ "/" +:+ template mediaId.

Definition clearReportCache : M unit :=
  fun w => (Ok tt, {| resultCache := ∅; heap := heap w;
                      dirs := dirs w; trace := trace w |}).

(** [[domain, mediaId] = eventContentFile.url.split('/').slice(-2)] under
    [if (eventContentFile)]: a [TypeError] when [url] is not a string. *)
Definition media_of (domain mediaId : option string) (eventContentFile : jsval)
  : outcome (option string * option string) :=
  if truthy eventContentFile then
    match get_prop eventContentFile "url" with
    | JStr url =>
        let parts := slice_last2 (split_slash url) in
        Ok (parts !! 0, parts !! 1)
    | _ => Throw TypeError
    end
  else Ok (domain, mediaId).

(** *** Calls to the collaborators *)

Definition call_mkdtemp (prefix : string) : M string :=
  fun w =>
    match mkdtemp (length (trace w)) prefix with
    | inl suffix =>
        (Ok (prefix +:+ suffix), after_mkdtemp w prefix (prefix +:+ suffix))
    | inr e => (Throw (Thrown e), logged (EvMkdtemp prefix) w)
    end.

Definition call_rimraf (dir : string) : M unit :=
  fun w =>
    match rimraf (length (trace w)) dir with
    | None =>
        (Ok tt, {| resultCache := resultCache w; heap := heap w;
                   dirs := dirs w ∖ {[ dir ]};
                   trace := trace w ++ [EvRimraf dir] |})
    | Some e => (Throw (Thrown e), logged (EvRimraf dir) w)
    end.

Definition call_get (url path : string) : M (option (gmap string string)) :=
  fun w =>
    match request_get (length (trace w)) url path with
    | inl h => (Ok h, logged (EvGet url path) w)
    | inr e => (Throw (Thrown e), logged (EvGet url path) w)
    end.

Definition call_decryptFile (src dst : string) (file : jsval) : M unit :=
  fun w =>
    match decryptFile (length (trace w)) src dst file with
    | None => (Ok tt, logged (EvDecrypt src dst file) w)
    | Some e => (Throw (Thrown e), logged (EvDecrypt src dst file) w)
    end.

(** The verdict arrives as a fresh object. *)
Definition call_executeCommand (cmd : string) : M loc :=
  fun w =>
    match executeCommand (length (trace w)) cmd with
    | inl v =>
        (Ok (length (heap w)),
         {| resultCache := resultCache w; heap := heap w ++ [new_result v];
            dirs := dirs w; trace := trace w ++ [EvExec cmd] |})
    | inr e => (Throw (Thrown e), logged (EvExec cmd) w)
    end.

(** *** The cache and the result objects *)

Definition cache_get (k : string) : M (option loc) :=
  fun w => (Ok (resultCache w !! k), w).

Definition cache_set (k : string) (l : loc) : M unit :=
  fun w => (Ok tt, {| resultCache := <[k := l]> (resultCache w);
                      heap := heap w; dirs := dirs w; trace := trace w |}).

(** Reading the properties of a result object. *)
Definition deref (l : loc) : M result_obj :=
  fun w => match heap w !! l with
           | Some o => (Ok o, w)
           | None => (Throw TypeError, w)
           end.

Definition update_obj (l : loc) (f : result_obj -> result_obj) : M unit :=
  fun w => (Ok tt, {| resultCache := resultCache w;
                      heap := alter f l (heap w);
                      dirs := dirs w; trace := trace w |}).

(** [result.filePath = filePath] *)
Definition set_filePath (l : loc) (p : string) : M unit :=
  update_obj l (fun o => {| clean := clean o; info := info o;
                            exitCode := exitCode o;
                            filePath := Some p; headers := headers o |}).

(** [result.headers = downloadHeaders] *)
Definition set_headers (l : loc) (h : option (gmap string string)) : M unit :=
  update_obj l (fun o => {| clean := clean o; info := info o;
                            exitCode := exitCode o;
                            filePath := filePath o; headers := h |}).

(** *** withTempDir *)

(** The wrapped function takes the options as its last argument; the other
    arguments are the ones [asyncFn] is closed over. *)
Definition withTempDir {A} (asyncFn : options -> M A) (opts : options) : M A :=
  let* tempDir := call_mkdtemp (template (tempDirectory opts) +:+ path_sep +:+ "av-") in
  let opts' := {| baseUrl := baseUrl opts; tempDirectory := Some tempDir;
                  script := script opts |} in
  try_finally (asyncFn opts') (call_rimraf tempDir).

(** *** getReport *)

Definition getReport (domain mediaId : option string) (eventContentFile : jsval)
    (opts : options) : M report :=
  let* dm := lift (media_of domain mediaId eventContentFile) in
  let httpUrl := generateHttpUrl (baseUrl opts) (fst dm) (snd dm) in
  let resultSecret := generateResultHash httpUrl eventContentFile in
  let* cached := cache_get resultSecret in
  match cached with
  | None =>
      ret {| scanned := false; report_clean := None; report_info := None |}
  | Some l =>
      let* o := deref l in
      ret {| scanned := true; report_clean := Some (clean o);
             report_info := Some (info o) |}
  end.

(** *** getInputHash *)

Definition getInputHash (domain mediaId : option string)
    (eventContentFile : jsval) (opts : options) : outcome string :=
  match media_of domain mediaId eventContentFile with
  | Ok dm =>
      let httpUrl := generateHttpUrl (baseUrl opts) (fst dm) (snd dm) in
      Ok (generateResultHash httpUrl eventContentFile)
  | Throw e => Throw e
  end.

(** *** generateResult *)

Definition generateResult (httpUrl : string) (eventContentFile : jsval)
    (filePath tempDir script : string) : M loc :=
  let resultSecret := generateResultHash httpUrl eventContentFile in
  let* cached := cache_get resultSecret in
  match cached with
  | Some l => ret l
  | None =>
      let* decryptedFilePath :=
        if truthy eventContentFile && truthy (get_prop eventContentFile "key")
        then
          let decryptedFilePath := path_join tempDir "unsafeDownloadedDecryptedFile" in
          let* _ :=
            try_catch (call_decryptFile filePath decryptedFilePath eventContentFile)
              (fun err => throw (ClientError 400 "Failed to decrypt file")) in
          ret decryptedFilePath
        else ret filePath in
      let cmd := script +:+ " " +:+ decryptedFilePath in
      let* result := call_executeCommand cmd in
      let* _ := cache_set resultSecret result in
      ret result
  end.

(** *** _generateReport

    The source assigns the object to [result] without declaring it, which
    makes it a property of the global object; no [await] stands between the
    assignment and the last use, so it is read here as a local binding. *)
Definition _generateReport (domain mediaId : option string)
    (eventContentFile : jsval) (opts : options) : M loc :=
  match baseUrl opts, tempDirectory opts, script opts with
  | Some baseUrl, Some tempDir, Some script =>
      let* dm := lift (media_of domain mediaId eventContentFile) in
      let httpUrl := generateHttpUrl (Some baseUrl) (fst dm) (snd dm) in
      let filePath := path_join tempDir "downloadedFile" in
      let* downloadHeaders :=
        try_catch (call_get httpUrl filePath)
          (fun err =>
             if negb (truthy (statusCode_of err)) then throw err
             else throw (ClientError 502 "Failed to get requested URL")) in
      let* result :=
        generateResult httpUrl eventContentFile filePath tempDir script in
      let* _ := set_filePath result filePath in
      let* _ := set_headers result downloadHeaders in
      ret result
  | _, _, _ => throw config_error
  end.

(** *** generateReport

    [deduplicatePromises(getKey, asyncFn)] for a call that arrives when no
    execution is registered under its key and that is run to its end before
    another call arrives: the key is computed, the execution is started,
    and its outcome is the outcome of the call.  The registry and the calls
    that arrive while an execution is in flight are the subject of
    [Coalescer], where [run_alone] is this case. *)
Definition deduplicatePromises {Args A} (getKey : Args -> outcome string)
    (asyncFn : Args -> M A) (args : Args) : M A :=
  let* k := lift (getKey args) in
  asyncFn args.

Definition generateReport (domain mediaId : option string)
    (eventContentFile : jsval) (opts : options) : M loc :=
  deduplicatePromises (uncurry4 getInputHash) (uncurry4 _generateReport)
    (domain, mediaId, eventContentFile, opts).

(** *** scannedDownload *)

Definition headerWhitelist : list string :=
  ["content-type"; "content-disposition"; "content-security-policy"].

Definition scannedDownload (domain mediaId : option string)
    (eventContentFile : jsval) : options -> M unit :=
  withTempDir (fun opts =>
    let* result := generateReport domain mediaId eventContentFile opts in
    let* o := deref result in
    if negb (clean o) then throw (ClientError 403 (info o))
    else
      match headers o with
      | None => throw TypeError
      | Some h =>
          let responseHeaders :=
            map (fun headerKey => (headerKey, h !! headerKey)) headerWhitelist in
          let* _ := log_event (EvSet responseHeaders) in
          log_event (EvSendFile (filePath o))
      end).

(** *** generateReport with executions in flight

    [deduplicatePromises(getKey, asyncFn)] for a call that arrives when the
    registry is [ongoing], and that is run to its end before another call
    arrives.  The registry binds the key of an execution in flight to what
    that execution has left to do.  A call whose key is bound starts
    nothing: while it awaits what is registered, that execution runs to its
    end, and its outcome is the outcome of the call.  A call whose key is
    not bound starts an execution of its own, with its own arguments;
    [deduplicatePromises] above is this case.  What the registry holds from
    one call to the next is the subject of [Coalescer]. *)
Definition registry (A : Type) : Type := gmap string (M A).

Definition deduplicatePromises_ongoing {Args A}
    (getKey : Args -> outcome string) (asyncFn : Args -> M A)
    (ongoing : registry A) (args : Args) : M A :=
  let* k := lift (getKey args) in
  match ongoing !! k with
  | None => asyncFn args
  | Some execution => execution
  end.

Definition generateReport_ongoing (ongoing : registry loc)
    (domain mediaId : option string) (eventContentFile : jsval)
    (opts : options) : M loc :=
  deduplicatePromises_ongoing (uncurry4 getInputHash) (uncurry4 _generateReport)
    ongoing (domain, mediaId, eventContentFile, opts).

(** [scannedDownload] when its [generateReport] finds the registry
    [ongoing]. *)
Definition scannedDownload_ongoing (ongoing : registry loc)
    (domain mediaId : option string) (eventContentFile : jsval)
    : options -> M unit :=
  withTempDir (fun opts =>
    let* result :=
      generateReport_ongoing ongoing domain mediaId eventContentFile opts in
    let* o := deref result in
    if negb (clean o) then throw (ClientError 403 (info o))
    else
      match headers o with
      | None => throw TypeError
      | Some h =>
          let responseHeaders :=
            map (fun headerKey => (headerKey, h !! headerKey)) headerWhitelist in
          let* _ := log_event (EvSet responseHeaders) in
          log_event (EvSendFile (filePath o))
      end).

(** *** Relations between the world before and after an operation *)

(** Two distinct strings with one digest. *)
Definition collision (s1 s2 : string) : Prop :=
  s1 <> s2 /\ base64sha256 s1 = base64sha256 s2.

Definition verdict_of (o : result_obj) : verdict :=
  {| v_clean := clean o; v_info := info o; v_exitCode := exitCode o |}.

(** Nothing is removed from the cache, no key is bound to another object,
    and no object loses or changes its verdict. *)
Definition extends (w w' : world) : Prop :=
  (forall k l, resultCache w !! k = Some l -> resultCache w' !! k = Some l)
  /\ (forall l o, heap w !! l = Some o ->
        exists o', heap w' !! l = Some o' /\ verdict_of o' = verdict_of o).

(** [wf_world] is kept from [w] to [w']. *)
Definition keeps_wf (w w' : world) : Prop := wf_world w -> wf_world w'.

Definition is_decrypt (ev : event) : bool :=
  match ev with
  | EvDecrypt _ _ _ => true
  | _ => false
  end.

(** Between [w] and [w'] no call was made to the decryption routine. *)
Definition no_decrypt (w w' : world) : Prop :=
  exists evs, trace w' = trace w ++ evs
    /\ Forall (fun ev => is_decrypt ev = false) evs.

(** Every run of [m] relates the world it leaves to the world it found. *)
Definition preserves {A} (R : relation world) (m : M A) : Prop :=
  forall w, R w (snd (m w)).

(** Between [w] and [w'] the decryption routine was called and threw. *)
Definition decrypt_threw (w w' : world) : Prop :=
  exists i src dst file e,
    length (trace w) <= i
    /\ trace w' !! i = Some (EvDecrypt src dst file)
    /\ decryptFile i src dst file = Some e.

(** The calls made between [w] and [w'] all satisfy [P]. *)
Definition calls_only (P : event -> bool) (w w' : world) : Prop :=
  exists evs, trace w' = trace w ++ evs /\ Forall (fun ev => P ev = true) evs.

(** The calls of the pipeline proper: download, decryption, scan. *)
Definition is_pipeline_call (ev : event) : bool :=
  match ev with
  | EvGet _ _ | EvDecrypt _ _ _ | EvExec _ => true
  | _ => false
  end.

(** The calls made between [w] and [w']. *)
Definition calls_between (w w' : world) : list event :=
  drop (length (trace w)) (trace w').

(** The directories are the same in [w] and [w']. *)
Definition same_dirs (w w' : world) : Prop := dirs w' = dirs w.

(** Between [w] and [w'] the scanner was called and rejected with [e]. *)
Definition exec_rejected (e : error_object) (w w' : world) : Prop :=
  exists i cmd,
    length (trace w) <= i
    /\ trace w' !! i = Some (EvExec cmd)
    /\ executeCommand i cmd = inr e.

(** What [scannedDownload] passes to [res.set] for the headers [h] of a
    download. *)
Definition whitelisted (h : gmap string string) : list (string * option string) :=
  map (fun headerKey => (headerKey, h !! headerKey)) headerWhitelist.

(** The calls on the response: [res.set] and [res.sendFile]. *)
Definition is_delivery (ev : event) : bool :=
  match ev with
  | EvSet _ | EvSendFile _ => true
  | _ => false
  end.

(** The executions in flight are executions of the pipeline: what is left
    of each makes no other calls than the download, the decryption and the
    scan. *)
Definition executions_of_pipeline (ongoing : registry loc) : Prop :=
  forall k execution,
    ongoing !! k = Some execution ->
    preserves (calls_only is_pipeline_call) execution.

(** ** Properties of the sequential operations *)

Arguments generateResultHash : simpl never.
Arguments generateHttpUrl : simpl never.
Arguments hash_input : simpl never.

(** *** Running the operations *)

Lemma getInputHash_media domain mediaId eventContentFile opts k :
  getInputHash domain mediaId eventContentFile opts = Ok k ->
  exists dm, media_of domain mediaId eventContentFile = Ok dm
    /\ k = generateResultHash
             (generateHttpUrl (baseUrl opts) (fst dm) (snd dm)) eventContentFile.
Proof.
  unfold getInputHash.
  destruct (media_of domain mediaId eventContentFile) as [dm|e]; [|discriminate].
  intros [= <-]. by exists dm.
Qed.

Lemma getReport_world domain mediaId eventContentFile opts w :
  snd (getReport domain mediaId eventContentFile opts w) = w.
Proof.
  unfold getReport, bind, lift, cache_get, deref, ret.
  destruct (media_of domain mediaId eventContentFile) as [dm|e]; [|done].
  destruct (resultCache w !! _) as [l|]; [|done].
  by destruct (heap w !! l).
Qed.

Lemma getReport_miss domain mediaId eventContentFile opts k w :
  getInputHash domain mediaId eventContentFile opts = Ok k ->
  resultCache w !! k = None ->
  getReport domain mediaId eventContentFile opts w
  = (Ok {| scanned := false; report_clean := None; report_info := None |}, w).
Proof.
  intros (dm & Hdm & ->)%getInputHash_media Hnone.
  unfold getReport, bind, lift, cache_get, ret.
  rewrite Hdm. simpl. by rewrite Hnone.
Qed.

Lemma getReport_hit domain mediaId eventContentFile opts k w o :
  getInputHash domain mediaId eventContentFile opts = Ok k ->
  cache_entry w k = Some o ->
  getReport domain mediaId eventContentFile opts w
  = (Ok {| scanned := true; report_clean := Some (clean o);
           report_info := Some (info o) |}, w).
Proof.
  intros (dm & Hdm & ->)%getInputHash_media. unfold cache_entry. intros Ho.
  destruct (resultCache w !! _) as [l|] eqn:Hl; [|done]. simpl in Ho.
  unfold getReport, bind, lift, cache_get, deref, ret.
  rewrite Hdm. simpl. rewrite Hl. simpl. by rewrite Ho.
Qed.

Lemma withTempDir_run {A} (asyncFn : options -> M A) (opts : options)
    (w : world) (suffix : string) :
  mkdtemp (length (trace w)) (template (tempDirectory opts) +:+ path_sep +:+ "av-")
    = inl suffix ->
  withTempDir asyncFn opts w
  = try_finally
      (asyncFn {| baseUrl := baseUrl opts;
                  tempDirectory :=
                    Some ((template (tempDirectory opts) +:+ path_sep +:+ "av-")
                            +:+ suffix);
                  script := script opts |})
      (call_rimraf ((template (tempDirectory opts) +:+ path_sep +:+ "av-")
                      +:+ suffix))
      (after_mkdtemp w (template (tempDirectory opts) +:+ path_sep +:+ "av-")
         ((template (tempDirectory opts) +:+ path_sep +:+ "av-") +:+ suffix)).
Proof.
  intros Hmk. unfold withTempDir, bind, call_mkdtemp. by rewrite Hmk.
Qed.

Lemma _generateReport_config_error domain mediaId eventContentFile opts w :
  baseUrl opts = None \/ tempDirectory opts = None \/ script opts = None ->
  _generateReport domain mediaId eventContentFile opts w
  = (Throw config_error, w).
Proof.
  unfold _generateReport, throw, config_error.
  destruct (baseUrl opts), (tempDirectory opts), (script opts);
    intros [H|[H|H]]; try discriminate; reflexivity.
Qed.

Lemma scan_and_store_run (cmd k : string) (w : world) :
  (let* result := call_executeCommand cmd in
   let* _ := cache_set k result in
   ret result) w
  = match executeCommand (length (trace w)) cmd with
    | inl v =>
        (Ok (length (heap w)),
         {| resultCache := <[k := length (heap w)]> (resultCache w);
            heap := heap w ++ [new_result v];
            dirs := dirs w; trace := trace w ++ [EvExec cmd] |})
    | inr e => (Throw (Thrown e), logged (EvExec cmd) w)
    end.
Proof.
  unfold bind, call_executeCommand, cache_set, ret.
  by destruct (executeCommand _ _).
Qed.

Lemma generateResult_hit httpUrl file fp td sc w l :
  resultCache w !! generateResultHash httpUrl file = Some l ->
  generateResult httpUrl file fp td sc w = (Ok l, w).
Proof.
  intros Hl. unfold generateResult, bind, cache_get. simpl. by rewrite Hl.
Qed.

Lemma generateResult_miss httpUrl file fp td sc w :
  resultCache w !! generateResultHash httpUrl file = None ->
  generateResult httpUrl file fp td sc w
  = if truthy file && truthy (get_prop file "key") then
      match decryptFile (length (trace w)) fp
              (path_join td "unsafeDownloadedDecryptedFile") file with
      | Some e =>
          (Throw (ClientError 400 "Failed to decrypt file"),
           logged (EvDecrypt fp (path_join td "unsafeDownloadedDecryptedFile") file) w)
      | None =>
          (let* result := call_executeCommand
                            (sc +:+ " " +:+ path_join td "unsafeDownloadedDecryptedFile") in
           let* _ := cache_set (generateResultHash httpUrl file) result in
           ret result)
            (logged (EvDecrypt fp (path_join td "unsafeDownloadedDecryptedFile") file) w)
      end
    else
      (let* result := call_executeCommand (sc +:+ " " +:+ fp) in
       let* _ := cache_set (generateResultHash httpUrl file) result in
       ret result) w.
Proof.
  intros Hl. unfold generateResult. unfold bind at 1. unfold cache_get.
  rewrite Hl.
  destruct (truthy file && truthy (get_prop file "key")); [|done].
  unfold bind at 1. unfold bind at 1. unfold try_catch, call_decryptFile.
  by destruct (decryptFile _ _ _ _).
Qed.

Lemma _generateReport_run domain mediaId file opts b t s dm w :
  baseUrl opts = Some b -> tempDirectory opts = Some t -> script opts = Some s ->
  media_of domain mediaId file = Ok dm ->
  _generateReport domain mediaId file opts w
  = match request_get (length (trace w))
            (generateHttpUrl (Some b) (fst dm) (snd dm))
            (path_join t "downloadedFile") with
    | inr e =>
        (Throw (if truthy (err_statusCode e)
                then ClientError 502 "Failed to get requested URL"
                else Thrown e),
         logged (EvGet (generateHttpUrl (Some b) (fst dm) (snd dm))
                   (path_join t "downloadedFile")) w)
    | inl h =>
        match generateResult (generateHttpUrl (Some b) (fst dm) (snd dm)) file
                (path_join t "downloadedFile") t s
                (logged (EvGet (generateHttpUrl (Some b) (fst dm) (snd dm))
                           (path_join t "downloadedFile")) w) with
        | (Ok l, w2) =>
            (Ok l, snd (set_headers l h
                          (snd (set_filePath l (path_join t "downloadedFile") w2))))
        | (Throw e, w2) => (Throw e, w2)
        end
    end.
Proof.
  intros Hb Ht Hs Hdm. unfold _generateReport. rewrite Hb, Ht, Hs.
  unfold bind at 1. unfold lift. rewrite Hdm.
  unfold bind at 1. unfold try_catch, call_get.
  destruct (request_get _ _ _) as [h|e].
  - unfold bind at 1. simpl.
    destruct (generateResult _ _ _ _ _ _) as [[l|e] w2]; [|done].
    reflexivity.
  - simpl. by destruct (truthy (err_statusCode e)).
Qed.

Lemma truthy_status_code (n : Z) :
  (100 <= n <= 599)%Z -> truthy (JNum (NInt n)) = true.
Proof. intros Hn. simpl. destruct (Z.eqb_spec n 0); [lia|done]. Qed.

(** *** Composing what operations keep *)

Section Preserves.

Context (R : relation world) `{!PreOrder R}.

Lemma preserves_ret {A} (a : A) : preserves R (ret a).
Proof. intros w. reflexivity. Qed.

Lemma preserves_throw {A} (e : exn) : preserves R (@throw A e).
Proof. intros w. reflexivity. Qed.

Lemma preserves_lift {A} (o : outcome A) : preserves R (lift o).
Proof. intros w. reflexivity. Qed.

Lemma preserves_bind {A B} (m : M A) (k : A -> M B) :
  preserves R m -> (forall a, preserves R (k a)) -> preserves R (bind m k).
Proof.
  intros Hm Hk w. unfold bind. specialize (Hm w).
  destruct (m w) as [[a|e] w1]; simpl in *; [|done].
  etrans; [exact Hm|apply Hk].
Qed.

Lemma preserves_try_catch {A} (body : M A) (handler : exn -> M A) :
  preserves R body -> (forall e, preserves R (handler e)) ->
  preserves R (try_catch body handler).
Proof.
  intros Hm Hk w. unfold try_catch. specialize (Hm w).
  destruct (body w) as [[a|e] w1]; simpl in *; [done|].
  etrans; [exact Hm|apply Hk].
Qed.

Lemma preserves_try_finally {A} (body : M A) (cleanup : M unit) :
  preserves R body -> preserves R cleanup ->
  preserves R (try_finally body cleanup).
Proof.
  intros Hm Hc w. unfold try_finally. specialize (Hm w).
  destruct (body w) as [r w1]. specialize (Hc w1).
  destruct (cleanup w1) as [[[]|e] w2]; simpl in *; by etrans.
Qed.

End Preserves.

(** *** What operations keep of the cache entries *)

#[local] Instance extends_preorder : PreOrder extends.
Proof.
  split.
  - intros w. split; [done|]. intros l o Ho. by exists o.
  - intros w1 w2 w3 [Hc12 Hh12] [Hc23 Hh23]. split.
    + intros k l Hk. by apply Hc23, Hc12.
    + intros l o Ho. destruct (Hh12 l o Ho) as (o2 & Ho2 & Hv2).
      destruct (Hh23 l o2 Ho2) as (o3 & Ho3 & Hv3).
      exists o3. split; [done|]. by rewrite Hv3.
Qed.
















(** *** Every operation keeps the cache well formed *)

Lemma wf_world_alter (f : result_obj -> result_obj) l w w' :
  resultCache w' = resultCache w -> heap w' = alter f l (heap w) ->
  wf_world w -> wf_world w'.
Proof.
  intros Hc Hh Hwf k l0. rewrite Hc, Hh. intros Hk%Hwf.
  rewrite list_lookup_alter. destruct (decide (l = l0)) as [->|]; [|done].
  by apply fmap_is_Some.
Qed.

Lemma wf_world_scan_and_store cmd k w :
  wf_world w ->
  wf_world (snd ((let* result := call_executeCommand cmd in
                  let* _ := cache_set k result in
                  ret result) w)).
Proof.
  intros Hwf. rewrite scan_and_store_run.
  destruct (executeCommand _ _) as [v|e]; simpl; [|done].
  intros k0 l. simpl. rewrite lookup_insert.
  destruct (decide (k = k0)) as [->|Hne].
  - intros [= <-]. rewrite list_lookup_middle; [by eexists|done].
  - intros (o & Ho)%Hwf. exists o. by apply lookup_app_l_Some.
Qed.

(** A result of [generateResult] is the object the cache holds under the
    key afterwards. *)
Lemma generateResult_ok httpUrl file fp td sc w l w2 :
  wf_world w ->
  generateResult httpUrl file fp td sc w = (Ok l, w2) ->
  resultCache w2 !! generateResultHash httpUrl file = Some l
  /\ is_Some (heap w2 !! l) /\ wf_world w2.
Proof.
  intros Hwf.
  destruct (resultCache w !! generateResultHash httpUrl file) as [l0|] eqn:Hk.
  - rewrite (generateResult_hit _ _ _ _ _ _ _ Hk). intros [= <- <-].
    split; [done|]. split; [by eapply Hwf|done].
  - rewrite (generateResult_miss _ _ _ _ _ _ Hk).
    assert (Hscan : forall cmd w0, wf_world w0 ->
      (let* result := call_executeCommand cmd in
       let* _ := cache_set (generateResultHash httpUrl file) result in
       ret result) w0 = (Ok l, w2) ->
      resultCache w2 !! generateResultHash httpUrl file = Some l
      /\ is_Some (heap w2 !! l) /\ wf_world w2).
    { intros cmd w0 Hwf0 Hrun.
      pose proof (wf_world_scan_and_store cmd
                    (generateResultHash httpUrl file) w0 Hwf0) as Hwf2.
      rewrite Hrun in Hwf2. simpl in Hwf2.
      rewrite scan_and_store_run in Hrun.
      destruct (executeCommand _ _) as [v|e]; [|discriminate].
      injection Hrun as <- <-. simpl.
      split; [by rewrite lookup_insert_eq|]. split; [|done].
      rewrite list_lookup_middle; [by eexists|done]. }
    destruct (truthy file && truthy (get_prop file "key")).
    + destruct (decryptFile _ _ _ _) as [e|]; [discriminate|].
      by apply Hscan.
    + by apply Hscan.
Qed.

#[local] Instance keeps_wf_preorder : PreOrder keeps_wf.
Proof.
  split.
  - intros w Hwf. exact Hwf.
  - intros w1 w2 w3 H12 H23 Hwf. by apply H23, H12.
Qed.

Lemma keeps_wf_same_store w w' :
  resultCache w' = resultCache w -> heap w' = heap w -> keeps_wf w w'.
Proof. intros Hc Hh Hwf k l. rewrite Hc, Hh. apply Hwf. Qed.

Lemma keeps_wf_generateResult httpUrl file fp td sc :
  preserves keeps_wf (generateResult httpUrl file fp td sc).
Proof.
  intros w Hwf.
  destruct (resultCache w !! generateResultHash httpUrl file) as [l|] eqn:Hk.
  - by rewrite (generateResult_hit _ _ _ _ _ _ _ Hk).
  - rewrite (generateResult_miss _ _ _ _ _ _ Hk).
    destruct (truthy file && truthy (get_prop file "key")).
    + destruct (decryptFile _ _ _ _) as [e|]; [done|].
      by apply wf_world_scan_and_store.
    + by apply wf_world_scan_and_store.
Qed.

Lemma keeps_wf_generateReport domain mediaId file opts :
  preserves keeps_wf (generateReport domain mediaId file opts).
Proof.
  unfold generateReport, deduplicatePromises, uncurry4.
  apply preserves_bind; [apply _|apply preserves_lift; apply _|]. intros _.
  unfold _generateReport.
  destruct (baseUrl opts), (tempDirectory opts), (script opts);
    try apply preserves_throw; try apply _.
  apply preserves_bind; [apply _|apply preserves_lift; apply _|]. intros dm.
  apply preserves_bind; [apply _| |].
  { apply preserves_try_catch; [apply _| |].
    - intros w. unfold call_get.
      destruct (request_get _ _ _); by apply keeps_wf_same_store.
    - intros e. destruct (negb _); apply preserves_throw; apply _. }
  intros h.
  apply preserves_bind; [apply _|apply keeps_wf_generateResult|]. intros l.
  apply preserves_bind; [apply _| |].
  { intros w Hwf. eapply wf_world_alter; [| |exact Hwf]; reflexivity. }
  intros _. apply preserves_bind; [apply _| |].
  { intros w Hwf. eapply wf_world_alter; [| |exact Hwf]; reflexivity. }
  intros _. apply preserves_ret; apply _.
Qed.

Lemma keeps_wf_scannedDownload domain mediaId file opts :
  preserves keeps_wf (scannedDownload domain mediaId file opts).
Proof.
  unfold scannedDownload, withTempDir.
  apply preserves_bind; [apply _| |].
  { intros w. unfold call_mkdtemp.
    destruct (mkdtemp _ _); by apply keeps_wf_same_store. }
  intros tempDir. apply preserves_try_finally; [apply _| |].
  2:{ intros w. unfold call_rimraf.
      destruct (rimraf _ _); by apply keeps_wf_same_store. }
  apply preserves_bind; [apply _|apply keeps_wf_generateReport|]. intros l.
  apply preserves_bind; [apply _| |].
  { intros w. unfold deref. by destruct (heap w !! l). }
  intros o.
  destruct (negb (clean o)); [apply preserves_throw; apply _|].
  destruct (headers o); [|apply preserves_throw; apply _].
  apply preserves_bind; [apply _|by intros w Hwf|]. by intros _ w Hwf.
Qed.

Lemma wf_world_clearReportCache w : wf_world (snd (clearReportCache w)).
Proof. intros k l. simpl. by rewrite lookup_empty. Qed.

(** *** No decryption without a key *)

#[local] Instance no_decrypt_preorder : PreOrder no_decrypt.
Proof.
  split.
  - intros w. exists []. by rewrite app_nil_r.
  - intros w1 w2 w3 (evs1 & H1 & Hf1) (evs2 & H2 & Hf2).
    exists (evs1 ++ evs2). split.
    + by rewrite H2, H1, app_assoc.
    + by apply Forall_app.
Qed.

Lemma no_decrypt_same_trace w w' : trace w' = trace w -> no_decrypt w w'.
Proof. intros H. exists []. by rewrite app_nil_r. Qed.

Lemma no_decrypt_one w w' ev :
  trace w' = trace w ++ [ev] -> is_decrypt ev = false -> no_decrypt w w'.
Proof. intros H Hev. exists [ev]. split; [done|]. by constructor. Qed.

Lemma no_decrypt_scan_and_store cmd k :
  preserves no_decrypt (let* result := call_executeCommand cmd in
                        let* _ := cache_set k result in
                        ret result).
Proof.
  intros w. rewrite scan_and_store_run.
  destruct (executeCommand _ _); by eapply no_decrypt_one.
Qed.

Lemma no_decrypt_generateResult httpUrl file fp td sc :
  truthy (get_prop file "key") = false ->
  preserves no_decrypt (generateResult httpUrl file fp td sc).
Proof.
  intros Hkey w.
  destruct (resultCache w !! generateResultHash httpUrl file) as [l|] eqn:Hk.
  - rewrite (generateResult_hit _ _ _ _ _ _ _ Hk). reflexivity.
  - rewrite (generateResult_miss _ _ _ _ _ _ Hk), Hkey, andb_false_r.
    apply no_decrypt_scan_and_store.
Qed.

Lemma no_decrypt_generateReport domain mediaId file opts :
  truthy (get_prop file "key") = false ->
  preserves no_decrypt (generateReport domain mediaId file opts).
Proof.
  intros Hkey. unfold generateReport, deduplicatePromises, uncurry4.
  apply preserves_bind; [apply _|apply preserves_lift; apply _|]. intros _.
  unfold _generateReport.
  destruct (baseUrl opts), (tempDirectory opts), (script opts);
    try apply preserves_throw; try apply _.
  apply preserves_bind; [apply _|apply preserves_lift; apply _|]. intros dm.
  apply preserves_bind; [apply _| |].
  { apply preserves_try_catch; [apply _| |].
    - intros w. unfold call_get.
      destruct (request_get _ _ _); by eapply no_decrypt_one.
    - intros e. destruct (negb _); apply preserves_throw; apply _. }
  intros h.
  apply preserves_bind; [apply _|by apply no_decrypt_generateResult|].
  intros l.
  apply preserves_bind; [apply _|intros w; by apply no_decrypt_same_trace|].
  intros _.
  apply preserves_bind; [apply _|intros w; by apply no_decrypt_same_trace|].
  intros _. apply preserves_ret; apply _.
Qed.

Lemma decrypt_threw_inv w w' :
  decrypt_threw w w' ->
  exists j src dst file e,
    drop (length (trace w)) (trace w') !! j = Some (EvDecrypt src dst file)
    /\ decryptFile (length (trace w) + j) src dst file = Some e.
Proof.
  intros (i & src & dst & file & e & Hle & Hev & Hdec).
  exists (i - length (trace w)), src, dst, file, e.
  rewrite lookup_drop.
  by replace (length (trace w) + (i - length (trace w))) with i by lia.
Qed.

(** Reads the calls of a finished run off its final world, and closes the
    goal when none of them is a decryption that threw. *)
Ltac calls_of_run H :=
  apply decrypt_threw_inv in H; simpl in H;
  rewrite <- ?app_assoc in H; simpl in H;
  rewrite ?drop_app_length, ?drop_all in H.

Ltac no_decrypt_threw H :=
  calls_of_run H;
  let j := fresh "j" in
  destruct H as (j & ? & ? & ? & ? & ? & ?);
  repeat (destruct j as [|j]; try discriminate).

(** *** The hashed string with and without a descriptor *)

Lemma serialize_defined (v : jsval) :
  v <> JUndefined -> exists s, SerializeJSONProperty v = Some s.
Proof.
  destruct v as [| |[]|[]| | |]; simpl; intros Hv; try done; by eexists.
Qed.

Lemma string_app_assoc (a b c : string) : (a +:+ b) +:+ c = a +:+ (b +:+ c).
Proof.
  induction a as [|x a IH]; [done|].
  change (String x ((a +:+ b) +:+ c) = String x (a +:+ (b +:+ c))).
  by f_equal.
Qed.

Lemma hash_input_absent httpUrl :
  hash_input httpUrl JUndefined
  = "{" +:+ QuoteJSONString "httpUrl" +:+ ":" +:+ QuoteJSONString httpUrl +:+ "}".
Proof. reflexivity. Qed.

Lemma hash_input_present httpUrl file s :
  SerializeJSONProperty file = Some s ->
  hash_input httpUrl file
  = "{" +:+ QuoteJSONString "httpUrl" +:+ ":" +:+ QuoteJSONString httpUrl
      +:+ "," +:+ QuoteJSONString "eventContentFile" +:+ ":" +:+ s +:+ "}".
Proof.
  intros Hs. unfold hash_input, JSON_stringify. simpl. rewrite Hs. simpl.
  by rewrite !string_app_assoc.
Qed.

Lemma hash_input_present_absent httpUrl file :
  file <> JUndefined ->
  hash_input httpUrl file <> hash_input httpUrl JUndefined.
Proof.
  intros [s Hs]%serialize_defined.
  rewrite (hash_input_present _ _ _ Hs), hash_input_absent.
  intros Heq.
  do 4 apply (inj (String.append _)) in Heq. discriminate.
Qed.

Lemma digest_differs_or_collision (s1 s2 : string) :
  s1 <> s2 -> base64sha256 s1 <> base64sha256 s2 \/ collision s1 s2.
Proof.
  intros Hne. destruct (decide (base64sha256 s1 = base64sha256 s2)) as [He|Hd].
  - right. by split.
  - by left.
Qed.

(** *** [JSON.stringify] can be read back

    The text of a value that [is_json], followed by anything a number may
    end before, determines the value and what follows it. *)

#[local] Arguments String.append !s1 s2 / : simpl nomatch.

Lemma uint_decode (d1 d2 : Decimal.uint) (r1 r2 : string) :
  NilEmpty.string_of_uint d1 +:+ r1 = NilEmpty.string_of_uint d2 +:+ r2 ->
  ends_number r1 -> ends_number r2 -> d1 = d2 /\ r1 = r2.
Proof.
  revert d2. induction d1 as [|d1 IH|d1 IH|d1 IH|d1 IH|d1 IH|d1 IH|d1 IH|d1 IH|d1 IH|d1 IH];
    intros [] Heq H1 H2; simpl in Heq;
    try (injection Heq as Heq; destruct (IH _ Heq H1 H2) as [-> ->]; done);
    try discriminate; try done;
    try (subst r1; simpl in H1; discriminate);
    try (subst r2; simpl in H2; discriminate).
Qed.

Lemma uint_head (d : Decimal.uint) :
  d <> Decimal.Nil ->
  exists c s, NilEmpty.string_of_uint d = String c s /\ is_digit c = true.
Proof. destruct d; intros Hd; try done; simpl; by do 2 eexists. Qed.

Lemma Number_toString_decode (z1 z2 : Z) (r1 r2 : string) :
  Number_toString z1 +:+ r1 = Number_toString z2 +:+ r2 ->
  ends_number r1 -> ends_number r2 -> z1 = z2 /\ r1 = r2.
Proof.
  unfold Number_toString. intros Heq H1 H2.
  assert (Hnn : forall p, NilZero.string_of_uint (Pos.to_uint p)
                          = NilEmpty.string_of_uint (Pos.to_uint p)).
  { intros p. pose proof (Unsigned.to_uint_nonnil p).
    by destruct (Pos.to_uint p). }
  assert (Hdig : forall p, exists c s,
            NilEmpty.string_of_uint (Pos.to_uint p) = String c s
            /\ is_digit c = true).
  { intros p. apply uint_head, Unsigned.to_uint_nonnil. }
  destruct z1 as [|p1|p1], z2 as [|p2|p2]; simpl in Heq; rewrite ?Hnn in Heq.
  - by injection Heq as ->.
  - destruct (uint_decode (Decimal.D0 Decimal.Nil) (Pos.to_uint p2) r1 r2 Heq H1 H2)
      as [Hd _]. by destruct (Unsigned.to_uint_nonzero p2).
  - discriminate.
  - destruct (uint_decode (Pos.to_uint p1) (Decimal.D0 Decimal.Nil) r1 r2 Heq H1 H2)
      as [Hd _]. by destruct (Unsigned.to_uint_nonzero p1).
  - destruct (uint_decode _ _ _ _ Heq H1 H2) as [Hd ->]. split; [|done].
    f_equal. apply (f_equal Pos.of_uint) in Hd.
    rewrite !Unsigned.of_to in Hd. by injection Hd.
  - destruct (Hdig p1) as (c & s & Hs & Hc). rewrite Hs in Heq.
    simpl in Heq. injection Heq as -> _. discriminate.
  - discriminate.
  - destruct (Hdig p2) as (c & s & Hs & Hc). rewrite Hs in Heq.
    simpl in Heq. injection Heq as <- _. discriminate.
  - injection Heq as Heq. destruct (uint_decode _ _ _ _ Heq H1 H2) as [Hd ->].
    split; [|done]. f_equal. apply (f_equal Pos.of_uint) in Hd.
    rewrite !Unsigned.of_to in Hd. by injection Hd.
Qed.

Lemma Number_toString_head (z : Z) :
  exists c s, Number_toString z = String c s
    /\ (is_digit c = true \/ c = "-"%char).
Proof.
  unfold Number_toString. destruct z as [|p|p]; simpl.
  - do 2 eexists. split; [done|]. by left.
  - pose proof (Unsigned.to_uint_nonnil p) as Hnn.
    destruct (uint_head _ Hnn) as (c & s & Hs & Hc).
    exists c, s. split; [|by left]. rewrite <- Hs. by destruct (Pos.to_uint p).
  - do 2 eexists. split; [done|]. by right.
Qed.

Lemma unquote_quote_char (c : ascii) (t : string) :
  unquote_char (quote_char c +:+ t) = Some (c, t).
Proof.
  destruct c as [[] [] [] [] [] [] [] []]; reflexivity.
Qed.

Lemma quote_body_decode (s1 s2 r1 r2 : string) :
  quote_body s1 +:+ r1 = quote_body s2 +:+ r2 -> s1 = s2 /\ r1 = r2.
Proof.
  revert s2. induction s1 as [|c1 s1 IH]; intros [|c2 s2] Heq; simpl in Heq.
  - by injection Heq as ->.
  - apply (f_equal unquote_char) in Heq.
    rewrite string_app_assoc, unquote_quote_char in Heq. discriminate.
  - apply (f_equal unquote_char) in Heq.
    rewrite string_app_assoc, unquote_quote_char in Heq. discriminate.
  - apply (f_equal unquote_char) in Heq.
    rewrite !string_app_assoc, !unquote_quote_char in Heq.
    injection Heq as -> Heq. by destruct (IH _ Heq) as [-> ->].
Qed.

Lemma QuoteJSONString_decode (s1 s2 r1 r2 : string) :
  QuoteJSONString s1 +:+ r1 = QuoteJSONString s2 +:+ r2 -> s1 = s2 /\ r1 = r2.
Proof.
  unfold QuoteJSONString. simpl. intros [= Heq]. by apply quote_body_decode.
Qed.

Lemma ser_json (v : jsval) :
  is_json v = true -> SerializeJSONProperty v = Some (ser v).
Proof.
  intros Hv. unfold ser.
  destruct (serialize_defined v) as [s ->]; [|done]. by destruct v.
Qed.

Lemma ser_arr (l : list jsval) :
  ser (JArr l) = "[" +:+ join_comma (map ser l) +:+ "]".
Proof. reflexivity. Qed.

Lemma omap_ser_prop (ps : list (string * jsval)) :
  forallb (fun kv => is_json (snd kv)) ps = true ->
  omap (fun kv => (fun s => QuoteJSONString (fst kv) +:+ ":" +:+ s)
                    <$> SerializeJSONProperty (snd kv)) ps
  = map ser_prop ps.
Proof.
  induction ps as [|[k v] ps IH]; [done|]. intros Hps.
  cbn [forallb snd] in Hps. apply andb_true_iff in Hps as [Hv Hps].
  cbn [omap list_omap map snd fst]. rewrite (ser_json v Hv).
  cbn [fmap option_fmap option_map]. f_equal. by apply IH.
Qed.

Lemma ser_obj (ps : list (string * jsval)) :
  forallb (fun kv => is_json (snd kv)) ps = true ->
  ser (JObj ps) = "{" +:+ join_comma (map ser_prop ps) +:+ "}".
Proof.
  intros Hps. unfold ser. cbn [SerializeJSONProperty default].
  by rewrite omap_ser_prop.
Qed.

Lemma ser_head (v : jsval) :
  is_json v = true -> exists c s, ser v = String c s /\ value_start c = true.
Proof.
  destruct v as [| |[]|[z| |]| | |]; intros Hv; try discriminate;
    try (by do 2 eexists; split; [reflexivity|]).
  destruct (Number_toString_head z) as (c & s & Hs & Hc).
  exists c, s. split; [done|]. unfold value_start.
  destruct Hc as [->| ->]; [done|]. by rewrite orb_true_r.
Qed.

Lemma join_comma_cons (x : string) (l : list string) :
  join_comma (x :: l)
  = x +:+ match l with [] => "" | _ => "," +:+ join_comma l end.
Proof. destruct l; simpl; [|done]. induction x; simpl; by f_equal. Qed.

Section join_decode.

Context {A : Type} (pr : A -> string) (ok : A -> bool) (close : ascii).
Hypothesis close_not_digit : is_digit close = false.
Hypothesis close_not_comma : close <> ","%char.
Hypothesis pr_head :
  forall x, ok x = true ->
    exists c s, pr x = String c s /\ c <> close /\ c <> ","%char.

Lemma join_decode (l1 l2 : list A) (r1 r2 : string) :
  Forall (fun x1 => forall x2 t1 t2,
            ok x1 = true -> ok x2 = true ->
            pr x1 +:+ t1 = pr x2 +:+ t2 ->
            ends_number t1 -> ends_number t2 -> x1 = x2 /\ t1 = t2) l1 ->
  forallb ok l1 = true -> forallb ok l2 = true ->
  join_comma (map pr l1) +:+ String close r1
  = join_comma (map pr l2) +:+ String close r2 ->
  l1 = l2 /\ r1 = r2.
Proof.
  intros Hall. revert l2.
  induction Hall as [|x1 l1 Hx1 Hall IH]; intros [|x2 l2] Hok1 Hok2 Heq.
  - simpl in Heq. by injection Heq as ->.
  - simpl in Hok2. apply andb_true_iff in Hok2 as [Hx2 _].
    destruct (pr_head x2 Hx2) as (c & s & Hs & Hc & _).
    cbn [map] in Heq. rewrite join_comma_cons, Hs in Heq. simpl in Heq.
    injection Heq as Heq _. congruence.
  - simpl in Hok1. apply andb_true_iff in Hok1 as [Hx1' _].
    destruct (pr_head x1 Hx1') as (c & s & Hs & Hc & _).
    cbn [map] in Heq. rewrite join_comma_cons, Hs in Heq. simpl in Heq.
    injection Heq as Heq _. congruence.
  - simpl in Hok1, Hok2.
    apply andb_true_iff in Hok1 as [Hok1 Hl1].
    apply andb_true_iff in Hok2 as [Hok2 Hl2].
    cbn [map] in Heq. rewrite !join_comma_cons, !string_app_assoc in Heq.
    assert (Hends : forall (l : list A) r,
      ends_number (match map pr l with [] => "" | _ => "," +:+ join_comma (map pr l) end
                     +:+ String close r)).
    { intros [|y l] r; simpl; [done|reflexivity]. }
    destruct (Hx1 x2 _ _ Hok1 Hok2 Heq (Hends _ _) (Hends _ _)) as [-> Htl].
    destruct l1 as [|y1 l1], l2 as [|y2 l2].
    + simpl in Htl. by injection Htl as ->.
    + simpl in Htl. injection Htl as Htl _. congruence.
    + simpl in Htl. injection Htl as Htl _. congruence.
    + assert (Hrest : join_comma (map pr (y1 :: l1)) +:+ String close r1
                      = join_comma (map pr (y2 :: l2)) +:+ String close r2).
      { cbn [map] in Htl |- *. simpl in Htl. by injection Htl. }
      destruct (IH _ Hl1 Hl2 Hrest) as [-> ->]. done.
Qed.

End join_decode.

Lemma value_start_not_closer (c : ascii) :
  value_start c = true ->
  c <> "]"%char /\ c <> "}"%char /\ c <> ","%char /\ c <> ":"%char.
Proof. intros Hc. repeat split; intros ->; discriminate. Qed.

(** Closes a case where one of the two texts starts with a character the
    other cannot start with. *)
Ltac heads_differ Heq :=
  unfold ser in Heq; simpl in Heq;
  first
    [ discriminate Heq
    | match type of Heq with
      | context [Number_toString ?z] =>
          let c := fresh "c" in
          let s := fresh "s" in
          let Hs := fresh "Hs" in
          let Hc := fresh "Hc" in
          destruct (Number_toString_head z) as (c & s & Hs & [Hc|Hc]);
          rewrite Hs in Heq; simpl in Heq; injection Heq as Heq _;
          subst; discriminate
      end ].

Lemma ser_decode (v1 : jsval) :
  forall v2 r1 r2,
    is_json v1 = true -> is_json v2 = true ->
    ser v1 +:+ r1 = ser v2 +:+ r2 ->
    ends_number r1 -> ends_number r2 ->
    v1 = v2 /\ r1 = r2.
Proof.
  induction v1 as [| |b1|n1|s1|l1 IH|ps1 IH] using jsval_ind_nested;
    intros v2 r1 r2 Hj1 Hj2 Heq He1 He2; try discriminate.
  - (* null *)
    destruct v2 as [| |[]|[z| |]| | |]; try discriminate;
      try (by heads_differ Heq).
    unfold ser in Heq. simpl in Heq. by injection Heq as ->.
  - (* booleans *)
    destruct b1, v2 as [| |[]|[z| |]| | |]; try discriminate;
      try (by heads_differ Heq);
      unfold ser in Heq; simpl in Heq; by injection Heq as ->.
  - (* numbers *)
    destruct n1 as [z1| |]; try discriminate.
    destruct v2 as [| |[]|[z2| |]| | |]; try discriminate;
      try (by heads_differ Heq).
    unfold ser in Heq. simpl in Heq.
    by destruct (Number_toString_decode _ _ _ _ Heq He1 He2) as [-> ->].
  - (* strings *)
    destruct v2 as [| |[]|[z| |]|s2| |]; try discriminate;
      try (by heads_differ Heq).
    unfold ser in Heq. cbn [SerializeJSONProperty default] in Heq.
    by destruct (QuoteJSONString_decode _ _ _ _ Heq) as [-> ->].
  - (* arrays *)
    destruct v2 as [| |[]|[z| |]| |l2|]; try discriminate;
      try (by heads_differ Heq).
    rewrite !ser_arr, !string_app_assoc in Heq. simpl in Heq.
    injection Heq as Heq. simpl in Hj1, Hj2.
    destruct (join_decode ser is_json "]"%char) with (l1 := l1) (l2 := l2)
      (r1 := r1) (r2 := r2) as [-> ->]; try done.
    intros x Hx. destruct (ser_head x Hx) as (c & s & Hs & Hc).
    exists c, s. split; [done|].
    by destruct (value_start_not_closer c Hc) as (? & ? & ? & ?).
  - (* objects *)
    destruct v2 as [| |[]|[z| |]| | |ps2]; try discriminate;
      try (by heads_differ Heq).
    simpl in Hj1, Hj2.
    rewrite !ser_obj, !string_app_assoc in Heq by done. simpl in Heq.
    injection Heq as Heq.
    destruct (join_decode ser_prop (fun kv => is_json (snd kv)) "}"%char)
      with (l1 := ps1) (l2 := ps2) (r1 := r1) (r2 := r2) as [-> ->]; try done.
    + intros [k x] Hx. unfold ser_prop, QuoteJSONString. simpl.
      do 2 eexists. split; [reflexivity|]. split; discriminate.
    + eapply Forall_impl; [exact IH|]. simpl.
      intros [k1 x1] Hx [k2 x2] t1 t2 Hx1 Hx2 Hp Ht1 Ht2.
      unfold ser_prop in Hp. cbn [fst snd] in *.
      rewrite !string_app_assoc in Hp.
      destruct (QuoteJSONString_decode _ _ _ _ Hp) as [-> Hp'].
      simpl in Hp'. injection Hp' as Hp'.
      by destruct (Hx _ _ _ Hx1 Hx2 Hp' Ht1 Ht2) as [-> ->].
Qed.

Lemma string_app_nil_r (s : string) : s +:+ "" = s.
Proof. induction s; simpl; by f_equal. Qed.

(** [JSON.stringify] is injective on the values that [is_json]. *)
Lemma JSON_stringify_inj (v1 v2 : jsval) :
  is_json v1 = true -> is_json v2 = true ->
  JSON_stringify v1 = JSON_stringify v2 -> v1 = v2.
Proof.
  intros H1 H2. unfold JSON_stringify. rewrite (ser_json _ H1), (ser_json _ H2).
  intros [= Heq].
  destruct (ser_decode v1 v2 "" "") as [-> _]; try done.
  by rewrite !string_app_nil_r.
Qed.

Lemma hash_input_inj (httpUrl : string) (d1 d2 : jsval) :
  is_json d1 = true -> is_json d2 = true ->
  hash_input httpUrl d1 = hash_input httpUrl d2 -> d1 = d2.
Proof.
  intros H1 H2 Heq.
  assert (Hobj : forall d, is_json d = true ->
            is_json (JObj [("httpUrl", JStr httpUrl); ("eventContentFile", d)])
            = true).
  { intros d Hd. simpl. by rewrite Hd. }
  assert (Hin : forall d, is_json d = true ->
            JSON_stringify (JObj [("httpUrl", JStr httpUrl);
                                  ("eventContentFile", d)])
            = Some (hash_input httpUrl d)).
  { intros d Hd. unfold hash_input.
    unfold JSON_stringify. by rewrite (ser_json _ (Hobj d Hd)). }
  assert (Hv : JObj [("httpUrl", JStr httpUrl); ("eventContentFile", d1)]
               = JObj [("httpUrl", JStr httpUrl); ("eventContentFile", d2)]).
  { apply JSON_stringify_inj; [by apply Hobj|by apply Hobj|].
    by rewrite !Hin, Heq. }
  by injection Hv.
Qed.

#[local] Arguments String.append : simpl never.

(** *** A call that starts an execution and a call that joins one *)

(** With nothing registered under the key of the call,
    [deduplicatePromises_ongoing] is [deduplicatePromises]. *)
Lemma deduplicatePromises_ongoing_free {Args A}
    (getKey : Args -> outcome string) (asyncFn : Args -> M A)
    (ongoing : registry A) (args : Args) (k : string) (w : world) :
  getKey args = Ok k ->
  ongoing !! k = None ->
  deduplicatePromises_ongoing getKey asyncFn ongoing args w
  = deduplicatePromises getKey asyncFn args w.
Proof.
  intros Hk Hfree.
  unfold deduplicatePromises_ongoing, deduplicatePromises, bind, lift.
  rewrite Hk. simpl. by rewrite Hfree.
Qed.

Lemma generateReport_ongoing_free ongoing domain mediaId file opts k w :
  getInputHash domain mediaId file opts = Ok k ->
  ongoing !! k = None ->
  generateReport_ongoing ongoing domain mediaId file opts w
  = generateReport domain mediaId file opts w.
Proof.
  intros Hk Hfree. unfold generateReport_ongoing, generateReport.
  by apply (deduplicatePromises_ongoing_free _ _ _ _ k).
Qed.

Lemma generateReport_ongoing_joined ongoing domain mediaId file opts k
    (execution : M loc) w :
  getInputHash domain mediaId file opts = Ok k ->
  ongoing !! k = Some execution ->
  generateReport_ongoing ongoing domain mediaId file opts w = execution w.
Proof.
  intros Hk Hjoin.
  unfold generateReport_ongoing, deduplicatePromises_ongoing, uncurry4, bind,
    lift.
  rewrite Hk. simpl. by rewrite Hjoin.
Qed.

Lemma generateReport_ongoing_throw ongoing domain mediaId file opts e w :
  getInputHash domain mediaId file opts = Throw e ->
  generateReport_ongoing ongoing domain mediaId file opts w = (Throw e, w).
Proof.
  intros Hk.
  unfold generateReport_ongoing, deduplicatePromises_ongoing, uncurry4, bind,
    lift.
  by rewrite Hk.
Qed.

(** The key does not depend on [tempDirectory] or on [script]. *)
Lemma getInputHash_baseUrl domain mediaId file opts opts' :
  baseUrl opts' = baseUrl opts ->
  getInputHash domain mediaId file opts'
  = getInputHash domain mediaId file opts.
Proof. intros Hb. unfold getInputHash. by rewrite Hb. Qed.

Lemma scannedDownload_ongoing_free ongoing domain mediaId file opts k w :
  getInputHash domain mediaId file opts = Ok k ->
  ongoing !! k = None ->
  scannedDownload_ongoing ongoing domain mediaId file opts w
  = scannedDownload domain mediaId file opts w.
Proof.
  intros Hk Hfree.
  unfold scannedDownload_ongoing, scannedDownload, withTempDir, bind,
    try_finally.
  destruct (call_mkdtemp _ w) as [[tempDir|e] w0]; [|done].
  rewrite (generateReport_ongoing_free ongoing _ _ _ _ k); [done| |done].
  by rewrite (getInputHash_baseUrl _ _ _ opts).
Qed.

(** *** The claims *)

(** C2, as the code has it.  The key is a function of the URL and the
    descriptor alone.  Two distinct descriptors that hold no [undefined]
    and no non-finite number give, for one URL, two distinct strings to the
    digest, and so two distinct keys unless the digest collides on these
    two strings; the same holds of a descriptor against none. *)
Theorem result_key_distinguishes (httpUrl : string) (d1 d2 : jsval) :
  (forall u u' d d', u = u' -> d = d' ->
     generateResultHash u d = generateResultHash u' d')
  /\ (is_json d1 = true -> is_json d2 = true -> d1 <> d2 ->
      hash_input httpUrl d1 <> hash_input httpUrl d2
      /\ (generateResultHash httpUrl d1 <> generateResultHash httpUrl d2
          \/ collision (hash_input httpUrl d1) (hash_input httpUrl d2)))
  /\ (d1 <> JUndefined ->
      hash_input httpUrl d1 <> hash_input httpUrl JUndefined
      /\ (generateResultHash httpUrl d1 <> generateResultHash httpUrl JUndefined
          \/ collision (hash_input httpUrl d1) (hash_input httpUrl JUndefined))).
Proof.
  split; [|split].
  - by intros u u' d d' -> ->.
  - intros H1 H2 Hne.
    assert (Hin : hash_input httpUrl d1 <> hash_input httpUrl d2).
    { intros Heq. apply Hne. by eapply hash_input_inj. }
    split; [done|]. by apply digest_differs_or_collision.
  - intros Hpresent.
    pose proof (hash_input_present_absent httpUrl _ Hpresent) as Hne.
    split; [done|]. by apply digest_differs_or_collision.
Qed.

(** C3. [getReport] only reads the cache.  For every input whose key is [k]:
    when the cache holds nothing under [k] it returns [{scanned: false}];
    when the cache holds the entry [o] under [k] it returns
    [{scanned: true, clean, info}] with the two values of [o]; and in every
    case, also when the key cannot be derived, it leaves the world as it
    found it: the cache, the result objects, the directories, and the trace
    of calls to the collaborators, so that no fetch, decryption or scan was
    started. *)
Theorem getReport_cache_only
    (domain mediaId : option string) (eventContentFile : jsval)
    (opts : options) (k : string) (w : world) :
  getInputHash domain mediaId eventContentFile opts = Ok k ->
  (resultCache w !! k = None ->
     getReport domain mediaId eventContentFile opts w
     = (Ok {| scanned := false; report_clean := None; report_info := None |}, w))
  /\ (forall o, cache_entry w k = Some o ->
        getReport domain mediaId eventContentFile opts w
        = (Ok {| scanned := true; report_clean := Some (clean o);
                 report_info := Some (info o) |}, w))
  /\ (forall w0, snd (getReport domain mediaId eventContentFile opts w0) = w0).
Proof.
  intros Hk. split; [|split].
  - by apply getReport_miss.
  - intros o. by apply getReport_hit.
  - intros w0. apply getReport_world.
Qed.

(** C4. When [generateReport] returns a result object, [getReport] with the
    same arguments, run in the world [generateReport] left, finds it:
    it reports [scanned: true] and the [clean] and [info] of that object. *)
Theorem generateReport_then_getReport
    (domain mediaId : option string) (eventContentFile : jsval)
    (opts : options) (w w' : world) (l : loc) :
  wf_world w ->
  generateReport domain mediaId eventContentFile opts w = (Ok l, w') ->
  exists o,
    heap w' !! l = Some o
    /\ getReport domain mediaId eventContentFile opts w'
       = (Ok {| scanned := true; report_clean := Some (clean o);
                report_info := Some (info o) |}, w').
Proof.
  intros Hwf Hrun.
  unfold generateReport, deduplicatePromises, uncurry4, bind, lift in Hrun.
  destruct (getInputHash domain mediaId eventContentFile opts) as [k|e] eqn:Hk;
    [|discriminate].
  destruct (getInputHash_media _ _ _ _ _ Hk) as (dm & Hdm & Hkey).
  destruct (baseUrl opts) as [b|] eqn:Hb;
    [|by rewrite _generateReport_config_error in Hrun; auto].
  destruct (tempDirectory opts) as [t|] eqn:Ht;
    [|by rewrite _generateReport_config_error in Hrun; auto].
  destruct (script opts) as [s|] eqn:Hs;
    [|by rewrite _generateReport_config_error in Hrun; auto].
  rewrite (_generateReport_run _ _ _ _ b t s dm w Hb Ht Hs Hdm) in Hrun.
  destruct (request_get _ _ _) as [h|e]; [|discriminate].
  destruct (generateResult _ _ _ _ _ _) as [[l2|e] w2] eqn:Hres; [|discriminate].
  injection Hrun as -> <-.
  apply generateResult_ok in Hres as (Hcache & [o Ho] & _); [|done].
  simpl. rewrite !list_lookup_alter_eq, Ho. simpl.
  eexists. split; [reflexivity|].
  eapply getReport_hit; [exact Hk|].
  unfold cache_entry. simpl. rewrite Hkey, Hcache. simpl.
  by rewrite !list_lookup_alter_eq, Ho.
Qed.

(** C5, as the code has it.  Once the directory [tempDir] is created, for
    every wrapped function and whatever way it ends (result or exception
    [r]): the removal of [tempDir] is the last call of the invocation; when
    the removal succeeds the caller gets [r] and [tempDir] no longer exists;
    when the removal fails with [e] the caller gets [e] in place of [r]. *)
Theorem withTempDir_removal {A : Type}
    (asyncFn : options -> M A) (opts : options) (w w1 : world)
    (prefix suffix tempDir : string) (r : outcome A) :
  prefix = template (tempDirectory opts) +:+ path_sep +:+ "av-" ->
  tempDir = prefix +:+ suffix ->
  mkdtemp (length (trace w)) prefix = inl suffix ->
  asyncFn {| baseUrl := baseUrl opts; tempDirectory := Some tempDir;
             script := script opts |} (after_mkdtemp w prefix tempDir)
  = (r, w1) ->
  exists w',
    withTempDir asyncFn opts w
    = (match rimraf (length (trace w1)) tempDir with
       | None => r
       | Some e => Throw (Thrown e)
       end, w')
    /\ trace w' = trace w1 ++ [EvRimraf tempDir]
    /\ (rimraf (length (trace w1)) tempDir = None -> tempDir ∉ dirs w').
Proof.
  intros -> -> Hmk Hrun.
  rewrite (withTempDir_run _ _ _ _ Hmk).
  unfold try_finally. rewrite Hrun. unfold call_rimraf.
  destruct (rimraf (length (trace w1)) _) as [e|] eqn:Hrm; simpl.
  - eexists. split; [reflexivity|]. split; [done|]. intros [=].
  - eexists. split; [reflexivity|]. split; [done|]. intros _. simpl.
    intros [_ Hn]%elem_of_difference. apply Hn. by apply elem_of_singleton.
Qed.

(** C6. When the download fails with the error [e]: [generateReport] throws
    a client error 502 if [e.statusCode] is truthy, as every HTTP status code
    is, and throws [e] itself otherwise, as when [e] has no status code; in
    both cases the cache and the result objects are what they were. *)
Theorem fetch_failure_not_cached
    (domain mediaId : option string) (eventContentFile : jsval)
    (opts : options) (b t s : string) (dm : option string * option string)
    (e : error_object) (w : world) :
  baseUrl opts = Some b -> tempDirectory opts = Some t -> script opts = Some s ->
  media_of domain mediaId eventContentFile = Ok dm ->
  request_get (length (trace w)) (generateHttpUrl (Some b) (fst dm) (snd dm))
    (path_join t "downloadedFile") = inr e ->
  exists w',
    generateReport domain mediaId eventContentFile opts w
    = (Throw (if truthy (err_statusCode e)
              then ClientError 502 "Failed to get requested URL"
              else Thrown e), w')
    /\ (forall n, err_statusCode e = JNum (NInt n) -> (100 <= n <= 599)%Z ->
         fst (generateReport domain mediaId eventContentFile opts w)
         = Throw (ClientError 502 "Failed to get requested URL"))
    /\ (err_statusCode e = JUndefined ->
         fst (generateReport domain mediaId eventContentFile opts w)
         = Throw (Thrown e))
    /\ resultCache w' = resultCache w
    /\ heap w' = heap w.
Proof.
  intros Hb Ht Hs Hdm Hget.
  assert (Hrun : generateReport domain mediaId eventContentFile opts w
    = (Throw (if truthy (err_statusCode e)
              then ClientError 502 "Failed to get requested URL"
              else Thrown e),
       {| resultCache := resultCache w; heap := heap w; dirs := dirs w;
          trace := trace w ++ [EvGet (generateHttpUrl (Some b) (fst dm) (snd dm))
                                 (path_join t "downloadedFile")] |})).
  { unfold generateReport, deduplicatePromises, uncurry4, getInputHash, _generateReport.
    unfold bind, lift, try_catch, call_get, throw.
    rewrite Hdm, Hb, Ht, Hs. simpl. rewrite Hget. simpl.
    by destruct (truthy (err_statusCode e)). }
  eexists. split; [exact Hrun|]. rewrite Hrun. simpl.
  repeat split.
  - intros n Hn Hrange. rewrite Hn, truthy_status_code; done.
  - by intros ->.
Qed.

(** C7. When the decryption routine is called in a run of [generateReport]
    and throws: the descriptor carries a [key], the run ends with a client
    error 400, the cache and the result objects are what they were, and
    [getReport] with the same arguments then answers [{scanned: false}]. *)
Theorem decrypt_failure_not_cached
    (domain mediaId : option string) (eventContentFile : jsval)
    (opts : options) (w w' : world) (r : outcome loc) :
  generateReport domain mediaId eventContentFile opts w = (r, w') ->
  decrypt_threw w w' ->
  truthy (get_prop eventContentFile "key") = true
  /\ r = Throw (ClientError 400 "Failed to decrypt file")
  /\ resultCache w' = resultCache w
  /\ heap w' = heap w
  /\ getReport domain mediaId eventContentFile opts w'
     = (Ok {| scanned := false; report_clean := None; report_info := None |}, w').
Proof.
  intros Hrun Hthrew.
  unfold generateReport, deduplicatePromises, uncurry4, bind, lift in Hrun.
  destruct (getInputHash domain mediaId eventContentFile opts) as [k|e] eqn:Hk.
  2:{ injection Hrun as <- <-. no_decrypt_threw Hthrew. }
  destruct (getInputHash_media _ _ _ _ _ Hk) as (dm & Hdm & Hkey).
  assert (Hnoconf : (Throw config_error, w) = (r, w') -> False).
  { intros [= <- <-]. no_decrypt_threw Hthrew. }
  destruct (baseUrl opts) as [b|] eqn:Hb;
    [|rewrite _generateReport_config_error in Hrun by auto; by destruct Hnoconf].
  destruct (tempDirectory opts) as [t|] eqn:Ht;
    [|rewrite _generateReport_config_error in Hrun by auto; by destruct Hnoconf].
  destruct (script opts) as [s|] eqn:Hs;
    [|rewrite _generateReport_config_error in Hrun by auto; by destruct Hnoconf].
  clear Hnoconf.
  rewrite (_generateReport_run _ _ _ _ b t s dm w Hb Ht Hs Hdm) in Hrun.
  set (url := generateHttpUrl (Some b) (fst dm) (snd dm)) in *.
  set (fp := path_join t "downloadedFile") in *.
  destruct (request_get _ _ _) as [h|e].
  2:{ injection Hrun as <- <-. no_decrypt_threw Hthrew. }
  destruct (resultCache w !! k) as [l|] eqn:Hc.
  { rewrite (generateResult_hit _ _ _ _ _ _ l) in Hrun by (by rewrite <- Hkey).
    injection Hrun as <- <-. no_decrypt_threw Hthrew. }
  rewrite generateResult_miss in Hrun by (by rewrite <- Hkey).
  rewrite !scan_and_store_run in Hrun.
  set (dp := path_join t "unsafeDownloadedDecryptedFile") in *.
  destruct (truthy eventContentFile) eqn:Hfile; simpl in Hrun.
  2:{ destruct (executeCommand _ _) as [v|e]; injection Hrun as <- <-;
        no_decrypt_threw Hthrew. }
  destruct (truthy (get_prop eventContentFile "key")) eqn:Hkeyt; simpl in Hrun.
  2:{ destruct (executeCommand _ _) as [v|e]; injection Hrun as <- <-;
        no_decrypt_threw Hthrew. }
  destruct (decryptFile (length (trace w ++ [EvGet url fp])) fp dp eventContentFile)
    as [e|] eqn:Hdec.
  - injection Hrun as <- <-. simpl.
    split; [done|]. split; [done|]. split; [done|]. split; [done|].
    by eapply getReport_miss.
  - exfalso.
    assert (Hj : exists j src dst file e,
      [EvGet url fp; EvDecrypt fp dp eventContentFile; EvExec (s +:+ " " +:+ dp)]
        !! j = Some (EvDecrypt src dst file)
      /\ decryptFile (length (trace w) + j) src dst file = Some e).
    { destruct (executeCommand _ _) as [v|e]; injection Hrun as <- <-;
        by calls_of_run Hthrew. }
    destruct Hj as (j & src & dst & file & e & Hj & Hd).
    destruct j as [|[|[|]]]; try discriminate.
    injection Hj as <- <- <-.
    rewrite length_app in Hdec. simpl in Hdec. congruence.
Qed.


(** C9, as the code has it.  With an option missing and a descriptor from
    which the key can be derived.  A [generateReport] that finds no
    execution in flight under its key throws the configuration error and
    leaves the world, and so the trace of calls, untouched.  A
    [scannedDownload] whose [generateReport] finds none creates its
    directory first; when [baseUrl] or [script] is the missing one and the
    directory could be created and is removed without error, it throws the
    configuration error, and the directory creation and its removal are the
    only calls it made.  A [generateReport] that finds an execution in
    flight under its key, which depends on [baseUrl] alone among the
    options, does not look at its options: its outcome is the outcome of
    that execution. *)
Theorem config_error_no_fetch
    (ongoing : registry loc)
    (domain mediaId : option string) (eventContentFile : jsval)
    (opts : options) (k : string) (w : world) :
  baseUrl opts = None \/ tempDirectory opts = None \/ script opts = None ->
  getInputHash domain mediaId eventContentFile opts = Ok k ->
  (ongoing !! k = None ->
   generateReport_ongoing ongoing domain mediaId eventContentFile opts w
   = (Throw config_error, w)
   /\ forall t suffix,
       tempDirectory opts = Some t ->
       mkdtemp (length (trace w)) (t +:+ path_sep +:+ "av-") = inl suffix ->
       rimraf (S (length (trace w))) ((t +:+ path_sep +:+ "av-") +:+ suffix)
         = None ->
       exists w',
         scannedDownload_ongoing ongoing domain mediaId eventContentFile opts w
         = (Throw config_error, w')
         /\ trace w' = trace w ++ [EvMkdtemp (t +:+ path_sep +:+ "av-");
                                   EvRimraf ((t +:+ path_sep +:+ "av-") +:+ suffix)]
         /\ resultCache w' = resultCache w
         /\ heap w' = heap w
         /\ ((t +:+ path_sep +:+ "av-") +:+ suffix) ∉ dirs w')
  /\ (forall execution : M loc,
        ongoing !! k = Some execution ->
        generateReport_ongoing ongoing domain mediaId eventContentFile opts w
        = execution w).
Proof.
  intros Habsent Hk. split; [|intros execution; by apply generateReport_ongoing_joined].
  intros Hfree.
  destruct (getInputHash_media _ _ _ _ _ Hk) as (dm & Hdm & _).
  assert (Hgen : forall o w0,
    baseUrl o = None \/ tempDirectory o = None \/ script o = None ->
    generateReport domain mediaId eventContentFile o w0
    = (Throw config_error, w0)).
  { intros o w0 Ho.
    unfold generateReport, deduplicatePromises, uncurry4, getInputHash, bind, lift.
    rewrite Hdm. simpl. by apply _generateReport_config_error. }
  split; [rewrite (generateReport_ongoing_free _ _ _ _ _ k) by done; by apply Hgen|].
  intros t suffix Ht Hmk Hrm.
  rewrite (scannedDownload_ongoing_free _ _ _ _ _ k) by done.
  unfold scannedDownload.
  assert (Hmk' : mkdtemp (length (trace w))
            (template (tempDirectory opts) +:+ path_sep +:+ "av-") = inl suffix)
    by (by rewrite Ht).
  rewrite (withTempDir_run _ _ _ _ Hmk').
  unfold try_finally, bind. rewrite Hgen.
  2:{ simpl. destruct Habsent as [H|[H|H]]; [by left| congruence | by right; right]. }
  unfold call_rimraf. rewrite Ht. simpl.
  rewrite length_app. simpl. rewrite Nat.add_1_r, Hrm.
  eexists. split; [reflexivity|]. simpl.
  rewrite <- app_assoc. simpl. repeat split; try done.
  intros [_ Hn]%elem_of_difference. apply Hn. by apply elem_of_singleton.
Qed.

(** C10. For a descriptor without a truthy [key]: no run of
    [generateReport] calls the decryption routine; when the download
    succeeds and the cache has nothing under the key, the calls of the run
    are the download and the scanner on the downloaded file; and when the
    descriptor is present, the string hashed for the key contains it and
    differs from the string hashed for the same URL without a descriptor, so
    that the two keys differ unless the digest collides on these two
    strings. *)
Theorem no_key_no_decrypt
    (domain mediaId : option string) (eventContentFile : jsval)
    (opts : options) (w : world) :
  truthy (get_prop eventContentFile "key") = false ->
  no_decrypt w (snd (generateReport domain mediaId eventContentFile opts w))
  /\ (forall b t s dm h,
       baseUrl opts = Some b -> tempDirectory opts = Some t ->
       script opts = Some s ->
       media_of domain mediaId eventContentFile = Ok dm ->
       request_get (length (trace w))
         (generateHttpUrl (Some b) (fst dm) (snd dm))
         (path_join t "downloadedFile") = inl h ->
       resultCache w !! generateResultHash
                          (generateHttpUrl (Some b) (fst dm) (snd dm))
                          eventContentFile = None ->
       trace (snd (generateReport domain mediaId eventContentFile opts w))
       = trace w
           ++ [EvGet (generateHttpUrl (Some b) (fst dm) (snd dm))
                 (path_join t "downloadedFile");
               EvExec (s +:+ " " +:+ path_join t "downloadedFile")])
  /\ (eventContentFile <> JUndefined ->
      forall httpUrl,
        hash_input httpUrl eventContentFile <> hash_input httpUrl JUndefined
        /\ (generateResultHash httpUrl eventContentFile
              <> generateResultHash httpUrl JUndefined
            \/ collision (hash_input httpUrl eventContentFile)
                 (hash_input httpUrl JUndefined))).
Proof.
  intros Hkey. split; [|split].
  - by apply no_decrypt_generateReport.
  - intros b t s dm h Hb Ht Hs Hdm Hget Hmiss.
    unfold generateReport, deduplicatePromises, uncurry4, bind, lift, getInputHash.
    rewrite Hdm.
    rewrite (_generateReport_run _ _ _ _ b t s dm w Hb Ht Hs Hdm), Hget.
    rewrite generateResult_miss by done.
    rewrite Hkey, andb_false_r, scan_and_store_run.
    destruct (executeCommand _ _); simpl; by rewrite <- app_assoc.
  - intros Hpresent httpUrl.
    pose proof (hash_input_present_absent httpUrl _ Hpresent) as Hne.
    split; [done|]. by apply digest_differs_or_collision.
Qed.

(** ** Further properties of the sequential operations *)

(** *** Which calls an operation makes *)

#[local] Instance calls_only_preorder P : PreOrder (calls_only P).
Proof.
  split.
  - intros w. exists []. by rewrite app_nil_r.
  - intros w1 w2 w3 (evs1 & H1 & Hf1) (evs2 & H2 & Hf2).
    exists (evs1 ++ evs2). split.
    + by rewrite H2, H1, app_assoc.
    + by apply Forall_app.
Qed.

Lemma calls_only_same_trace P w w' : trace w' = trace w -> calls_only P w w'.
Proof. intros H. exists []. by rewrite app_nil_r. Qed.

Lemma calls_only_one P w w' ev :
  trace w' = trace w ++ [ev] -> P ev = true -> calls_only P w w'.
Proof. intros H Hev. exists [ev]. split; [done|]. by constructor. Qed.

Lemma calls_only_between P w w' :
  calls_only P w w' ->
  trace w' = trace w ++ calls_between w w'
  /\ Forall (fun ev => P ev = true) (calls_between w w').
Proof.
  intros (evs & Htr & Hall). unfold calls_between.
  by rewrite Htr, drop_app_length.
Qed.

Lemma pipeline_calls_generateResult httpUrl file fp td sc :
  preserves (calls_only is_pipeline_call) (generateResult httpUrl file fp td sc).
Proof.
  intros w.
  destruct (resultCache w !! generateResultHash httpUrl file) as [l|] eqn:Hk.
  - rewrite (generateResult_hit _ _ _ _ _ _ _ Hk). reflexivity.
  - rewrite (generateResult_miss _ _ _ _ _ _ Hk).
    assert (Hscan : forall cmd w0,
      calls_only is_pipeline_call w0
        (snd ((let* result := call_executeCommand cmd in
               let* _ := cache_set (generateResultHash httpUrl file) result in
               ret result) w0))).
    { intros cmd w0. rewrite scan_and_store_run.
      destruct (executeCommand _ _); by eapply calls_only_one. }
    destruct (truthy file && truthy (get_prop file "key")); [|apply Hscan].
    destruct (decryptFile _ _ _ _) as [e|]; [by eapply calls_only_one|].
    etrans; [|apply Hscan]. by eapply calls_only_one.
Qed.

Lemma pipeline_calls_generateReport domain mediaId file opts :
  preserves (calls_only is_pipeline_call)
    (generateReport domain mediaId file opts).
Proof.
  unfold generateReport, deduplicatePromises, uncurry4.
  apply preserves_bind; [apply _|apply preserves_lift; apply _|]. intros _.
  unfold _generateReport.
  destruct (baseUrl opts), (tempDirectory opts), (script opts);
    try apply preserves_throw; try apply _.
  apply preserves_bind; [apply _|apply preserves_lift; apply _|]. intros dm.
  apply preserves_bind; [apply _| |].
  { apply preserves_try_catch; [apply _| |].
    - intros w. unfold call_get.
      destruct (request_get _ _ _); by eapply calls_only_one.
    - intros e. destruct (negb _); apply preserves_throw; apply _. }
  intros h.
  apply preserves_bind; [apply _|apply pipeline_calls_generateResult|].
  intros l.
  apply preserves_bind; [apply _|intros w; by apply calls_only_same_trace|].
  intros _.
  apply preserves_bind; [apply _|intros w; by apply calls_only_same_trace|].
  intros _. apply preserves_ret; apply _.
Qed.

#[local] Instance same_dirs_preorder : PreOrder same_dirs.
Proof.
  split.
  - by intros w.
  - intros w1 w2 w3 H12 H23. unfold same_dirs in *. congruence.
Qed.

Lemma same_dirs_generateReport domain mediaId file opts :
  preserves same_dirs (generateReport domain mediaId file opts).
Proof.
  unfold generateReport, deduplicatePromises, uncurry4.
  apply preserves_bind; [apply _|apply preserves_lift; apply _|]. intros _.
  unfold _generateReport.
  destruct (baseUrl opts), (tempDirectory opts), (script opts);
    try apply preserves_throw; try apply _.
  apply preserves_bind; [apply _|apply preserves_lift; apply _|]. intros dm.
  apply preserves_bind; [apply _| |].
  { apply preserves_try_catch; [apply _| |].
    - intros w. unfold call_get. by destruct (request_get _ _ _).
    - intros e. destruct (negb _); apply preserves_throw; apply _. }
  intros h. apply preserves_bind; [apply _| |].
  { intros w.
    destruct (resultCache w !! generateResultHash
                (generateHttpUrl (Some s) dm.1 dm.2) file) as [l|] eqn:Hk.
    - by rewrite (generateResult_hit _ _ _ _ _ _ _ Hk).
    - rewrite (generateResult_miss _ _ _ _ _ _ Hk), !scan_and_store_run.
      destruct (truthy file && truthy (get_prop file "key")).
      + destruct (decryptFile _ _ _ _); [done|].
        by destruct (executeCommand _ _).
      + by destruct (executeCommand _ _). }
  intros l. apply preserves_bind; [apply _|by intros w|].
  intros _. apply preserves_bind; [apply _|by intros w|].
  intros _. apply preserves_ret; apply _.
Qed.

(** *** A run of [generateReport] that returns *)

Lemma generateReport_ok_inv domain mediaId file opts w l w' :
  wf_world w ->
  generateReport domain mediaId file opts w = (Ok l, w') ->
  exists b t s dm h o,
    baseUrl opts = Some b /\ tempDirectory opts = Some t
    /\ script opts = Some s
    /\ media_of domain mediaId file = Ok dm
    /\ request_get (length (trace w))
         (generateHttpUrl (Some b) (fst dm) (snd dm))
         (path_join t "downloadedFile") = inl h
    /\ resultCache w' !! generateResultHash
                          (generateHttpUrl (Some b) (fst dm) (snd dm)) file
       = Some l
    /\ heap w' !! l = Some o
    /\ filePath o = Some (path_join t "downloadedFile")
    /\ headers o = h.
Proof.
  intros Hwf Hrun.
  unfold generateReport, deduplicatePromises, uncurry4, bind, lift in Hrun.
  destruct (getInputHash domain mediaId file opts) as [k|e] eqn:Hk;
    [|discriminate].
  destruct (getInputHash_media _ _ _ _ _ Hk) as (dm & Hdm & Hkey).
  destruct (baseUrl opts) as [b|] eqn:Hb;
    [|by rewrite _generateReport_config_error in Hrun; auto].
  destruct (tempDirectory opts) as [t|] eqn:Ht;
    [|by rewrite _generateReport_config_error in Hrun; auto].
  destruct (script opts) as [s|] eqn:Hs;
    [|by rewrite _generateReport_config_error in Hrun; auto].
  rewrite (_generateReport_run _ _ _ _ b t s dm w Hb Ht Hs Hdm) in Hrun.
  destruct (request_get _ _ _) as [h|e] eqn:Hget; [|discriminate].
  destruct (generateResult _ _ _ _ _ _) as [[l2|e] w2] eqn:Hres; [|discriminate].
  injection Hrun as -> <-.
  apply generateResult_ok in Hres as (Hcache & [o Ho] & _); [|done].
  exists b, t, s, dm, h. eexists.
  do 5 (split; [done|]). split; [exact Hcache|]. simpl.
  rewrite !list_lookup_alter_eq, Ho. simpl. done.
Qed.

(** *** The calls of [scannedDownload] *)

Lemma pipeline_call_not_delivery (evs : list event) :
  Forall (fun ev => is_pipeline_call ev = true) evs ->
  Forall (fun ev => is_delivery ev = false) evs.
Proof. intros H. eapply Forall_impl; [exact H|]. by intros []. Qed.

Lemma calls_between_app w w' evs :
  trace w' = trace w ++ evs -> calls_between w w' = evs.
Proof. intros H. unfold calls_between. rewrite H. by rewrite drop_app_length. Qed.

(** Either [scannedDownload] makes no call on the response, or its calls are:
    the creation of the directory, calls of the pipeline, [res.set] with the
    whitelisted headers of the download, [res.sendFile] with the download,
    and the removal of the directory; the verdict cached under the key of
    the request is then a clean one. *)
Lemma scannedDownload_delivery domain mediaId file opts w :
  wf_world w ->
  (fst (scannedDownload domain mediaId file opts w) <> Ok tt
   /\ Forall (fun ev => is_delivery ev = false)
        (calls_between w (snd (scannedDownload domain mediaId file opts w))))
  \/ exists dir pre k o h,
       (forall status msg,
          fst (scannedDownload domain mediaId file opts w)
          <> Throw (ClientError status msg))
       /\ calls_between w (snd (scannedDownload domain mediaId file opts w))
       = EvMkdtemp (template (tempDirectory opts) +:+ path_sep +:+ "av-")
           :: pre ++ [EvSet (whitelisted h);
                      EvSendFile (Some (path_join dir "downloadedFile"));
                      EvRimraf dir]
       /\ Forall (fun ev => is_pipeline_call ev = true) pre
       /\ getInputHash domain mediaId file opts = Ok k
       /\ cache_entry (snd (scannedDownload domain mediaId file opts w)) k
          = Some o
       /\ clean o = true
       /\ headers o = Some h
       /\ filePath o = Some (path_join dir "downloadedFile").
Proof.
  intros Hwf. set (prefix := template (tempDirectory opts) +:+ path_sep +:+ "av-").
  destruct (mkdtemp (length (trace w)) prefix) as [suffix|e] eqn:Hmk.
  2:{ left. unfold scannedDownload, withTempDir, bind, call_mkdtemp.
      fold prefix. rewrite Hmk. simpl.
      rewrite (calls_between_app w _ [EvMkdtemp prefix]) by done.
      split; [done|]. by repeat constructor. }
  unfold scannedDownload. rewrite (withTempDir_run _ _ _ _ Hmk). fold prefix.
  set (dir := prefix +:+ suffix).
  set (opts' := {| baseUrl := baseUrl opts; tempDirectory := Some dir;
                   script := script opts |}).
  set (w0 := after_mkdtemp w prefix dir).
  assert (Hwf0 : wf_world w0) by (by apply (keeps_wf_same_store w w0)).
  destruct (calls_only_between _ _ _
              (pipeline_calls_generateReport domain mediaId file opts' w0))
    as [Htr1 Hpre].
  unfold try_finally, bind.
  destruct (generateReport domain mediaId file opts' w0) as [r w1] eqn:Hrun.
  simpl in Htr1, Hpre. set (pre := calls_between w0 w1) in *.
  assert (Hquiet : forall (e0 : exn) wb,
    trace wb = trace w1 ->
    fst (match call_rimraf dir wb with
         | (Ok _, w'') => (Throw e0 : outcome unit, w'')
         | (Throw e, w'') => (Throw e, w'')
         end) <> Ok tt
    /\ Forall (fun ev => is_delivery ev = false)
         (calls_between w
            (snd (match call_rimraf dir wb with
                  | (Ok _, w'') => (Throw e0 : outcome unit, w'')
                  | (Throw e, w'') => (Throw e, w'')
                  end)))).
  { intros e0 wb Hwb. unfold call_rimraf.
    assert (Hall : Forall (fun ev => is_delivery ev = false)
                     (EvMkdtemp prefix :: pre ++ [EvRimraf dir])).
    { constructor; [done|]. apply Forall_app. split.
      - by apply pipeline_call_not_delivery.
      - by repeat constructor. }
    destruct (rimraf _ _); simpl; (split; [done|]);
      (rewrite (calls_between_app w _ (EvMkdtemp prefix :: pre ++ [EvRimraf dir]));
       [exact Hall|]);
      simpl; rewrite Hwb, Htr1; simpl; by rewrite <- !app_assoc. }
  destruct r as [l|e]; [|left; by apply Hquiet].
  destruct (generateReport_ok_inv _ _ _ _ _ _ _ Hwf0 Hrun)
    as (b & t & s & dm & h & o & Hb & Ht & Hs & Hdm & Hget & Hcache & Ho
        & Hfp & Hh).
  simpl in Hb, Ht, Hs. injection Ht as <-.
  unfold deref. rewrite Ho.
  destruct (clean o) eqn:Hclean; simpl; [|left; by apply Hquiet].
  destruct (headers o) as [h'|] eqn:Hho; [|left; by apply Hquiet].
  right. exists dir, pre, (generateResultHash
                             (generateHttpUrl (Some b) (fst dm) (snd dm)) file),
           o, h'.
  assert (Hkey : getInputHash domain mediaId file opts
                 = Ok (generateResultHash
                         (generateHttpUrl (Some b) (fst dm) (snd dm)) file)).
  { unfold getInputHash. by rewrite Hdm, Hb. }
  unfold log_event, call_rimraf. simpl.
  rewrite Hfp.
  destruct (rimraf _ _); simpl;
    (split; [done|]);
    (split;
     [apply calls_between_app; simpl; rewrite Htr1; simpl;
      by rewrite <- !app_assoc|]);
    (split; [done|]); (split; [done|]);
    (split; [unfold cache_entry; simpl; by rewrite Hcache|]); done.
Qed.

(** *** Further properties *)

(** X1. [scannedDownload] never sends a file that is not known to be clean:
    whenever it calls [res.sendFile], the cache holds, under the key of the
    request, a clean verdict, and the file sent is the one that verdict
    names. *)
Theorem scannedDownload_sends_only_clean
    (domain mediaId : option string) (eventContentFile : jsval)
    (opts : options) (w : world) (p : option string) :
  wf_world w ->
  EvSendFile p
    ∈ calls_between w
        (snd (scannedDownload domain mediaId eventContentFile opts w)) ->
  exists k o,
    getInputHash domain mediaId eventContentFile opts = Ok k
    /\ cache_entry
         (snd (scannedDownload domain mediaId eventContentFile opts w)) k
       = Some o
    /\ clean o = true
    /\ filePath o = p.
Proof.
  intros Hwf Hin.
  destruct (scannedDownload_delivery domain mediaId eventContentFile opts w Hwf)
    as [[_ Hnone]|(dir & pre & k & o & h & Hout & Hcalls & Hpre & Hk & Ho & Hclean
                   & Hh & Hfp)].
  - rewrite Forall_forall in Hnone. by specialize (Hnone _ Hin).
  - exists k, o. repeat (split; [done|]).
    rewrite Hcalls in Hin.
    apply elem_of_cons in Hin as [?|Hin]; [done|].
    apply elem_of_app in Hin as [Hin|Hin].
    + rewrite Forall_forall in Hpre. by specialize (Hpre _ Hin).
    + rewrite Hfp. rewrite !elem_of_cons in Hin.
      destruct Hin as [?|[?|[?|Hin]]]; try done; [congruence|].
      by apply elem_of_nil in Hin.
Qed.

(** X2. The response only gets the whitelisted headers: whenever
    [scannedDownload] calls [res.set], the argument holds the three headers
    of [headerWhitelist], in that order and no other, each with the value
    it has among the headers stored with the cached verdict of the
    request. *)
Theorem scannedDownload_headers_whitelisted
    (domain mediaId : option string) (eventContentFile : jsval)
    (opts : options) (w : world) (hs : list (string * option string)) :
  wf_world w ->
  EvSet hs
    ∈ calls_between w
        (snd (scannedDownload domain mediaId eventContentFile opts w)) ->
  map fst hs = headerWhitelist
  /\ exists k o h,
      getInputHash domain mediaId eventContentFile opts = Ok k
      /\ cache_entry
           (snd (scannedDownload domain mediaId eventContentFile opts w)) k
         = Some o
      /\ headers o = Some h
      /\ forall headerKey v, (headerKey, v) ∈ hs -> h !! headerKey = v.
Proof.
  intros Hwf Hin.
  destruct (scannedDownload_delivery domain mediaId eventContentFile opts w Hwf)
    as [[_ Hnone]|(dir & pre & k & o & h & Hout & Hcalls & Hpre & Hk & Ho & Hclean
                   & Hh & Hfp)].
  - rewrite Forall_forall in Hnone. by specialize (Hnone _ Hin).
  - assert (Hhs : hs = whitelisted h).
    { rewrite Hcalls in Hin.
      apply elem_of_cons in Hin as [?|Hin]; [done|].
      apply elem_of_app in Hin as [Hin|Hin].
      - rewrite Forall_forall in Hpre. by specialize (Hpre _ Hin).
      - rewrite !elem_of_cons in Hin.
        destruct Hin as [?|[?|[?|Hin]]]; try done; [congruence|].
        by apply elem_of_nil in Hin. }
    subst hs. split; [reflexivity|].
    exists k, o, h. repeat (split; [done|]).
    intros headerKey v. unfold whitelisted, headerWhitelist. simpl.
    rewrite !elem_of_cons.
    intros [?|[?|[?|Hnil]]]; try congruence.
    by apply elem_of_nil in Hnil.
Qed.

Lemma pipeline_calls_execution domain mediaId file opts :
  preserves (calls_only is_pipeline_call)
    (_generateReport domain mediaId file opts).
Proof.
  unfold _generateReport.
  destruct (baseUrl opts), (tempDirectory opts), (script opts);
    try apply preserves_throw; try apply _.
  apply preserves_bind; [apply _|apply preserves_lift; apply _|]. intros dm.
  apply preserves_bind; [apply _| |].
  { apply preserves_try_catch; [apply _| |].
    - intros w. unfold call_get.
      destruct (request_get _ _ _); by eapply calls_only_one.
    - intros e. destruct (negb _); apply preserves_throw; apply _. }
  intros h.
  apply preserves_bind; [apply _|apply pipeline_calls_generateResult|].
  intros l.
  apply preserves_bind; [apply _|intros w; by apply calls_only_same_trace|].
  intros _.
  apply preserves_bind; [apply _|intros w; by apply calls_only_same_trace|].
  intros _. apply preserves_ret; apply _.
Qed.

Lemma pipeline_calls_generateReport_ongoing ongoing domain mediaId file opts :
  executions_of_pipeline ongoing ->
  preserves (calls_only is_pipeline_call)
    (generateReport_ongoing ongoing domain mediaId file opts).
Proof.
  intros Hpipe w.
  unfold generateReport_ongoing, deduplicatePromises_ongoing, uncurry4, bind,
    lift.
  destruct (getInputHash domain mediaId file opts) as [k|e]; [|reflexivity].
  destruct (ongoing !! k) as [execution|] eqn:Hk.
  - by eapply Hpipe.
  - apply pipeline_calls_execution.
Qed.

(** The run of a [scannedDownload] that sends a file. *)
Lemma scannedDownload_ongoing_sent ongoing domain mediaId file opts w p :
  executions_of_pipeline ongoing ->
  EvSendFile p
    ∈ calls_between w
        (snd (scannedDownload_ongoing ongoing domain mediaId file opts w)) ->
  exists suffix l o h w1,
    mkdtemp (length (trace w))
      (template (tempDirectory opts) +:+ path_sep +:+ "av-") = inl suffix
    /\ generateReport_ongoing ongoing domain mediaId file
         {| baseUrl := baseUrl opts;
            tempDirectory :=
              Some ((template (tempDirectory opts) +:+ path_sep +:+ "av-")
                      +:+ suffix);
            script := script opts |}
         (after_mkdtemp w
            (template (tempDirectory opts) +:+ path_sep +:+ "av-")
            ((template (tempDirectory opts) +:+ path_sep +:+ "av-")
               +:+ suffix))
       = (Ok l, w1)
    /\ heap w1 !! l = Some o
    /\ clean o = true
    /\ headers o = Some h
    /\ filePath o = p
    /\ calls_between w
         (snd (scannedDownload_ongoing ongoing domain mediaId file opts w))
       = EvMkdtemp (template (tempDirectory opts) +:+ path_sep +:+ "av-")
           :: calls_between
                (after_mkdtemp w
                   (template (tempDirectory opts) +:+ path_sep +:+ "av-")
                   ((template (tempDirectory opts) +:+ path_sep +:+ "av-")
                      +:+ suffix)) w1
           ++ [EvSet (whitelisted h); EvSendFile p;
               EvRimraf ((template (tempDirectory opts) +:+ path_sep +:+ "av-")
                           +:+ suffix)]
    /\ Forall (fun ev => is_pipeline_call ev = true)
         (calls_between
            (after_mkdtemp w
               (template (tempDirectory opts) +:+ path_sep +:+ "av-")
               ((template (tempDirectory opts) +:+ path_sep +:+ "av-")
                  +:+ suffix)) w1).
Proof.
  intros Hpipe.
  set (prefix := template (tempDirectory opts) +:+ path_sep +:+ "av-").
  destruct (mkdtemp (length (trace w)) prefix) as [suffix|e] eqn:Hmk.
  2:{ unfold scannedDownload_ongoing, withTempDir, bind, call_mkdtemp.
      fold prefix. rewrite Hmk. simpl.
      rewrite (calls_between_app w _ [EvMkdtemp prefix]) by done.
      by intros [=]%list_elem_of_singleton. }
  unfold scannedDownload_ongoing. rewrite (withTempDir_run _ _ _ _ Hmk).
  fold prefix.
  set (dir := prefix +:+ suffix).
  set (opts' := {| baseUrl := baseUrl opts; tempDirectory := Some dir;
                   script := script opts |}).
  set (w0 := after_mkdtemp w prefix dir).
  destruct (calls_only_between _ _ _
              (pipeline_calls_generateReport_ongoing ongoing domain mediaId
                 file opts' Hpipe w0)) as [Htr1 Hpre].
  unfold try_finally, bind.
  destruct (generateReport_ongoing ongoing domain mediaId file opts' w0)
    as [r w1] eqn:Hrun.
  simpl in Htr1, Hpre. set (pre := calls_between w0 w1) in *.
  assert (Hquiet : forall (e0 : exn) wb,
    trace wb = trace w1 ->
    EvSendFile p
      ∈ calls_between w
          (snd (match call_rimraf dir wb with
                | (Ok _, w'') => (Throw e0 : outcome unit, w'')
                | (Throw e, w'') => (Throw e, w'')
                end)) -> False).
  { intros e0 wb Hwb. unfold call_rimraf.
    destruct (rimraf _ _); simpl;
      (rewrite (calls_between_app w _ (EvMkdtemp prefix :: pre ++ [EvRimraf dir]));
       [|simpl; rewrite Hwb, Htr1; simpl; by rewrite <- !app_assoc]);
      (intros [?|Hin]%elem_of_cons; [done|]);
      (apply elem_of_app in Hin as [Hin|Hin];
       [rewrite Forall_forall in Hpre; by specialize (Hpre _ Hin)
       |by apply list_elem_of_singleton in Hin]). }
  destruct r as [l|e]; [|intros Hin; by destruct (Hquiet _ _ eq_refl Hin)].
  unfold deref. destruct (heap w1 !! l) as [o|] eqn:Ho;
    [|intros Hin; by destruct (Hquiet _ _ eq_refl Hin)].
  destruct (clean o) eqn:Hclean; simpl;
    [|intros Hin; by destruct (Hquiet _ _ eq_refl Hin)].
  destruct (headers o) as [h|] eqn:Hh;
    [|intros Hin; by destruct (Hquiet _ _ eq_refl Hin)].
  unfold log_event, call_rimraf. simpl.
  assert (Hcalls : forall w',
    trace w' = ((trace w1 ++ [EvSet (whitelisted h)])
                  ++ [EvSendFile (filePath o)]) ++ [EvRimraf dir] ->
    calls_between w w'
    = EvMkdtemp prefix
        :: pre ++ [EvSet (whitelisted h); EvSendFile (filePath o);
                   EvRimraf dir]).
  { intros w' Hw'. apply calls_between_app. rewrite Hw', Htr1. simpl.
    by rewrite <- !app_assoc. }
  assert (Hp : forall w',
    trace w' = ((trace w1 ++ [EvSet (whitelisted h)])
                  ++ [EvSendFile (filePath o)]) ++ [EvRimraf dir] ->
    EvSendFile p ∈ calls_between w w' -> filePath o = p).
  { intros w' Hw'. rewrite (Hcalls _ Hw').
    intros [?|Hin]%elem_of_cons; [done|].
    apply elem_of_app in Hin as [Hin|Hin].
    - rewrite Forall_forall in Hpre. by specialize (Hpre _ Hin).
    - rewrite !elem_of_cons in Hin.
      destruct Hin as [?|[?|[?|Hin]]]; try done; [congruence|].
      by apply elem_of_nil in Hin. }
  destruct (rimraf _ _); simpl; intros Hin;
    match type of Hin with
    | _ ∈ calls_between _ ?w' =>
        pose proof (Hp w' eq_refl Hin) as <-;
        exists suffix, l, o, h, w1; rewrite (Hcalls w' eq_refl); done
    end.
Qed.

(** X3. The file is sent last, and the directory goes next.  The
    executions in flight make no other calls than the download, the
    decryption and the scan, as every execution of [_generateReport] does
    ([pipeline_calls_execution]).  When a [scannedDownload] calls
    [res.sendFile], it does so once, right after [res.set]; the one call
    that follows is the removal of the directory the call created, which is
    not held back until the file has been sent.  When the call found no
    execution in flight under its key, the file sent is [downloadedFile] of
    that directory.  When it joined an execution in flight, the file sent is
    the one named by the object that execution returned. *)
Theorem scannedDownload_send_then_removal
    (ongoing : registry loc)
    (domain mediaId : option string) (eventContentFile : jsval)
    (opts : options) (w : world) (p : option string) :
  wf_world w ->
  executions_of_pipeline ongoing ->
  EvSendFile p
    ∈ calls_between w
        (snd (scannedDownload_ongoing ongoing domain mediaId eventContentFile
                opts w)) ->
  exists suffix pre hs k,
    mkdtemp (length (trace w))
      (template (tempDirectory opts) +:+ path_sep +:+ "av-") = inl suffix
    /\ calls_between w
         (snd (scannedDownload_ongoing ongoing domain mediaId eventContentFile
                 opts w))
       = EvMkdtemp (template (tempDirectory opts) +:+ path_sep +:+ "av-")
           :: pre
           ++ [EvSet hs; EvSendFile p;
               EvRimraf ((template (tempDirectory opts) +:+ path_sep +:+ "av-")
                           +:+ suffix)]
    /\ Forall (fun ev => is_pipeline_call ev = true) pre
    /\ getInputHash domain mediaId eventContentFile opts = Ok k
    /\ (ongoing !! k = None ->
        p = Some (path_join
                    ((template (tempDirectory opts) +:+ path_sep +:+ "av-")
                       +:+ suffix) "downloadedFile"))
    /\ (forall execution : M loc,
          ongoing !! k = Some execution ->
          exists l o,
            fst (execution
                   (after_mkdtemp w
                      (template (tempDirectory opts) +:+ path_sep +:+ "av-")
                      ((template (tempDirectory opts) +:+ path_sep +:+ "av-")
                         +:+ suffix)))
            = Ok l
            /\ heap (snd (execution
                            (after_mkdtemp w
                               (template (tempDirectory opts) +:+ path_sep
                                  +:+ "av-")
                               ((template (tempDirectory opts) +:+ path_sep
                                   +:+ "av-") +:+ suffix)))) !! l
               = Some o
            /\ filePath o = p).
Proof.
  intros Hwf Hpipe Hin.
  destruct (scannedDownload_ongoing_sent _ _ _ _ _ _ _ Hpipe Hin)
    as (suffix & l & o & h & w1 & Hmk & Hrun & Ho & Hclean & Hh & Hfp & Hcalls
        & Hpre).
  set (prefix := template (tempDirectory opts) +:+ path_sep +:+ "av-") in *.
  set (dir := prefix +:+ suffix) in *.
  set (opts' := {| baseUrl := baseUrl opts; tempDirectory := Some dir;
                   script := script opts |}) in *.
  set (w0 := after_mkdtemp w prefix dir) in *.
  assert (Hkey : getInputHash domain mediaId eventContentFile opts'
                 = getInputHash domain mediaId eventContentFile opts)
    by (by apply getInputHash_baseUrl).
  destruct (getInputHash domain mediaId eventContentFile opts) as [k|e] eqn:Hk.
  2:{ by rewrite (generateReport_ongoing_throw _ _ _ _ _ e) in Hrun. }
  exists suffix, (calls_between w0 w1), (whitelisted h), k.
  repeat (split; [done|]). split.
  - intros Hfree.
    rewrite (generateReport_ongoing_free _ _ _ _ _ k) in Hrun by done.
    assert (Hwf0 : wf_world w0) by (by apply (keeps_wf_same_store w w0)).
    destruct (generateReport_ok_inv _ _ _ _ _ _ _ Hwf0 Hrun)
      as (b & t & s & dm & h' & o' & _ & Ht & _ & _ & _ & _ & Ho' & Hfp' & _).
    simpl in Ht. injection Ht as <-.
    rewrite Ho in Ho'. injection Ho' as <-. by rewrite <- Hfp.
  - intros execution Hjoin.
    rewrite (generateReport_ongoing_joined _ _ _ _ _ k execution) in Hrun
      by done.
    exists l, o.
    change (fst (execution w0) = Ok l
            /\ heap (snd (execution w0)) !! l = Some o /\ filePath o = p).
    by rewrite Hrun.
Qed.

(** X4. [scannedDownload] fulfils only when the file has been handed to the
    response: a run that ends without an exception called [res.set] and
    [res.sendFile], on a file whose cached verdict is clean. *)
Theorem scannedDownload_ok_sent
    (domain mediaId : option string) (eventContentFile : jsval)
    (opts : options) (w w' : world) :
  wf_world w ->
  scannedDownload domain mediaId eventContentFile opts w = (Ok tt, w') ->
  exists k o h,
    getInputHash domain mediaId eventContentFile opts = Ok k
    /\ cache_entry w' k = Some o
    /\ clean o = true
    /\ headers o = Some h
    /\ EvSet (whitelisted h) ∈ calls_between w w'
    /\ EvSendFile (filePath o) ∈ calls_between w w'.
Proof.
  intros Hwf Hrun.
  destruct (scannedDownload_delivery domain mediaId eventContentFile opts w Hwf)
    as [[Hne _]|(dir & pre & k & o & h & Hout & Hcalls & Hpre & Hk & Ho & Hclean
                 & Hh & Hfp)];
    rewrite Hrun in *; simpl in *; [done|].
  exists k, o, h. repeat (split; [done|]).
  rewrite Hcalls, Hfp.
  split; apply elem_of_cons; right; apply elem_of_app; right;
    rewrite !elem_of_cons; auto.
Qed.

(** X5. A run of [scannedDownload] leaves no directory behind: when the
    directory it creates is new and its removal succeeds, the directories
    are afterwards what they were before, whether the run sent the file or
    ended with an exception. *)
Theorem scannedDownload_restores_dirs
    (domain mediaId : option string) (eventContentFile : jsval)
    (opts : options) (w : world) (suffix : string) :
  mkdtemp (length (trace w)) (template (tempDirectory opts) +:+ path_sep +:+ "av-")
    = inl suffix ->
  (template (tempDirectory opts) +:+ path_sep +:+ "av-") +:+ suffix ∉ dirs w ->
  (forall t, rimraf t ((template (tempDirectory opts) +:+ path_sep +:+ "av-")
                         +:+ suffix) = None) ->
  dirs (snd (scannedDownload domain mediaId eventContentFile opts w)) = dirs w.
Proof.
  intros Hmk Hfresh Hrm.
  unfold scannedDownload. rewrite (withTempDir_run _ _ _ _ Hmk).
  set (prefix := template (tempDirectory opts) +:+ path_sep +:+ "av-") in *.
  set (dir := prefix +:+ suffix) in *.
  set (opts' := {| baseUrl := baseUrl opts; tempDirectory := Some dir;
                   script := script opts |}).
  set (w0 := after_mkdtemp w prefix dir).
  assert (Hback : forall (rb : outcome unit) wb, dirs wb = dirs w0 ->
            dirs (snd (let (o0, w'') := call_rimraf dir wb in
                       match o0 with
                       | Ok _ => (rb, w'')
                       | Throw e => (Throw e, w'')
                       end)) = dirs w).
  { intros rb wb Hwb. unfold call_rimraf. rewrite Hrm. simpl.
    rewrite Hwb. simpl.
    apply set_eq. intros x.
    rewrite elem_of_difference, elem_of_union, elem_of_singleton.
    split; [by intros [[?|?] ?]|].
    intros Hx. split; [by left|]. by intros ->. }
  pose proof (same_dirs_generateReport domain mediaId eventContentFile opts' w0)
    as Hsame.
  unfold same_dirs in Hsame.
  unfold try_finally, bind.
  destruct (generateReport domain mediaId eventContentFile opts' w0)
    as [[l|e] w1]; simpl in Hsame; [|by apply Hback].
  unfold deref. destruct (heap w1 !! l) as [o|]; [|by apply Hback].
  destruct (clean o); simpl; [|by apply Hback].
  destruct (headers o) as [h|]; [|by apply Hback].
  unfold log_event. by apply Hback.
Qed.

(** X6. When the directory cannot be created, [withTempDir] ends with the
    error of the creation: the wrapped function is not run and no removal
    is attempted, so that the creation is the only call made. *)
Theorem withTempDir_mkdtemp_failure {A : Type}
    (asyncFn : options -> M A) (opts : options) (w : world) (e : error_object) :
  mkdtemp (length (trace w)) (template (tempDirectory opts) +:+ path_sep +:+ "av-")
    = inr e ->
  withTempDir asyncFn opts w
  = (Throw (Thrown e),
     logged (EvMkdtemp (template (tempDirectory opts) +:+ path_sep +:+ "av-")) w).
Proof.
  intros Hmk. unfold withTempDir, bind, call_mkdtemp. by rewrite Hmk.
Qed.

(** X7. A cached verdict spares the decryption and the scan, not the
    download: when the cache holds an object under the key of the request,
    [generateReport] still downloads the file, makes no other call, returns
    the cached object and leaves the cache as it is, also for a descriptor
    with a key. *)
Theorem generateReport_cache_hit_calls
    (domain mediaId : option string) (eventContentFile : jsval)
    (opts : options) (b t s : string) (dm : option string * option string)
    (h : option (gmap string string)) (l : loc) (w : world) :
  baseUrl opts = Some b -> tempDirectory opts = Some t -> script opts = Some s ->
  media_of domain mediaId eventContentFile = Ok dm ->
  request_get (length (trace w)) (generateHttpUrl (Some b) (fst dm) (snd dm))
    (path_join t "downloadedFile") = inl h ->
  resultCache w !! generateResultHash
                     (generateHttpUrl (Some b) (fst dm) (snd dm))
                     eventContentFile = Some l ->
  exists w',
    generateReport domain mediaId eventContentFile opts w = (Ok l, w')
    /\ trace w' = trace w ++ [EvGet (generateHttpUrl (Some b) (fst dm) (snd dm))
                                (path_join t "downloadedFile")]
    /\ resultCache w' = resultCache w
    /\ length (heap w') = length (heap w)
    /\ dirs w' = dirs w.
Proof.
  intros Hb Ht Hs Hdm Hget Hc.
  unfold generateReport, deduplicatePromises, uncurry4, bind, lift.
  unfold getInputHash. rewrite Hdm.
  rewrite (_generateReport_run _ _ _ _ b t s dm w Hb Ht Hs Hdm), Hget.
  rewrite (generateResult_hit _ _ _ _ _ _ l) by done.
  eexists. split; [reflexivity|]. simpl.
  repeat (split; [done|]). split; [|done].
  by rewrite !length_alter.
Qed.

(** *** A scan that fails *)

Lemma exec_rejected_inv e w w' :
  exec_rejected e w w' ->
  exists j cmd,
    drop (length (trace w)) (trace w') !! j = Some (EvExec cmd)
    /\ executeCommand (length (trace w) + j) cmd = inr e.
Proof.
  intros (i & cmd & Hle & Hev & Hex).
  exists (i - length (trace w)), cmd.
  rewrite lookup_drop.
  by replace (length (trace w) + (i - length (trace w))) with i by lia.
Qed.

Ltac execs_of_run H :=
  apply exec_rejected_inv in H; simpl in H;
  rewrite <- ?app_assoc in H; simpl in H;
  rewrite ?drop_app_length, ?drop_all in H.

Ltac no_exec_rejected H :=
  execs_of_run H;
  let j := fresh "j" in
  destruct H as (j & ? & ? & ?);
  repeat (destruct j as [|j]; try discriminate).

(** X8. When the scanner is run in a [generateReport] and fails with the
    error [e]: the run ends with [e] itself, the cache and the result
    objects are what they were, and [getReport] with the same arguments then
    answers [{scanned: false}]. *)
Theorem scan_failure_not_cached
    (domain mediaId : option string) (eventContentFile : jsval)
    (opts : options) (w w' : world) (r : outcome loc) (e : error_object) :
  generateReport domain mediaId eventContentFile opts w = (r, w') ->
  exec_rejected e w w' ->
  r = Throw (Thrown e)
  /\ resultCache w' = resultCache w
  /\ heap w' = heap w
  /\ getReport domain mediaId eventContentFile opts w'
     = (Ok {| scanned := false; report_clean := None; report_info := None |}, w').
Proof.
  intros Hrun Hrej.
  unfold generateReport, deduplicatePromises, uncurry4, bind, lift in Hrun.
  destruct (getInputHash domain mediaId eventContentFile opts) as [k|e0] eqn:Hk.
  2:{ injection Hrun as <- <-. no_exec_rejected Hrej. }
  destruct (getInputHash_media _ _ _ _ _ Hk) as (dm & Hdm & Hkey).
  assert (Hnoconf : (Throw config_error, w) = (r, w') -> False).
  { intros [= <- <-]. no_exec_rejected Hrej. }
  destruct (baseUrl opts) as [b|] eqn:Hb;
    [|rewrite _generateReport_config_error in Hrun by auto; by destruct Hnoconf].
  destruct (tempDirectory opts) as [t|] eqn:Ht;
    [|rewrite _generateReport_config_error in Hrun by auto; by destruct Hnoconf].
  destruct (script opts) as [s|] eqn:Hs;
    [|rewrite _generateReport_config_error in Hrun by auto; by destruct Hnoconf].
  clear Hnoconf.
  rewrite (_generateReport_run _ _ _ _ b t s dm w Hb Ht Hs Hdm) in Hrun.
  set (url := generateHttpUrl (Some b) (fst dm) (snd dm)) in *.
  set (fp := path_join t "downloadedFile") in *.
  destruct (request_get _ _ _) as [h|e0].
  2:{ injection Hrun as <- <-. no_exec_rejected Hrej. }
  destruct (resultCache w !! k) as [l|] eqn:Hc.
  { rewrite (generateResult_hit _ _ _ _ _ _ l) in Hrun by (by rewrite <- Hkey).
    injection Hrun as <- <-. no_exec_rejected Hrej. }
  rewrite generateResult_miss in Hrun by (by rewrite <- Hkey).
  rewrite !scan_and_store_run in Hrun.
  set (dp := path_join t "unsafeDownloadedDecryptedFile") in *.
  assert (Hdone : forall cmd n evs,
    trace w' = trace w ++ evs ->
    evs !! n = Some (EvExec cmd) ->
    (forall j c, evs !! j = Some (EvExec c) -> j = n) ->
    forall x, executeCommand (length (trace w) + n) cmd = x ->
    match x with
    | inl _ => False
    | inr e0 => e0 = e
    end).
  { intros cmd n evs Htr Hn Hone x Hx.
    apply exec_rejected_inv in Hrej as (j & c & Hj & Hex).
    rewrite Htr, drop_app_length in Hj.
    pose proof (Hone _ _ Hj) as ->.
    rewrite Hn in Hj. injection Hj as <-.
    rewrite Hex in Hx. subst x. done. }
  assert (Hfin : forall e0 w1,
    (Throw (Thrown e0), w1) = (r, w') ->
    e0 = e -> resultCache w1 = resultCache w -> heap w1 = heap w ->
    r = Throw (Thrown e)
    /\ resultCache w' = resultCache w
    /\ heap w' = heap w
    /\ getReport domain mediaId eventContentFile opts w'
       = (Ok {| scanned := false; report_clean := None; report_info := None |},
          w')).
  { intros e0 w1 [= <- <-] -> Hc1 Hh1.
    repeat (split; [done|]).
    eapply getReport_miss; [exact Hk|]. by rewrite Hc1. }
  destruct (truthy eventContentFile && truthy (get_prop eventContentFile "key"))
    eqn:Henc.
  - destruct (decryptFile _ _ _ _) as [e0|].
    { injection Hrun as <- <-. no_exec_rejected Hrej. }
    simpl in Hrun.
    destruct (executeCommand _ _) as [v|e0] eqn:Hex.
    + exfalso. injection Hrun as <- <-.
      refine (Hdone (s +:+ " " +:+ dp) 2
                [EvGet url fp; EvDecrypt fp dp eventContentFile;
                 EvExec (s +:+ " " +:+ dp)] _ eq_refl _ (inl v) _).
      * simpl. by rewrite <- !app_assoc.
      * intros [|[|[|]]] c; by intros [=].
      * rewrite <- Hex. f_equal. simpl. rewrite !length_app. simpl. lia.
    + eapply Hfin; [exact Hrun| |done|done].
      injection Hrun as <- <-.
      refine (Hdone (s +:+ " " +:+ dp) 2
                [EvGet url fp; EvDecrypt fp dp eventContentFile;
                 EvExec (s +:+ " " +:+ dp)] _ eq_refl _ (inr e0) _).
      * simpl. by rewrite <- !app_assoc.
      * intros [|[|[|]]] c; by intros [=].
      * rewrite <- Hex. f_equal. simpl. rewrite !length_app. simpl. lia.
  - simpl in Hrun.
    destruct (executeCommand _ _) as [v|e0] eqn:Hex.
    + exfalso. injection Hrun as <- <-.
      refine (Hdone (s +:+ " " +:+ fp) 1
                [EvGet url fp; EvExec (s +:+ " " +:+ fp)] _ eq_refl _ (inl v) _).
      * simpl. by rewrite <- !app_assoc.
      * intros [|[|]] c; by intros [=].
      * rewrite <- Hex. f_equal. simpl. rewrite !length_app. simpl. lia.
    + eapply Hfin; [exact Hrun| |done|done].
      injection Hrun as <- <-.
      refine (Hdone (s +:+ " " +:+ fp) 1
                [EvGet url fp; EvExec (s +:+ " " +:+ fp)] _ eq_refl _ (inr e0) _).
      * simpl. by rewrite <- !app_assoc.
      * intros [|[|]] c; by intros [=].
      * rewrite <- Hex. f_equal. simpl. rewrite !length_app. simpl. lia.
Qed.

(** X9. With a descriptor that has a key, the scanner gets the decrypted
    file and the response the downloaded one: when the download succeeds,
    nothing is cached under the key of the request and the decryption
    succeeds, the calls of [generateReport] are the download, the decryption
    of the download into [unsafeDownloadedDecryptedFile], and the scanner on
    that decrypted file; and the object a successful run returns names the
    download, not the decrypted file, as its [filePath]. *)
Theorem encrypted_scan_calls
    (domain mediaId : option string) (eventContentFile : jsval)
    (opts : options) (b t s : string) (dm : option string * option string)
    (h : option (gmap string string)) (w : world) :
  truthy (get_prop eventContentFile "key") = true ->
  baseUrl opts = Some b -> tempDirectory opts = Some t -> script opts = Some s ->
  media_of domain mediaId eventContentFile = Ok dm ->
  request_get (length (trace w)) (generateHttpUrl (Some b) (fst dm) (snd dm))
    (path_join t "downloadedFile") = inl h ->
  resultCache w !! generateResultHash
                     (generateHttpUrl (Some b) (fst dm) (snd dm))
                     eventContentFile = None ->
  decryptFile (S (length (trace w))) (path_join t "downloadedFile")
    (path_join t "unsafeDownloadedDecryptedFile") eventContentFile = None ->
  trace (snd (generateReport domain mediaId eventContentFile opts w))
  = trace w
      ++ [EvGet (generateHttpUrl (Some b) (fst dm) (snd dm))
            (path_join t "downloadedFile");
          EvDecrypt (path_join t "downloadedFile")
            (path_join t "unsafeDownloadedDecryptedFile") eventContentFile;
          EvExec (s +:+ " " +:+ path_join t "unsafeDownloadedDecryptedFile")]
  /\ forall l,
      fst (generateReport domain mediaId eventContentFile opts w) = Ok l ->
      exists o,
        heap (snd (generateReport domain mediaId eventContentFile opts w)) !! l
        = Some o
        /\ filePath o = Some (path_join t "downloadedFile").
Proof.
  intros Hkey Hb Ht Hs Hdm Hget Hc Hdec.
  assert (Hfile : truthy eventContentFile = true).
  { by destruct eventContentFile. }
  unfold generateReport, deduplicatePromises, uncurry4, bind, lift.
  unfold getInputHash. rewrite Hdm.
  rewrite (_generateReport_run _ _ _ _ b t s dm w Hb Ht Hs Hdm), Hget.
  rewrite generateResult_miss by done.
  rewrite Hfile, Hkey. simpl.
  rewrite length_app. simpl. rewrite Nat.add_1_r, Hdec.
  rewrite scan_and_store_run.
  destruct (executeCommand _ _) as [v|e]; simpl.
  - split; [by rewrite <- !app_assoc|].
    intros l [= <-].
    rewrite !list_lookup_alter, !decide_True by done.
    rewrite lookup_app_r, Nat.sub_diag by done. simpl. by eexists.
  - split; [by rewrite <- !app_assoc|]. by intros l [=].
Qed.

(** X10. A descriptor whose [url] is not a string is refused before
    anything else happens: for a truthy descriptor without a string under
    [url], the key derivation, [getReport] and [generateReport] all end
    with a [TypeError], and leave the world untouched; [generateReport]
    does so before it looks at the options. *)
Theorem malformed_descriptor_type_error
    (domain mediaId : option string) (eventContentFile : jsval)
    (opts : options) (w : world) :
  truthy eventContentFile = true ->
  (forall url, get_prop eventContentFile "url" <> JStr url) ->
  getInputHash domain mediaId eventContentFile opts = Throw TypeError
  /\ getReport domain mediaId eventContentFile opts w = (Throw TypeError, w)
  /\ generateReport domain mediaId eventContentFile opts w = (Throw TypeError, w).
Proof.
  intros Hfile Hurl.
  assert (Hdm : media_of domain mediaId eventContentFile = Throw TypeError).
  { unfold media_of. rewrite Hfile.
    destruct (get_prop eventContentFile "url") eqn:Hu; try done.
    by destruct (Hurl s). }
  assert (Hk : getInputHash domain mediaId eventContentFile opts = Throw TypeError).
  { unfold getInputHash. by rewrite Hdm. }
  split; [done|]. split.
  - unfold getReport, bind, lift. by rewrite Hdm.
  - unfold generateReport, deduplicatePromises, uncurry4, bind, lift.
    by rewrite Hk.
Qed.

Lemma media_of_descriptor domain mediaId domain' mediaId' file :
  truthy file = true ->
  media_of domain mediaId file = media_of domain' mediaId' file.
Proof. intros Hfile. unfold media_of. by rewrite Hfile. Qed.

(** X11. A descriptor overrides the media named by the arguments: with a
    truthy descriptor, the key, the report looked up, the report generated
    and the download do not depend on the [domain] and [mediaId] passed. *)
Theorem descriptor_overrides_arguments
    (domain mediaId domain' mediaId' : option string)
    (eventContentFile : jsval) (opts : options) (w : world) :
  truthy eventContentFile = true ->
  getInputHash domain mediaId eventContentFile opts
  = getInputHash domain' mediaId' eventContentFile opts
  /\ getReport domain mediaId eventContentFile opts w
     = getReport domain' mediaId' eventContentFile opts w
  /\ generateReport domain mediaId eventContentFile opts w
     = generateReport domain' mediaId' eventContentFile opts w
  /\ scannedDownload domain mediaId eventContentFile opts w
     = scannedDownload domain' mediaId' eventContentFile opts w.
Proof.
  intros Hfile.
  pose proof (media_of_descriptor domain mediaId domain' mediaId'
                eventContentFile Hfile) as Hdm.
  assert (Hgen : forall o w0,
    generateReport domain mediaId eventContentFile o w0
    = generateReport domain' mediaId' eventContentFile o w0).
  { intros o w0.
    unfold generateReport, deduplicatePromises, uncurry4, getInputHash,
      _generateReport.
    by rewrite Hdm. }
  split; [unfold getInputHash; by rewrite Hdm|].
  split; [unfold getReport; by rewrite Hdm|].
  split; [done|].
  unfold scannedDownload, withTempDir, bind, try_finally.
  destruct (call_mkdtemp _ w) as [[tempDir|e] w0]; [|done].
  by rewrite Hgen.
Qed.

(** X12. [clearReportCache] forgets every verdict and nothing else: after
    it, [getReport] answers [{scanned: false}] for every request whose key
    can be derived, while the result objects, the directories and the
    trace of calls are what they were, and the world is still well
    formed. *)
Theorem clearReportCache_forgets
    (domain mediaId : option string) (eventContentFile : jsval)
    (opts : options) (k : string) (w : world) :
  getInputHash domain mediaId eventContentFile opts = Ok k ->
  getReport domain mediaId eventContentFile opts (snd (clearReportCache w))
  = (Ok {| scanned := false; report_clean := None; report_info := None |},
     snd (clearReportCache w))
  /\ heap (snd (clearReportCache w)) = heap w
  /\ dirs (snd (clearReportCache w)) = dirs w
  /\ trace (snd (clearReportCache w)) = trace w
  /\ wf_world (snd (clearReportCache w)).
Proof.
  intros Hk. split.
  - eapply getReport_miss; [exact Hk|]. simpl. apply lookup_empty.
  - repeat (split; [done|]). apply wf_world_clearReportCache.
Qed.

(** *** The media a descriptor names *)

#[local] Arguments String.append !s1 s2 / : simpl nomatch.

Lemma split_slash_nonempty (s : string) : split_slash s <> [].
Proof.
  destruct s as [|c s]; simpl; [done|].
  destruct (Ascii.eqb c "/"); [done|]. by destruct (split_slash s).
Qed.

Lemma split_slash_slash_free (s : string) :
  slash_free s = true -> split_slash s = [s].
Proof.
  induction s as [|c s IH]; simpl; [done|].
  intros [Hc Hs]%andb_prop. apply negb_true_iff in Hc.
  by rewrite Hc, (IH Hs).
Qed.

Lemma split_slash_app (p s : string) :
  split_slash (p +:+ "/" +:+ s) = split_slash p ++ split_slash s.
Proof.
  induction p as [|c p IH]; simpl in *; [done|].
  rewrite IH. destruct (Ascii.eqb c "/"); [done|].
  pose proof (split_slash_nonempty p). by destruct (split_slash p).
Qed.

Lemma split_slash_pieces (s : string) :
  Forall (fun piece => slash_free piece = true) (split_slash s).
Proof.
  induction s as [|c s IH]; simpl; [by repeat constructor|].
  destruct (Ascii.eqb c "/") eqn:Hc; [by constructor|].
  destruct (split_slash s) as [|x xs].
  { constructor; [simpl; by rewrite Hc|constructor]. }
  inversion IH as [|? ? Hx Hxs]; subst.
  constructor; [|done]. simpl. by rewrite Hc, Hx.
Qed.

Lemma slice_last2_app {A} (l : list A) (x y : A) :
  slice_last2 (l ++ [x; y]) = [x; y].
Proof.
  unfold slice_last2. rewrite length_app. simpl.
  replace (length l + 2 - 2) with (length l) by lia.
  by rewrite drop_app_length.
Qed.

Lemma slash_free_app_slash (a b : string) : slash_free (a +:+ "/" +:+ b) = false.
Proof.
  induction a as [|c a IH]; simpl in *; [done|].
  rewrite IH. apply andb_false_r.
Qed.

Lemma app_slash_inj (d d' m m' : string) :
  slash_free m = true -> slash_free m' = true ->
  d +:+ "/" +:+ m = d' +:+ "/" +:+ m' -> d = d' /\ m = m'.
Proof.
  intros Hm Hm'. revert d'.
  induction d as [|c d IH]; intros [|c' d']; simpl in *.
  - by intros [= ->].
  - intros [= <- ->].
    pose proof (slash_free_app_slash d' m') as Hs. simpl in Hs. congruence.
  - intros [= -> <-].
    pose proof (slash_free_app_slash d m) as Hs. simpl in Hs. congruence.
  - intros [= <- Heq]. destruct (IH _ Heq) as [-> ->]. done.
Qed.

#[local] Arguments String.append : simpl never.

(** X13. The media of a descriptor are the last two pieces of its [url]:
    for a [url] that ends in [/d/m], with no slash in [d] or in [m], the
    domain is [d] and the media id is [m], whatever comes before and
    whatever the arguments name; for a [url] without a slash the domain is
    the whole [url] and the media id is [undefined]; and in every case the
    two parts hold no slash. *)
Theorem media_of_descriptor_url
    (domain mediaId : option string) (eventContentFile : jsval)
    (url : string) :
  get_prop eventContentFile "url" = JStr url ->
  (forall p d m,
     url = p +:+ "/" +:+ d +:+ "/" +:+ m ->
     slash_free d = true -> slash_free m = true ->
     media_of domain mediaId eventContentFile = Ok (Some d, Some m))
  /\ (slash_free url = true ->
      media_of domain mediaId eventContentFile = Ok (Some url, None))
  /\ exists d m,
      media_of domain mediaId eventContentFile = Ok (Some d, m)
      /\ slash_free d = true
      /\ forall m', m = Some m' -> slash_free m' = true.
Proof.
  intros Hurl.
  assert (Hfile : truthy eventContentFile = true).
  { by destruct eventContentFile. }
  assert (Hdm : media_of domain mediaId eventContentFile
                = Ok (slice_last2 (split_slash url) !! 0,
                      slice_last2 (split_slash url) !! 1)).
  { unfold media_of. by rewrite Hfile, Hurl. }
  rewrite Hdm. split; [|split].
  - intros p d m -> Hd Hm.
    rewrite !split_slash_app, (split_slash_slash_free d Hd),
      (split_slash_slash_free m Hm).
    change ([d] ++ [m]) with [d; m]. by rewrite slice_last2_app.
  - intros Hfree. by rewrite (split_slash_slash_free url Hfree).
  - pose proof (split_slash_pieces url) as Hall.
    pose proof (split_slash_nonempty url) as Hne.
    assert (Hlast : Forall (fun piece => slash_free piece = true)
                      (slice_last2 (split_slash url))).
    { unfold slice_last2. by apply Forall_drop. }
    assert (Hlen : slice_last2 (split_slash url) <> []).
    { unfold slice_last2. intros Hnil.
      apply (f_equal length) in Hnil. rewrite length_drop in Hnil.
      destruct (split_slash url) as [|? [|? ?]]; simpl in *; try done; lia. }
    destruct (slice_last2 (split_slash url)) as [|d rest]; [done|].
    inversion Hlast as [|? ? Hd Hrest]; subst.
    exists d, (rest !! 0). split; [done|]. split; [done|].
    intros m' Hm'. destruct rest as [|m rest]; [done|].
    inversion Hrest; subst. by injection Hm' as <-.
Qed.

(** *** Keys of different URLs *)

Lemma hash_input_url (httpUrl : string) (file : jsval) :
  exists rest,
    hash_input httpUrl file
    = "{" +:+ QuoteJSONString "httpUrl" +:+ ":" +:+ QuoteJSONString httpUrl
        +:+ rest.
Proof.
  assert (Hcase : file = JUndefined \/ file <> JUndefined).
  { destruct file; auto. }
  destruct Hcase as [->|Hfile].
  - exists "}". apply hash_input_absent.
  - destruct (serialize_defined _ Hfile) as [s Hs].
    eexists. by apply hash_input_present.
Qed.

Lemma hash_input_url_inj (u1 u2 : string) (d1 d2 : jsval) :
  hash_input u1 d1 = hash_input u2 d2 -> u1 = u2.
Proof.
  destruct (hash_input_url u1 d1) as [r1 ->].
  destruct (hash_input_url u2 d2) as [r2 ->].
  intros Heq. do 3 apply (inj (String.append _)) in Heq.
  by apply QuoteJSONString_decode in Heq as [-> _].
Qed.

Lemma generateHttpUrl_inj (b d m d' m' : string) :
  slash_free m = true -> slash_free m' = true ->
  generateHttpUrl (Some b) (Some d) (Some m)
  = generateHttpUrl (Some b) (Some d') (Some m') ->
  d = d' /\ m = m'.
Proof.
  intros Hm Hm'. unfold generateHttpUrl. simpl. intros Heq.
  do 2 apply (inj (String.append _)) in Heq.
  by apply app_slash_inj.
Qed.

(** X14. Verdicts of two URLs are kept apart: for two different URLs,
    whatever the descriptors, the strings given to the digest differ, and
    so the keys differ unless the digest collides on these two strings. *)
Theorem result_key_separates_urls (u1 u2 : string) (d1 d2 : jsval) :
  u1 <> u2 ->
  hash_input u1 d1 <> hash_input u2 d2
  /\ (generateResultHash u1 d1 <> generateResultHash u2 d2
      \/ collision (hash_input u1 d1) (hash_input u2 d2)).
Proof.
  intros Hne.
  assert (Hin : hash_input u1 d1 <> hash_input u2 d2).
  { intros Heq. by apply Hne, (hash_input_url_inj _ _ d1 d2). }
  split; [done|]. unfold generateResultHash.
  by apply digest_differs_or_collision.
Qed.

(** X15. Two media of one homeserver have two download URLs, and so two
    keys: for media ids without a slash, [generateHttpUrl] with one
    [baseUrl] gives the same URL only for the same domain and media id; two
    requests without a truthy descriptor that name different media
    therefore get different keys, unless the digest collides on the two
    strings hashed. *)
Theorem media_key_distinguishes
    (opts : options) (b d m d' m' : string) (file file' : jsval) :
  baseUrl opts = Some b ->
  truthy file = false -> truthy file' = false ->
  slash_free m = true -> slash_free m' = true ->
  (d, m) <> (d', m') ->
  generateHttpUrl (Some b) (Some d) (Some m)
  <> generateHttpUrl (Some b) (Some d') (Some m')
  /\ getInputHash (Some d) (Some m) file opts
     = Ok (generateResultHash (generateHttpUrl (Some b) (Some d) (Some m)) file)
  /\ getInputHash (Some d') (Some m') file' opts
     = Ok (generateResultHash
             (generateHttpUrl (Some b) (Some d') (Some m')) file')
  /\ (generateResultHash (generateHttpUrl (Some b) (Some d) (Some m)) file
      <> generateResultHash
           (generateHttpUrl (Some b) (Some d') (Some m')) file'
      \/ collision
           (hash_input (generateHttpUrl (Some b) (Some d) (Some m)) file)
           (hash_input (generateHttpUrl (Some b) (Some d') (Some m')) file')).
Proof.
  intros Hb Hf Hf' Hm Hm' Hne.
  assert (Hurl : generateHttpUrl (Some b) (Some d) (Some m)
                 <> generateHttpUrl (Some b) (Some d') (Some m')).
  { intros Heq. destruct (generateHttpUrl_inj _ _ _ _ _ Hm Hm' Heq) as [-> ->].
    done. }
  split; [done|].
  unfold getInputHash, media_of. rewrite Hf, Hf', Hb. simpl.
  repeat (split; [done|]).
  unfold generateResultHash. apply digest_differs_or_collision.
  intros Heq. by apply Hurl, (hash_input_url_inj _ _ file file').
Qed.

(** *** The exceptions of [generateReport] *)

Lemma getInputHash_throw domain mediaId file opts e :
  getInputHash domain mediaId file opts = Throw e -> e = TypeError.
Proof.
  unfold getInputHash, media_of.
  destruct (truthy file); [|done].
  destruct (get_prop file "url"); by intros [= <-].
Qed.

Lemma generateReport_throw_inv domain mediaId file opts w e w' :
  generateReport domain mediaId file opts w = (Throw e, w') ->
  resultCache w' = resultCache w /\ heap w' = heap w /\ dirs w' = dirs w
  /\ ((e = TypeError /\ w' = w)
      \/ (e = config_error /\ w' = w)
      \/ (exists err url path,
            trace w' = trace w ++ [EvGet url path]
            /\ request_get (length (trace w)) url path = inr err
            /\ e = if truthy (err_statusCode err)
                   then ClientError 502 "Failed to get requested URL"
                   else Thrown err)
      \/ (e = ClientError 400 "Failed to decrypt file" /\ decrypt_threw w w')
      \/ (exists err, e = Thrown err /\ exec_rejected err w w')).
Proof.
  intros Hrun.
  unfold generateReport, deduplicatePromises, uncurry4, bind, lift in Hrun.
  destruct (getInputHash domain mediaId file opts) as [k|e0] eqn:Hk.
  2:{ injection Hrun as <- <-. apply getInputHash_throw in Hk as ->.
      repeat (split; [done|]). by left. }
  destruct (getInputHash_media _ _ _ _ _ Hk) as (dm & Hdm & Hkey).
  assert (Hconf : (Throw config_error : outcome loc, w) = (Throw e, w') ->
            resultCache w' = resultCache w /\ heap w' = heap w
            /\ dirs w' = dirs w
            /\ ((e = TypeError /\ w' = w)
                \/ (e = config_error /\ w' = w)
                \/ (exists err url path,
                      trace w' = trace w ++ [EvGet url path]
                      /\ request_get (length (trace w)) url path = inr err
                      /\ e = if truthy (err_statusCode err)
                             then ClientError 502 "Failed to get requested URL"
                             else Thrown err)
                \/ (e = ClientError 400 "Failed to decrypt file"
                    /\ decrypt_threw w w')
                \/ (exists err, e = Thrown err /\ exec_rejected err w w'))).
  { intros [= <- <-]. repeat (split; [done|]). right. by left. }
  destruct (baseUrl opts) as [b|] eqn:Hb;
    [|rewrite _generateReport_config_error in Hrun by auto; by apply Hconf].
  destruct (tempDirectory opts) as [t|] eqn:Ht;
    [|rewrite _generateReport_config_error in Hrun by auto; by apply Hconf].
  destruct (script opts) as [s|] eqn:Hs;
    [|rewrite _generateReport_config_error in Hrun by auto; by apply Hconf].
  clear Hconf.
  rewrite (_generateReport_run _ _ _ _ b t s dm w Hb Ht Hs Hdm) in Hrun.
  set (url := generateHttpUrl (Some b) (fst dm) (snd dm)) in *.
  set (fp := path_join t "downloadedFile") in *.
  destruct (request_get _ _ _) as [h|err] eqn:Hget.
  2:{ injection Hrun as <- <-. repeat (split; [done|]).
      right. right. left. by exists err, url, fp. }
  destruct (resultCache w !! k) as [l|] eqn:Hc.
  { by rewrite (generateResult_hit _ _ _ _ _ _ l) in Hrun by (by rewrite <- Hkey). }
  rewrite generateResult_miss in Hrun by (by rewrite <- Hkey).
  rewrite !scan_and_store_run in Hrun.
  set (dp := path_join t "unsafeDownloadedDecryptedFile") in *.
  destruct (truthy file && truthy (get_prop file "key")).
  - destruct (decryptFile _ _ _ _) as [e0|] eqn:Hdec.
    + injection Hrun as <- <-. repeat (split; [done|]).
      right. right. right. left. split; [done|].
      exists (length (trace w ++ [EvGet url fp])), fp, dp, file, e0.
      split; [rewrite length_app; lia|].
      split; [by apply list_lookup_middle|done].
    + simpl in Hrun. destruct (executeCommand _ _) as [v|e0] eqn:Hex; [done|].
      injection Hrun as <- <-. repeat (split; [done|]).
      right. right. right. right. exists e0. split; [done|].
      exists (length ((trace w ++ [EvGet url fp])
                        ++ [EvDecrypt fp dp file])), (s +:+ " " +:+ dp).
      split; [rewrite !length_app; lia|].
      split; [by apply list_lookup_middle|done].
  - simpl in Hrun. destruct (executeCommand _ _) as [v|e0] eqn:Hex; [done|].
    injection Hrun as <- <-. repeat (split; [done|]).
    right. right. right. right. exists e0. split; [done|].
    exists (length (trace w ++ [EvGet url fp])), (s +:+ " " +:+ fp).
    split; [rewrite !length_app; lia|].
    split; [by apply list_lookup_middle|done].
Qed.

(** X16. What [generateReport] can throw, and that it then caches nothing.
    A run that ends with an exception leaves the cache, the result objects
    and the directories as they were, and the exception is one of: a
    [TypeError] or the configuration error, with nothing done; after a
    download that failed with [err], a client error 502 when
    [err.statusCode] is truthy and [err] itself otherwise, the download
    being the only call; a client error 400 after a decryption that threw;
    the error of a scanner run that failed. *)
Theorem generateReport_failure_classified
    (domain mediaId : option string) (eventContentFile : jsval)
    (opts : options) (w w' : world) (e : exn) :
  generateReport domain mediaId eventContentFile opts w = (Throw e, w') ->
  resultCache w' = resultCache w /\ heap w' = heap w /\ dirs w' = dirs w
  /\ ((e = TypeError /\ w' = w)
      \/ (e = config_error /\ w' = w)
      \/ (exists err url path,
            trace w' = trace w ++ [EvGet url path]
            /\ request_get (length (trace w)) url path = inr err
            /\ e = if truthy (err_statusCode err)
                   then ClientError 502 "Failed to get requested URL"
                   else Thrown err)
      \/ (e = ClientError 400 "Failed to decrypt file" /\ decrypt_threw w w')
      \/ (exists err, e = Thrown err /\ exec_rejected err w w')).
Proof. apply generateReport_throw_inv. Qed.

(** X17. A client error 403 means an unclean verdict: when
    [scannedDownload] ends with a client error 403, the cache holds, under
    the key of the request, a verdict that is not clean, the message of the
    error is the [info] of that verdict, and nothing was sent. *)
Theorem scannedDownload_403_unclean
    (domain mediaId : option string) (eventContentFile : jsval)
    (opts : options) (w w' : world) (msg : string) :
  wf_world w ->
  scannedDownload domain mediaId eventContentFile opts w
  = (Throw (ClientError 403 msg), w') ->
  (exists k o,
     getInputHash domain mediaId eventContentFile opts = Ok k
     /\ cache_entry w' k = Some o
     /\ clean o = false
     /\ info o = msg)
  /\ Forall (fun ev => is_delivery ev = false) (calls_between w w').
Proof.
  intros Hwf Hrun. split.
  2:{ destruct (scannedDownload_delivery domain mediaId eventContentFile opts
                  w Hwf)
        as [[_ Hnone]|(dir & pre & k & o & h & Hout & _)];
        rewrite Hrun in *; simpl in *; [done|].
      by destruct (Hout 403%Z msg). }
  revert Hrun. unfold scannedDownload.
  set (prefix := template (tempDirectory opts) +:+ path_sep +:+ "av-").
  destruct (mkdtemp (length (trace w)) prefix) as [suffix|e0] eqn:Hmk.
  2:{ unfold withTempDir, bind, call_mkdtemp. fold prefix. by rewrite Hmk. }
  rewrite (withTempDir_run _ _ _ _ Hmk). fold prefix.
  set (dir := prefix +:+ suffix).
  set (opts' := {| baseUrl := baseUrl opts; tempDirectory := Some dir;
                   script := script opts |}).
  set (w0 := after_mkdtemp w prefix dir).
  assert (Hwf0 : wf_world w0) by (by apply (keeps_wf_same_store w w0)).
  unfold try_finally, bind.
  destruct (generateReport domain mediaId eventContentFile opts' w0)
    as [[l|e] w1] eqn:Hgen.
  - destruct (generateReport_ok_inv _ _ _ _ _ _ _ Hwf0 Hgen)
      as (b & t & s & dm & h & o & Hb & Ht & Hs & Hdm & Hget & Hcache & Ho
          & Hfp & Hh).
    simpl in Hb. unfold deref. rewrite Ho.
    destruct (clean o) eqn:Hclean; simpl.
    + destruct (headers o); simpl; unfold call_rimraf;
        destruct (rimraf _ _); by intros [=].
    + unfold call_rimraf. destruct (rimraf _ _); simpl; [by intros [=]|].
      intros [= <- <-].
      exists (generateResultHash (generateHttpUrl (Some b) (fst dm) (snd dm))
                eventContentFile), o.
      split; [unfold getInputHash; by rewrite Hdm, Hb|].
      split; [unfold cache_entry; simpl; by rewrite Hcache|done].
  - destruct (generateReport_throw_inv _ _ _ _ _ _ _ Hgen)
      as (_ & _ & _ & Hcase).
    unfold call_rimraf. destruct (rimraf _ _); simpl; [by intros [=]|].
    intros [= -> <-]. exfalso.
    destruct Hcase as [[? _]|[[? _]|[(err & ? & ? & _ & _ & He)|[[? _]|(err & ? & _)]]]];
      try done.
    by destruct (truthy (err_statusCode err)).
Qed.

(** X18. The object [generateReport] returns is the one the cache holds.
    After a successful run of a call that found no execution in flight
    under its key, the key is bound, in the cache, to the very object
    returned; the first call of the run was the download into
    [downloadedFile] of the call's [tempDirectory], and the object carries
    that path and the response headers of that download.  A call that
    joined an execution in flight makes no download of its own: what it
    returns, and the path in it, are those of that execution. *)
Theorem generateReport_returns_cached_object
    (ongoing : registry loc)
    (domain mediaId : option string) (eventContentFile : jsval)
    (opts : options) (k : string) (w : world) :
  getInputHash domain mediaId eventContentFile opts = Ok k ->
  (ongoing !! k = None ->
   wf_world w ->
   forall l w',
     generateReport_ongoing ongoing domain mediaId eventContentFile opts w
     = (Ok l, w') ->
     exists t url h o,
       tempDirectory opts = Some t
       /\ resultCache w' !! k = Some l
       /\ heap w' !! l = Some o
       /\ head (calls_between w w')
          = Some (EvGet url (path_join t "downloadedFile"))
       /\ request_get (length (trace w)) url (path_join t "downloadedFile")
          = inl h
       /\ filePath o = Some (path_join t "downloadedFile")
       /\ headers o = h)
  /\ (forall execution : M loc,
        ongoing !! k = Some execution ->
        generateReport_ongoing ongoing domain mediaId eventContentFile opts w
        = execution w).
Proof.
  intros Hk.
  split; [|intros execution; by apply generateReport_ongoing_joined].
  intros Hfree Hwf l w' Hrun.
  rewrite (generateReport_ongoing_free _ _ _ _ _ k) in Hrun by done.
  destruct (generateReport_ok_inv _ _ _ _ _ _ _ Hwf Hrun)
    as (b & t & s & dm & h & o & Hb & Ht & Hs & Hdm & Hget & Hcache & Ho
        & Hfp & Hh).
  assert (Hkey : k = generateResultHash
                       (generateHttpUrl (Some b) (fst dm) (snd dm))
                       eventContentFile).
  { revert Hk. unfold getInputHash. rewrite Hdm, Hb. by intros [= <-]. }
  exists t, (generateHttpUrl (Some b) (fst dm) (snd dm)), h, o.
  split; [done|]. split; [by rewrite Hkey|].
  repeat (split; [done|]). split; [|done].
  revert Hrun.
  unfold generateReport, deduplicatePromises, uncurry4, bind, lift.
  unfold getInputHash. rewrite Hdm.
  rewrite (_generateReport_run _ _ _ _ b t s dm w Hb Ht Hs Hdm), Hget.
  pose proof (pipeline_calls_generateResult
                (generateHttpUrl (Some b) (fst dm) (snd dm)) eventContentFile
                (path_join t "downloadedFile") t s
                (logged (EvGet (generateHttpUrl (Some b) (fst dm) (snd dm))
                           (path_join t "downloadedFile")) w)) as Hcalls.
  destruct (generateResult _ _ _ _ _ _) as [[l0|e0] w2]; [|done].
  intros [= <- <-]. destruct Hcalls as (evs & Htr & _).
  unfold calls_between. simpl in *. rewrite Htr.
  by rewrite <- app_assoc, drop_app_length.
Qed.

End Reporting.

(** ** Properties of the coalescer *)

Section CoalescerFacts.

Import Coalescer.

Context {Args V : Type} (getKey : Args -> outcome string).

Local Abbreviation state := (@state Args V).
Local Abbreviation step := (@step Args V getKey).
Local Abbreviation run := (@run Args V getKey).

Lemma inv_init : inv getKey (init : state).
Proof.
  split.
  - intros k e. simpl. rewrite lookup_empty. split; [done|].
    intros (x & Hx & _). done.
  - intros c cl e Hc. done.
Qed.

Lemma step_registry (s s' : state) (l : label) :
  registry_exact s -> step s l = Some s' -> registry_exact s'.
Proof.
  intros Hreg Hstep. destruct l as [args|e o|e|c]; simpl in Hstep.
  - destruct (getKey args) as [k|err]; [|by injection Hstep as <-].
    destruct (ongoing s !! k) as [e|] eqn:Hk; [by injection Hstep as <-|].
    injection Hstep as <-. intros k0 e. simpl. split.
    + rewrite lookup_insert. destruct (decide (k = k0)) as [->|Hne].
      * intros [= <-]. eexists. split; [by apply list_lookup_middle|done].
      * intros (x & Hx & Hkx & Hfl)%Hreg. exists x.
        split; [by apply lookup_app_l_Some|done].
    + intros (x & Hx & Hkx & Hfl). apply lookup_snoc_Some in Hx as [[_ Hx]|[-> <-]].
      * assert (Hold : ongoing s !! k0 = Some e) by (apply Hreg; eauto).
        rewrite lookup_insert_ne; [done|congruence].
      * simpl in Hkx. subst k0. by rewrite lookup_insert_eq.
  - destruct (executions s !! e) as [x|] eqn:Hx; [|done].
    destruct (ex_phase x) eqn:Hph; try done. injection Hstep as <-.
    assert (Hfl : in_flight x = true) by (unfold in_flight; by rewrite Hph).
    assert (He : e < length (executions s)) by (by eapply lookup_lt_Some).
    intros k0 e0. simpl. rewrite list_lookup_insert by done. split.
    + intros (x0 & Hx0 & Hkx0 & Hfl0)%Hreg.
      destruct (decide (e = e0)) as [->|Hne].
      * eexists. split; [by rewrite decide_True|]. simpl. split; [congruence|done].
      * exists x0. by rewrite decide_False by (intros [??]; done).
    + intros (x0 & Hx0 & Hkx0 & Hfl0). apply Hreg.
      destruct (decide (e = e0)) as [->|Hne].
      * rewrite decide_True in Hx0 by done. injection Hx0 as <-. eauto.
      * rewrite decide_False in Hx0 by (intros [??]; done). eauto.
  - destruct (executions s !! e) as [x|] eqn:Hx; [|done].
    destruct (ex_phase x) eqn:Hph; try done. injection Hstep as <-.
    assert (Hfl : in_flight x = true) by (unfold in_flight; by rewrite Hph).
    assert (He : e < length (executions s)) by (by eapply lookup_lt_Some).
    assert (Hreg_e : ongoing s !! ex_key x = Some e) by (apply Hreg; eauto).
    intros k0 e0. simpl. rewrite list_lookup_insert by done.
    rewrite lookup_delete. split.
    + destruct (decide (ex_key x = k0)) as [->|Hne]; [done|].
      intros Hk0. destruct (proj1 (Hreg _ _) Hk0) as (x0 & Hx0 & Hkx0 & Hfl0).
      exists x0. rewrite decide_False; [done|]. intros [-> _]. congruence.
    + intros (x0 & Hx0 & Hkx0 & Hfl0).
      destruct (decide (e = e0)) as [->|Hne].
      * rewrite decide_True in Hx0 by done. by injection Hx0 as <-.
      * rewrite decide_False in Hx0 by (intros [??]; done).
        assert (Hk0 : ongoing s !! k0 = Some e0) by (apply Hreg; eauto).
        rewrite decide_False; [done|]. intros Heq. congruence.
  - destruct (calls s !! c) as [cl|]; [|done].
    destruct (call_awaits cl) as [e|]; [|done].
    destruct (call_result cl); [done|].
    destruct (executions s !! e) as [x|]; [|done].
    destruct (ex_phase x); try done. by injection Hstep as <-.
Qed.

Lemma step_calls (s s' : state) (l : label) :
  registry_exact s -> calls_share_outcome getKey s ->
  step s l = Some s' -> calls_share_outcome getKey s'.
Proof.
  intros Hreg Hcalls Hstep. destruct l as [args|e o|e|c]; simpl in Hstep.
  - destruct (getKey args) as [k|err] eqn:Hkey.
    2:{ injection Hstep as <-. intros c cl e. simpl.
        intros [[_ Hc]|[_ <-]]%lookup_snoc_Some; [by eapply Hcalls|done]. }
    destruct (ongoing s !! k) as [e|] eqn:Hk; injection Hstep as <-;
      intros c cl e0; simpl.
    + intros [[_ Hc]|[_ <-]]%lookup_snoc_Some.
      * by eapply Hcalls.
      * simpl. intros [= <-].
        destruct (proj1 (Hreg _ _) Hk) as (x & Hx & Hkx & _).
        exists x. split; [done|]. split; [congruence|done].
    + intros [[_ Hc]|[_ <-]]%lookup_snoc_Some.
      * intros Haw. destruct (Hcalls _ _ _ Hc Haw) as (x & Hx & Hkx & Hres).
        exists x. split; [by apply lookup_app_l_Some|done].
      * simpl. intros [= <-]. eexists.
        split; [by apply list_lookup_middle|]. split; [done|done].
  - destruct (executions s !! e) as [x|] eqn:Hx; [|done].
    destruct (ex_phase x) eqn:Hph; try done. injection Hstep as <-.
    assert (He : e < length (executions s)) by (by eapply lookup_lt_Some).
    intros c cl e0 Hc Haw. simpl in *.
    destruct (Hcalls _ _ _ Hc Haw) as (x0 & Hx0 & Hkx0 & Hres).
    rewrite list_lookup_insert by done.
    destruct (decide (e = e0)) as [->|Hne].
    + rewrite decide_True by done. eexists. split; [done|]. simpl.
      assert (x0 = x) as -> by congruence. split; [done|].
      intros o' Ho'. specialize (Hres _ Ho'). congruence.
    + exists x0. by rewrite decide_False by (intros [??]; done).
  - destruct (executions s !! e) as [x|] eqn:Hx; [|done].
    destruct (ex_phase x) eqn:Hph; try done. injection Hstep as <-.
    assert (He : e < length (executions s)) by (by eapply lookup_lt_Some).
    intros c cl e0 Hc Haw. simpl in *.
    destruct (Hcalls _ _ _ Hc Haw) as (x0 & Hx0 & Hkx0 & Hres).
    rewrite list_lookup_insert by done.
    destruct (decide (e = e0)) as [->|Hne].
    + rewrite decide_True by done. eexists. split; [done|]. simpl.
      assert (x0 = x) as -> by congruence. split; [done|].
      intros o' Ho'. specialize (Hres _ Ho'). congruence.
    + exists x0. by rewrite decide_False by (intros [??]; done).
  - destruct (calls s !! c) as [cl|] eqn:Hcl; [|done].
    destruct (call_awaits cl) as [e|] eqn:Haw; [|done].
    destruct (call_result cl) eqn:Hres; [done|].
    destruct (executions s !! e) as [x|] eqn:Hx; [|done].
    destruct (ex_phase x) eqn:Hph; try done. injection Hstep as <-.
    assert (Hc : c < length (calls s)) by (by eapply lookup_lt_Some).
    intros c0 cl0 e0. simpl. rewrite list_lookup_insert by done.
    destruct (decide (c = c0)) as [->|Hne].
    + rewrite decide_True by done. intros [= <-]. simpl. intros [= <-].
      exists x. split; [done|].
      destruct (Hcalls _ _ _ Hcl Haw) as (x0 & Hx0 & Hkx0 & _).
      assert (x0 = x) as -> by congruence. split; [done|]. by intros o' [= <-].
    + rewrite decide_False by (intros [??]; done). by apply Hcalls.
Qed.

Lemma run_inv (ls : list label) (s s' : state) :
  inv getKey s -> run s ls = Some s' -> inv getKey s'.
Proof.
  revert s. induction ls as [|l ls IH]; intros s Hinv Hrun; simpl in Hrun.
  - by injection Hrun as <-.
  - destruct (step s l) as [s1|] eqn:Hstep; [|done].
    apply (IH s1); [|done]. destruct Hinv as [Hreg Hcalls].
    split; [by eapply step_registry|by eapply step_calls].
Qed.

Lemma reachable_inv (s : state) : reachable getKey s -> inv getKey s.
Proof. intros [ls Hrun]. eapply run_inv; [apply inv_init|exact Hrun]. Qed.

Lemma registry_at_most_one (s : state) :
  registry_exact s -> at_most_one_in_flight s.
Proof.
  intros Hreg e1 e2 x1 x2 H1 H2 Hk Hf1 Hf2.
  assert (ongoing s !! ex_key x1 = Some e1) by (apply Hreg; eauto).
  assert (ongoing s !! ex_key x1 = Some e2) by (apply Hreg; eauto).
  congruence.
Qed.

Lemma registry_call_joins (s : state) : registry_exact s -> call_joins getKey s.
Proof.
  intros Hreg args e x Hx Hfl Hkey. simpl. rewrite Hkey.
  assert (ongoing s !! ex_key x = Some e) as -> by (apply Hreg; eauto).
  done.
Qed.

Lemma always_finalize_frees_key (s : state) : finalize_frees_key getKey s.
Proof.
  intros e x o Hx Hph. eexists. split; [simpl; by rewrite Hx, Hph|].
  simpl. split; [by rewrite lookup_delete_eq|].
  intros args Hkey. by rewrite Hkey, lookup_delete_eq.
Qed.

(** A call that finds its key free, and is run to its end before any other
    call arrives, gets the outcome of the execution it started and leaves
    the registry as it found it. *)
Lemma run_alone (s : state) (args : Args) (k : string) (o : outcome V) :
  getKey args = Ok k -> ongoing s !! k = None ->
  exists s',
    run s [LCall args; LSettle (length (executions s)) o;
           LFinalize (length (executions s)); LResume (length (calls s))]
    = Some s'
    /\ ongoing s' = ongoing s
    /\ calls s' !! length (calls s)
       = Some {| call_args := args;
                 call_awaits := Some (length (executions s));
                 call_result := Some o |}.
Proof.
  intros Hkey Hfree. simpl. rewrite Hkey, Hfree. simpl.
  rewrite list_lookup_middle by done. simpl.
  rewrite list_lookup_insert_eq by (rewrite length_app; simpl; lia). simpl.
  rewrite list_lookup_middle by done. simpl.
  rewrite list_lookup_insert_eq
    by (rewrite length_insert, length_app; simpl; lia).
  simpl. eexists. split; [reflexivity|]. simpl.
  split; [by rewrite delete_insert_eq, delete_id|].
  rewrite list_lookup_insert_eq by (rewrite length_app; simpl; lia). done.
Qed.

Lemma step_started (s s' : state) (l : label) :
  started_by_call getKey s -> step s l = Some s' -> started_by_call getKey s'.
Proof.
  intros Hst Hstep. destruct l as [args|e o|e|c]; simpl in Hstep.
  - assert (Hold : forall s1 : state,
              executions s1 = executions s ->
              (exists cl, calls s1 = calls s ++ [cl]) ->
              started_by_call getKey s1).
    { intros s1 Hex [cl1 Hcl] e x. rewrite Hex, Hcl. intros Hx.
      destruct (Hst _ _ Hx) as (Hk & c & cl & Hc & Haw & Hargs).
      split; [done|]. exists c, cl. split; [by apply lookup_app_l_Some|done]. }
    destruct (getKey args) as [k|err] eqn:Hkey.
    2:{ injection Hstep as <-. apply Hold; [done|by eexists]. }
    destruct (ongoing s !! k) as [e|] eqn:Hk.
    { injection Hstep as <-. apply Hold; [done|by eexists]. }
    injection Hstep as <-. intros e x. simpl.
    intros [[_ Hx]|[-> <-]]%lookup_snoc_Some.
    + destruct (Hst _ _ Hx) as (Hkx & c & cl & Hc & Haw & Hargs).
      split; [done|]. exists c, cl. split; [by apply lookup_app_l_Some|done].
    + simpl. split; [done|]. eexists _, _.
      split; [by apply list_lookup_middle|done].
  - destruct (executions s !! e) as [x|] eqn:Hx; [|done].
    destruct (ex_phase x) eqn:Hph; try done. injection Hstep as <-.
    assert (He : e < length (executions s)) by (by eapply lookup_lt_Some).
    intros e0 x0. simpl. rewrite list_lookup_insert by done.
    destruct (decide (e = e0)) as [->|Hne].
    + rewrite decide_True by done. intros [= <-]. simpl. by apply Hst.
    + rewrite decide_False by (intros [??]; done). by apply Hst.
  - destruct (executions s !! e) as [x|] eqn:Hx; [|done].
    destruct (ex_phase x) eqn:Hph; try done. injection Hstep as <-.
    assert (He : e < length (executions s)) by (by eapply lookup_lt_Some).
    intros e0 x0. simpl. rewrite list_lookup_insert by done.
    destruct (decide (e = e0)) as [->|Hne].
    + rewrite decide_True by done. intros [= <-]. simpl. by apply Hst.
    + rewrite decide_False by (intros [??]; done). by apply Hst.
  - destruct (calls s !! c) as [cl|] eqn:Hcl; [|done].
    destruct (call_awaits cl) as [e|] eqn:Haw; [|done].
    destruct (call_result cl) eqn:Hres; [done|].
    destruct (executions s !! e) as [x|] eqn:Hx; [|done].
    destruct (ex_phase x) eqn:Hph; try done. injection Hstep as <-.
    assert (Hc : c < length (calls s)) by (by eapply lookup_lt_Some).
    intros e0 x0. simpl. intros Hx0.
    destruct (Hst _ _ Hx0) as (Hk0 & c0 & cl0 & Hc0 & Haw0 & Hargs0).
    split; [done|].
    destruct (decide (c = c0)) as [->|Hne].
    + eexists c0, _. split; [by apply list_lookup_insert_eq|].
      simpl. split; congruence.
    + exists c0, cl0. split; [by rewrite list_lookup_insert_ne|done].
Qed.

Lemma step_failed (s s' : state) (l : label) :
  failed_without_await getKey s -> step s l = Some s' ->
  failed_without_await getKey s'.
Proof.
  intros Hf Hstep. destruct l as [args|e o|e|c]; simpl in Hstep.
  - destruct (getKey args) as [k|err] eqn:Hkey.
    + destruct (ongoing s !! k) as [e|]; injection Hstep as <-;
        intros c cl; simpl;
        (intros [[_ Hc]|[_ <-]]%lookup_snoc_Some; [exact (Hf _ _ Hc)|done]).
    + injection Hstep as <-. intros c cl. simpl.
      intros [[_ Hc]|[_ <-]]%lookup_snoc_Some; [exact (Hf _ _ Hc)|].
      simpl. intros _. by exists err.
  - destruct (executions s !! e) as [x|]; [|done].
    destruct (ex_phase x); try done. by injection Hstep as <-.
  - destruct (executions s !! e) as [x|]; [|done].
    destruct (ex_phase x); try done. by injection Hstep as <-.
  - destruct (calls s !! c) as [cl|] eqn:Hcl; [|done].
    destruct (call_awaits cl) as [e|] eqn:Haw; [|done].
    destruct (call_result cl) eqn:Hres; [done|].
    destruct (executions s !! e) as [x|] eqn:Hx; [|done].
    destruct (ex_phase x) eqn:Hph; try done. injection Hstep as <-.
    assert (Hc : c < length (calls s)) by (by eapply lookup_lt_Some).
    intros c0 cl0. simpl. rewrite list_lookup_insert by done.
    destruct (decide (c = c0)) as [->|Hne].
    + rewrite decide_True by done. by intros [= <-].
    + rewrite decide_False by (intros [??]; done). exact (Hf _ _).
Qed.

Lemma run_started_failed (ls : list label) (s s' : state) :
  started_by_call getKey s /\ failed_without_await getKey s ->
  run s ls = Some s' ->
  started_by_call getKey s' /\ failed_without_await getKey s'.
Proof.
  revert s. induction ls as [|l ls IH]; intros s Hinv Hrun; simpl in Hrun.
  - by injection Hrun as <-.
  - destruct (step s l) as [s1|] eqn:Hstep; [|done].
    apply (IH s1); [|done]. destruct Hinv as [Hst Hf].
    split; [by eapply step_started|by eapply step_failed].
Qed.

Lemma reachable_started_failed (s : state) :
  reachable getKey s ->
  started_by_call getKey s /\ failed_without_await getKey s.
Proof.
  intros [ls Hrun]. eapply run_started_failed; [|exact Hrun].
  split; [intros e x|intros c cl]; done.
Qed.

Lemma reachable_await_delivers (s : state) :
  reachable getKey s -> await_delivers getKey s.
Proof.
  intros Hreach c cl Hcl Hres.
  destruct (reachable_inv _ Hreach) as [_ Hcalls].
  destruct (reachable_started_failed _ Hreach) as [_ Hf].
  destruct (call_awaits cl) as [e|] eqn:Haw.
  2:{ destruct (Hf _ _ Hcl Haw) as (err & _ & Hr). congruence. }
  destruct (Hcalls _ _ _ Hcl Haw) as (x & Hx & Hkey & _).
  exists e, x. repeat (split; [done|]).
  assert (He : e < length (executions s)) by (by eapply lookup_lt_Some).
  assert (Hc : c < length (calls s)) by (by eapply lookup_lt_Some).
  intros o [Hph|[Hph|Hph]]; rewrite Hph; simpl; rewrite ?Hx, ?Hph; simpl.
  - rewrite list_lookup_insert_eq by done. simpl.
    rewrite Hcl, Haw, Hres.
    rewrite list_lookup_insert_eq by (by rewrite length_insert). simpl.
    eexists. split; [reflexivity|]. simpl.
    by rewrite list_lookup_insert_eq.
  - rewrite Hcl, Haw, Hres.
    rewrite list_lookup_insert_eq by done. simpl.
    eexists. split; [reflexivity|]. simpl.
    by rewrite list_lookup_insert_eq.
  - rewrite Hcl, Haw, Hres, Hx, Hph.
    eexists. split; [reflexivity|]. simpl.
    by rewrite list_lookup_insert_eq.
Qed.

End CoalescerFacts.

(** C1. In every state [generateReport]'s coalescer can reach, under any
    interleaving of calls, settlements, [finally] callbacks and resumptions:
    no two executions of [_generateReport] with one key are in flight
    together; a call that has resumed holds the outcome of the execution it
    awaited, which ran under the call's own key; a call whose key has an
    execution in flight awaits that execution and starts none; once the
    [finally] callback of a settled execution has run, the key is free and
    the next call with that key starts an execution of its own; and every
    call that has not resumed does get the outcome of the execution it
    awaits: when that execution settles with an outcome, result or
    exception, and its [finally] callback runs, the call resumes with
    exactly that outcome. *)
Theorem generateReport_coalesced
    (base64sha256 : string -> string)
    (s : Coalescer.state (Args := report_args) (V := loc)) :
  Coalescer.reachable (uncurry4 (getInputHash base64sha256)) s ->
  Coalescer.at_most_one_in_flight s
  /\ Coalescer.calls_share_outcome (uncurry4 (getInputHash base64sha256)) s
  /\ Coalescer.call_joins (uncurry4 (getInputHash base64sha256)) s
  /\ Coalescer.finalize_frees_key (uncurry4 (getInputHash base64sha256)) s
  /\ Coalescer.await_delivers (uncurry4 (getInputHash base64sha256)) s.
Proof.
  intros Hreach.
  destruct (reachable_inv _ _ Hreach) as [Hreg Hcalls].
  split; [by apply registry_at_most_one|].
  split; [done|].
  split; [by apply registry_call_joins|].
  split; [apply always_finalize_frees_key|].
  by apply reachable_await_delivers.
Qed.

(** ** Further properties of deduplicatePromises *)

Section CoalescerProgress.

Import Coalescer.

Context {Args V : Type} (getKey : Args -> outcome string).

Local Abbreviation state := (@state Args V).
Local Abbreviation step := (@step Args V getKey).
Local Abbreviation run := (@run Args V getKey).

(** X19. The registry does not leak: in every reachable state, the
    registry is empty exactly when no execution is in flight, that is when
    the [finally] callback of every execution started so far has run. *)
Theorem registry_empty_when_idle (s : state) :
  reachable getKey s ->
  ongoing s = ∅
  <-> forall e x, executions s !! e = Some x -> in_flight x = false.
Proof.
  intros [Hreg _]%reachable_inv. split.
  - intros Hempty e x Hx. destruct (in_flight x) eqn:Hfl; [|done].
    assert (Hk : ongoing s !! ex_key x = Some e) by (apply Hreg; eauto).
    by rewrite Hempty, lookup_empty in Hk.
  - intros Hidle. apply map_empty. intros k.
    destruct (ongoing s !! k) as [e|] eqn:Hk; [|done].
    destruct (proj1 (Hreg _ _) Hk) as (x & Hx & _ & Hfl).
    by rewrite (Hidle _ _ Hx) in Hfl.
Qed.

(** X20. Every execution runs with the arguments of the call that started
    it: in every reachable state, each execution has a call that awaits it
    and whose arguments are the ones the execution was started with, and
    its key is the key of these arguments.  The arguments of the calls that
    joined it later are not used. *)
Theorem execution_started_by_call (s : state) (e : nat) (x : execution) :
  reachable getKey s ->
  executions s !! e = Some x ->
  getKey (ex_args x) = Ok (ex_key x)
  /\ exists c cl,
      calls s !! c = Some cl
      /\ call_awaits cl = Some e
      /\ call_args cl = ex_args x.
Proof.
  intros [Hst _]%reachable_started_failed Hx. by apply Hst.
Qed.

(** X21. No call is left waiting: in every reachable state, a call that has
    not resumed awaits an execution that exists, under the call's own key,
    and can always be brought to its end: when that execution settles with
    an outcome and its [finally] callback runs, the call resumes with that
    outcome, whatever else is in flight. *)
Theorem pending_call_resumes (s : state) (c : nat) (cl : call) :
  reachable getKey s ->
  calls s !! c = Some cl ->
  call_result cl = None ->
  exists e x,
    call_awaits cl = Some e
    /\ executions s !! e = Some x
    /\ getKey (call_args cl) = Ok (ex_key x)
    /\ forall o,
        ex_phase x = Running \/ ex_phase x = Settled o
          \/ ex_phase x = Finalized o ->
        exists s',
          run s (match ex_phase x with
                 | Running => [LSettle e o; LFinalize e; LResume c]
                 | Settled _ => [LFinalize e; LResume c]
                 | Finalized _ => [LResume c]
                 end)
          = Some s'
          /\ calls s' !! c
             = Some {| call_args := call_args cl; call_awaits := Some e;
                       call_result := Some o |}.
Proof.
  intros Hreach Hcl Hres. exact (reachable_await_delivers getKey s Hreach c cl Hcl Hres).
Qed.

End CoalescerProgress.

(** ** The theorems on examples *)

Lemma wf_world_init : wf_world init_world.
Proof. intros k l. simpl. by rewrite lookup_empty. Qed.

Lemma generateReport_coalesced_witness :
  exists s,
    Coalescer.run (uncurry4 (getInputHash example_digest)) Coalescer.init
      example_calls = Some s
    /\ length (Coalescer.executions s) = 2
    /\ Coalescer.call_result <$> Coalescer.calls s !! 0 = Some (Some (Ok 0))
    /\ Coalescer.call_result <$> Coalescer.calls s !! 1 = Some (Some (Ok 0))
    /\ Coalescer.at_most_one_in_flight s
    /\ Coalescer.calls_share_outcome
         (uncurry4 (getInputHash example_digest)) s
    /\ Coalescer.await_delivers (uncurry4 (getInputHash example_digest)) s.
Proof.
  eexists. split; [vm_compute; reflexivity|]. split; [reflexivity|].
  split; [reflexivity|]. split; [reflexivity|].
  refine (let H := generateReport_coalesced example_digest _ _ in
          conj (proj1 H)
            (conj (proj1 (proj2 H)) (proj2 (proj2 (proj2 (proj2 H)))))).
  exists example_calls. vm_compute. reflexivity.
Defined.

Lemma getReport_cache_only_witness :
  getInputHash example_digest (Some "example.org") (Some "abc123") JUndefined
    example_opts
  = Ok (example_digest (hash_input example_url JUndefined))
  /\ getReport example_digest (Some "example.org") (Some "abc123") JUndefined
       example_opts init_world
     = (Ok {| scanned := false; report_clean := None; report_info := None |},
        init_world).
Proof.
  split; [reflexivity|].
  apply (getReport_cache_only example_digest (Some "example.org")
           (Some "abc123") JUndefined example_opts
           (example_digest (hash_input example_url JUndefined)) init_world);
    reflexivity.
Defined.

Lemma generateReport_then_getReport_witness :
  exists w',
    generateReport example_digest example_path_join get_ok decrypt_ok scan_clean
      (Some "example.org") (Some "abc123") JUndefined example_opts init_world
    = (Ok 0, w')
    /\ exists o,
        heap w' !! 0 = Some o
        /\ getReport example_digest (Some "example.org") (Some "abc123")
             JUndefined example_opts w'
           = (Ok {| scanned := true; report_clean := Some (clean o);
                    report_info := Some (info o) |}, w').
Proof.
  eexists. split; [vm_compute; reflexivity|].
  apply (generateReport_then_getReport example_digest example_path_join get_ok
           decrypt_ok scan_clean (Some "example.org") (Some "abc123")
           JUndefined example_opts init_world);
    [exact wf_world_init|reflexivity].
Defined.

Lemma fetch_failure_not_cached_witness :
  (exists w',
     generateReport example_digest example_path_join get_404 decrypt_ok
       scan_clean (Some "example.org") (Some "abc123") JUndefined example_opts
       init_world
     = (Throw (ClientError 502 "Failed to get requested URL"), w')
     /\ resultCache w' = resultCache init_world)
  /\ (exists w',
        generateReport example_digest example_path_join get_reset decrypt_ok
          scan_clean (Some "example.org") (Some "abc123") JUndefined
          example_opts init_world
        = (Throw (Thrown error_reset), w')
        /\ resultCache w' = resultCache init_world).
Proof.
  split.
  - destruct (fetch_failure_not_cached example_digest example_path_join get_404
                decrypt_ok scan_clean (Some "example.org") (Some "abc123")
                JUndefined example_opts "https://hs" "/tmp" "scan.sh"
                (Some "example.org", Some "abc123") error_404 init_world
                eq_refl eq_refl eq_refl eq_refl eq_refl)
      as (w' & Hrun & _ & _ & Hcache & _).
    exists w'. split; [exact Hrun|exact Hcache].
  - destruct (fetch_failure_not_cached example_digest example_path_join
                get_reset decrypt_ok scan_clean (Some "example.org")
                (Some "abc123") JUndefined example_opts "https://hs" "/tmp"
                "scan.sh" (Some "example.org", Some "abc123") error_reset
                init_world eq_refl eq_refl eq_refl eq_refl eq_refl)
      as (w' & Hrun & _ & _ & Hcache & _).
    exists w'. split; [exact Hrun|exact Hcache].
Defined.

Lemma decrypt_failure_not_cached_witness :
  exists w',
    generateReport example_digest example_path_join get_ok decrypt_throws
      scan_clean None None example_file example_opts init_world
    = (Throw (ClientError 400 "Failed to decrypt file"), w')
    /\ decrypt_threw decrypt_throws init_world w'
    /\ getReport example_digest None None example_file example_opts w'
       = (Ok {| scanned := false; report_clean := None; report_info := None |},
          w').
Proof.
  eexists. split; [vm_compute; reflexivity|].
  assert (Hthrew : decrypt_threw decrypt_throws init_world
            (snd (generateReport example_digest example_path_join get_ok
                    decrypt_throws scan_clean None None example_file
                    example_opts init_world))).
  { exists 1, "/tmp/downloadedFile", "/tmp/unsafeDownloadedDecryptedFile",
      example_file, error_bad_key.
    split; [simpl; lia|]. split; reflexivity. }
  split; [exact Hthrew|].
  apply (decrypt_failure_not_cached example_digest example_path_join get_ok
           decrypt_throws scan_clean None None example_file example_opts
           init_world _ _ eq_refl Hthrew).
Defined.

Lemma no_key_no_decrypt_witness :
  truthy (get_prop file_no_key "key") = false
  /\ no_decrypt init_world
       (snd (generateReport example_digest example_path_join get_ok
               decrypt_throws scan_clean None None file_no_key example_opts
               init_world))
  /\ hash_input example_url file_no_key <> hash_input example_url JUndefined.
Proof.
  split; [reflexivity|].
  refine (let H := no_key_no_decrypt example_digest example_path_join get_ok
                     decrypt_throws scan_clean None None file_no_key
                     example_opts init_world eq_refl in
          conj (proj1 H) _).
  refine (proj1 (proj2 (proj2 H) _ example_url)). discriminate.
Defined.

Lemma withTempDir_removal_witness :
  exists w',
    withTempDir "/" mkdtemp_ok rimraf_ok (fun _ => ret 7) example_opts init_world
    = (Ok 7, w')
    /\ "/tmp/av-aaaaaa" ∉ dirs w'.
Proof.
  destruct (withTempDir_removal "/" mkdtemp_ok rimraf_ok (fun _ => ret 7)
              example_opts init_world
              (after_mkdtemp init_world "/tmp/av-" "/tmp/av-aaaaaa")
              "/tmp/av-" "aaaaaa" "/tmp/av-aaaaaa" (Ok 7)
              eq_refl eq_refl eq_refl eq_refl)
    as (w' & Hrun & _ & Hgone).
  exists w'. split; [exact Hrun|exact (Hgone eq_refl)].
Defined.

Lemma config_error_no_fetch_witness :
  generateReport_ongoing example_digest example_path_join get_ok decrypt_ok
    scan_clean ∅ (Some "example.org") (Some "abc123") JUndefined opts_no_script
    init_world
  = (Throw config_error, init_world).
Proof.
  exact (proj1 (proj1 (config_error_no_fetch example_digest "/"
                         example_path_join get_ok decrypt_ok scan_clean
                         mkdtemp_ok rimraf_ok ∅ (Some "example.org")
                         (Some "abc123") JUndefined opts_no_script
                         (example_digest (hash_input example_url JUndefined))
                         init_world (or_intror (or_intror eq_refl)) eq_refl)
                  (lookup_empty _))).
Defined.

(** ** Where the code departs from the specification *)

(** C2, refuted as stated.  Two descriptors for one URL that differ in their
    [key], one falsy and one truthy, are printed alike by [JSON.stringify]
    and get the same key, whatever the digest function. *)
Lemma descriptors_share_key :
  file_key_null <> file_key_infinity
  /\ truthy (get_prop file_key_null "key") = false
  /\ truthy (get_prop file_key_infinity "key") = true
  /\ hash_input example_url file_key_null
     = hash_input example_url file_key_infinity
  /\ (forall base64sha256 : string -> string,
        generateResultHash base64sha256 example_url file_key_null
        = generateResultHash base64sha256 example_url file_key_infinity).
Proof. repeat split; try reflexivity. discriminate. Qed.

(** C5, refuted as stated.  When the removal of the directory fails, its
    error is what the caller gets, in place of the result the wrapped
    function returned and in place of the error it threw; the directory is
    still there. *)
Lemma removal_failure_masks_outcome :
  fst (withTempDir "/" mkdtemp_ok rimraf_fails (fun _ => ret 7) example_opts
         init_world)
  = Throw (Thrown error_busy)
  /\ fst (withTempDir "/" mkdtemp_ok rimraf_fails
            (fun _ => @throw nat (ClientError 403 "File infected"))
            example_opts init_world)
     = Throw (Thrown error_busy)
  /\ "/tmp/av-aaaaaa"
     ∈ dirs (snd (withTempDir "/" mkdtemp_ok rimraf_fails (fun _ => ret 7)
                    example_opts init_world)).
Proof.
  split; [reflexivity|]. split; [reflexivity|].
  apply (bool_decide_unpack _). by vm_compute.
Qed.


(** C9, refuted as stated.  Without [script], [scannedDownload] has created
    its directory, and removed it, by the time the configuration error
    reaches the caller. *)
Lemma scannedDownload_creates_directory_first :
  exists w',
    scannedDownload example_digest "/" example_path_join get_ok decrypt_ok
      scan_clean mkdtemp_ok rimraf_ok (Some "example.org") (Some "abc123")
      JUndefined opts_no_script init_world
    = (Throw config_error, w')
    /\ trace w' = [EvMkdtemp "/tmp/av-"; EvRimraf "/tmp/av-aaaaaa"].
Proof. eexists. split; [vm_compute; reflexivity|reflexivity]. Qed.

(** Without [tempDirectory], [scannedDownload] raises no configuration
    error: it works in a directory under ["undefined"], and
    [_generateReport] sees the [tempDirectory] that [withTempDir] put in the
    options. *)
Example scannedDownload_without_tempDirectory :
  let w' :=
    snd (scannedDownload example_digest "/" example_path_join get_ok decrypt_ok
           scan_clean mkdtemp_ok rimraf_ok (Some "example.org") (Some "abc123")
           JUndefined
           {| baseUrl := Some "https://hs"; tempDirectory := None;
              script := Some "scan.sh" |} init_world) in
  trace w'
  = [EvMkdtemp "undefined/av-";
     EvGet example_url "undefined/av-aaaaaa/downloadedFile";
     EvExec "scan.sh undefined/av-aaaaaa/downloadedFile";
     EvSet [("content-type", Some "image/png");
            ("content-disposition", None);
            ("content-security-policy", None)];
     EvSendFile (Some "undefined/av-aaaaaa/downloadedFile");
     EvRimraf "undefined/av-aaaaaa"].
Proof. reflexivity. Qed.

(** A [scannedDownload] without [script] that joins an execution in flight
    raises no configuration error: the second call, in its own directory
    [/tmp/av-bbbbbb], awaits the execution the first call started with its
    options, sends the file of the first call's directory, and removes its
    own. *)
Example scannedDownload_joined_without_script :
  let ongoing : registry loc :=
    {[ example_digest (hash_input example_url JUndefined) :=
         _generateReport example_digest example_path_join get_ok decrypt_ok
           scan_clean (Some "example.org") (Some "abc123") JUndefined
           opts_first_call ]} in
  let run :=
    scannedDownload_ongoing example_digest "/" example_path_join get_ok
      decrypt_ok scan_clean mkdtemp_ok rimraf_ok ongoing
      (Some "example.org") (Some "abc123") JUndefined opts_no_script
      world_first_call in
  fst run = Ok tt
  /\ calls_between world_first_call (snd run)
     = [EvMkdtemp "/tmp/av-";
        EvGet example_url "/tmp/av-aaaaaa/downloadedFile";
        EvExec "scan.sh /tmp/av-aaaaaa/downloadedFile";
        EvSet [("content-type", Some "image/png");
               ("content-disposition", None);
               ("content-security-policy", None)];
        EvSendFile (Some "/tmp/av-aaaaaa/downloadedFile");
        EvRimraf "/tmp/av-bbbbbb"].
Proof. vm_compute. by split. Qed.

(** ** The further properties on examples *)

Lemma scannedDownload_sends_only_clean_witness :
  exists k o,
    getInputHash example_digest (Some "example.org") (Some "abc123") JUndefined
      example_opts = Ok k
    /\ cache_entry
         (snd (scannedDownload example_digest "/" example_path_join get_ok
                 decrypt_ok scan_clean mkdtemp_ok rimraf_ok
                 (Some "example.org") (Some "abc123") JUndefined example_opts
                 init_world)) k
       = Some o
    /\ clean o = true
    /\ filePath o = Some "/tmp/av-aaaaaa/downloadedFile".
Proof.
  apply (scannedDownload_sends_only_clean example_digest "/" example_path_join
           get_ok decrypt_ok scan_clean mkdtemp_ok rimraf_ok
           (Some "example.org") (Some "abc123") JUndefined example_opts
           init_world (Some "/tmp/av-aaaaaa/downloadedFile") wf_world_init).
  vm_compute. repeat constructor.
Defined.

Lemma scannedDownload_headers_whitelisted_witness :
  map fst [("content-type", Some "image/png"); ("content-disposition", None);
           ("content-security-policy", @None string)]
  = headerWhitelist.
Proof.
  refine (proj1 (scannedDownload_headers_whitelisted example_digest "/"
                   example_path_join get_ok decrypt_ok scan_clean mkdtemp_ok
                   rimraf_ok (Some "example.org") (Some "abc123") JUndefined
                   example_opts init_world _ wf_world_init _)).
  vm_compute. repeat constructor.
Defined.

Lemma scannedDownload_send_then_removal_witness :
  exists pre hs,
    calls_between world_first_call
      (snd (scannedDownload_ongoing example_digest "/" example_path_join get_ok
              decrypt_ok scan_clean mkdtemp_ok rimraf_ok
              {[ example_digest (hash_input example_url JUndefined) :=
                   _generateReport example_digest example_path_join get_ok
                     decrypt_ok scan_clean (Some "example.org") (Some "abc123")
                     JUndefined opts_first_call ]}
              (Some "example.org") (Some "abc123") JUndefined example_opts
              world_first_call))
    = EvMkdtemp "/tmp/av-"
        :: pre ++ [EvSet hs; EvSendFile (Some "/tmp/av-aaaaaa/downloadedFile");
                   EvRimraf "/tmp/av-bbbbbb"]
    /\ Forall (fun ev => is_pipeline_call ev = true) pre.
Proof.
  destruct (scannedDownload_send_then_removal example_digest "/"
              example_path_join get_ok decrypt_ok scan_clean mkdtemp_ok
              rimraf_ok
              {[ example_digest (hash_input example_url JUndefined) :=
                   _generateReport example_digest example_path_join get_ok
                     decrypt_ok scan_clean (Some "example.org") (Some "abc123")
                     JUndefined opts_first_call ]}
              (Some "example.org") (Some "abc123") JUndefined
              example_opts world_first_call
              (Some "/tmp/av-aaaaaa/downloadedFile") wf_world_init)
    as (suffix & pre & hs & k & Hmk & Hcalls & Hpre & _).
  - intros k execution Hk.
    apply (lookup_singleton_Some (M := gmap string)) in Hk as [_ <-].
    apply pipeline_calls_execution.
  - vm_compute. repeat constructor.
  - injection Hmk as <-. exists pre, hs. split; [exact Hcalls|exact Hpre].
Defined.

Lemma scannedDownload_ok_sent_witness :
  exists w',
    scannedDownload example_digest "/" example_path_join get_ok decrypt_ok
      scan_clean mkdtemp_ok rimraf_ok (Some "example.org") (Some "abc123")
      JUndefined example_opts init_world
    = (Ok tt, w')
    /\ exists k o h,
        getInputHash example_digest (Some "example.org") (Some "abc123")
          JUndefined example_opts = Ok k
        /\ cache_entry w' k = Some o
        /\ clean o = true
        /\ headers o = Some h
        /\ EvSet (whitelisted h) ∈ calls_between init_world w'
        /\ EvSendFile (filePath o) ∈ calls_between init_world w'.
Proof.
  eexists. split; [vm_compute; reflexivity|].
  apply (scannedDownload_ok_sent example_digest "/" example_path_join get_ok
           decrypt_ok scan_clean mkdtemp_ok rimraf_ok (Some "example.org")
           (Some "abc123") JUndefined example_opts init_world _ wf_world_init).
  vm_compute; reflexivity.
Defined.

Lemma scannedDownload_restores_dirs_witness :
  dirs (snd (scannedDownload example_digest "/" example_path_join get_ok
               decrypt_ok scan_clean mkdtemp_ok rimraf_ok
               (Some "example.org") (Some "abc123") JUndefined example_opts
               init_world))
  = dirs init_world.
Proof.
  apply (scannedDownload_restores_dirs example_digest "/" example_path_join
           get_ok decrypt_ok scan_clean mkdtemp_ok rimraf_ok
           (Some "example.org") (Some "abc123") JUndefined example_opts
           init_world "aaaaaa").
  - reflexivity.
  - apply not_elem_of_empty.
  - intros t. reflexivity.
Defined.

Lemma withTempDir_mkdtemp_failure_witness :
  withTempDir "/" mkdtemp_fails rimraf_ok (fun _ => ret 7) example_opts
    init_world
  = (Throw (Thrown error_no_space), logged (EvMkdtemp "/tmp/av-") init_world).
Proof.
  apply (withTempDir_mkdtemp_failure "/" mkdtemp_fails rimraf_ok
           (fun _ => ret 7) example_opts init_world error_no_space).
  reflexivity.
Defined.

Lemma generateReport_cache_hit_calls_witness :
  exists w1 w',
    generateReport example_digest example_path_join get_ok decrypt_ok
      scan_clean None None example_file example_opts init_world
    = (Ok 0, w1)
    /\ generateReport example_digest example_path_join get_ok decrypt_ok
         scan_clean None None example_file example_opts w1
       = (Ok 0, w')
    /\ trace w' = trace w1 ++ [EvGet example_url "/tmp/downloadedFile"]
    /\ resultCache w' = resultCache w1.
Proof.
  eexists.
  destruct (generateReport_cache_hit_calls example_digest example_path_join
              get_ok decrypt_ok scan_clean None None example_file example_opts
              "https://hs" "/tmp" "scan.sh" (Some "example.org", Some "abc123")
              (Some example_headers) 0
              (snd (generateReport example_digest example_path_join get_ok
                      decrypt_ok scan_clean None None example_file
                      example_opts init_world))
              eq_refl eq_refl eq_refl eq_refl eq_refl)
    as (w' & Hrun & Htr & Hcache & _).
  { vm_compute; reflexivity. }
  exists w'. split; [vm_compute; reflexivity|].
  split; [exact Hrun|]. split; [exact Htr|exact Hcache].
Defined.

Lemma scan_failure_not_cached_witness :
  exists w',
    generateReport example_digest example_path_join get_ok decrypt_ok
      scan_fails (Some "example.org") (Some "abc123") JUndefined example_opts
      init_world
    = (Throw (Thrown error_no_scanner), w')
    /\ exec_rejected scan_fails error_no_scanner init_world w'
    /\ getReport example_digest (Some "example.org") (Some "abc123")
         JUndefined example_opts w'
       = (Ok {| scanned := false; report_clean := None; report_info := None |},
          w').
Proof.
  eexists. split; [vm_compute; reflexivity|].
  assert (Hrej : exec_rejected scan_fails error_no_scanner init_world
            (snd (generateReport example_digest example_path_join get_ok
                    decrypt_ok scan_fails (Some "example.org") (Some "abc123")
                    JUndefined example_opts init_world))).
  { exists 1, "scan.sh /tmp/downloadedFile".
    split; [simpl; lia|]. split; reflexivity. }
  split; [exact Hrej|].
  apply (scan_failure_not_cached example_digest example_path_join get_ok
           decrypt_ok scan_fails (Some "example.org") (Some "abc123")
           JUndefined example_opts init_world _ _ error_no_scanner eq_refl
           Hrej).
Defined.

Lemma encrypted_scan_calls_witness :
  trace (snd (generateReport example_digest example_path_join get_ok decrypt_ok
                scan_clean None None example_file example_opts init_world))
  = trace init_world
      ++ [EvGet example_url "/tmp/downloadedFile";
          EvDecrypt "/tmp/downloadedFile" "/tmp/unsafeDownloadedDecryptedFile"
            example_file;
          EvExec "scan.sh /tmp/unsafeDownloadedDecryptedFile"].
Proof.
  exact (proj1 (encrypted_scan_calls example_digest example_path_join get_ok
                  decrypt_ok scan_clean None None example_file example_opts
                  "https://hs" "/tmp" "scan.sh"
                  (Some "example.org", Some "abc123") (Some example_headers)
                  init_world eq_refl eq_refl eq_refl eq_refl eq_refl eq_refl
                  eq_refl eq_refl)).
Defined.

Lemma malformed_descriptor_type_error_witness :
  getInputHash example_digest None None file_no_url example_opts
  = Throw TypeError
  /\ getReport example_digest None None file_no_url example_opts init_world
     = (Throw TypeError, init_world)
  /\ generateReport example_digest example_path_join get_ok decrypt_ok
       scan_clean None None file_no_url opts_no_script init_world
     = (Throw TypeError, init_world).
Proof.
  split; [|split].
  - apply (malformed_descriptor_type_error example_digest example_path_join
             get_ok decrypt_ok scan_clean None None file_no_url example_opts
             init_world eq_refl).
    intros url. discriminate.
  - reflexivity.
  - reflexivity.
Defined.

Lemma descriptor_overrides_arguments_witness :
  getInputHash example_digest (Some "other.org") (Some "xyz") example_file
    example_opts
  = getInputHash example_digest None None example_file example_opts.
Proof.
  exact (proj1 (descriptor_overrides_arguments example_digest "/"
                  example_path_join get_ok decrypt_ok scan_clean mkdtemp_ok
                  rimraf_ok (Some "other.org") (Some "xyz") None None
                  example_file example_opts init_world eq_refl)).
Defined.

Lemma clearReportCache_forgets_witness :
  exists w1,
    generateReport example_digest example_path_join get_ok decrypt_ok
      scan_clean (Some "example.org") (Some "abc123") JUndefined example_opts
      init_world
    = (Ok 0, w1)
    /\ getReport example_digest (Some "example.org") (Some "abc123")
         JUndefined example_opts w1
       = (Ok {| scanned := true; report_clean := Some true;
                report_info := Some "File clean" |}, w1)
    /\ getReport example_digest (Some "example.org") (Some "abc123")
         JUndefined example_opts (snd (clearReportCache w1))
       = (Ok {| scanned := false; report_clean := None; report_info := None |},
          snd (clearReportCache w1)).
Proof.
  eexists. split; [vm_compute; reflexivity|].
  split; [vm_compute; reflexivity|].
  refine (proj1 (clearReportCache_forgets example_digest (Some "example.org")
                   (Some "abc123") JUndefined example_opts _ _ eq_refl)).
Defined.

Lemma media_of_descriptor_url_witness :
  media_of (Some "other.org") (Some "xyz") example_file
  = Ok (Some "example.org", Some "abc123").
Proof.
  apply (proj1 (media_of_descriptor_url (Some "other.org") (Some "xyz")
                  example_file "mxc://example.org/abc123" eq_refl)
           "mxc:/" "example.org" "abc123");
    reflexivity.
Defined.

Lemma result_key_separates_urls_witness :
  hash_input example_url example_file
  <> hash_input "https://hs/_matrix/media/v1/download/example.org/abc124"
       example_file.
Proof.
  apply (result_key_separates_urls example_digest example_url
           "https://hs/_matrix/media/v1/download/example.org/abc124"
           example_file example_file).
  discriminate.
Defined.

Lemma media_key_distinguishes_witness :
  generateHttpUrl (Some "https://hs") (Some "example.org") (Some "abc123")
  <> generateHttpUrl (Some "https://hs") (Some "example.org") (Some "abc124").
Proof.
  apply (media_key_distinguishes example_digest example_opts "https://hs"
           "example.org" "abc123" "example.org" "abc124" JUndefined JUndefined);
    try reflexivity.
  discriminate.
Defined.

Lemma generateReport_failure_classified_witness :
  exists w',
    generateReport example_digest example_path_join get_404 decrypt_ok
      scan_clean (Some "example.org") (Some "abc123") JUndefined example_opts
      init_world
    = (Throw (ClientError 502 "Failed to get requested URL"), w')
    /\ resultCache w' = resultCache init_world
    /\ heap w' = heap init_world.
Proof.
  eexists. split; [vm_compute; reflexivity|].
  destruct (generateReport_failure_classified example_digest example_path_join
              get_404 decrypt_ok scan_clean (Some "example.org")
              (Some "abc123") JUndefined example_opts init_world _
              (ClientError 502 "Failed to get requested URL") eq_refl)
    as (Hcache & Hheap & _).
  split; [exact Hcache|exact Hheap].
Defined.

Lemma scannedDownload_403_unclean_witness :
  exists w',
    scannedDownload example_digest "/" example_path_join get_ok decrypt_ok
      scan_infected mkdtemp_ok rimraf_ok (Some "example.org") (Some "abc123")
      JUndefined example_opts init_world
    = (Throw (ClientError 403 "Virus found"), w')
    /\ (exists k o,
          getInputHash example_digest (Some "example.org") (Some "abc123")
            JUndefined example_opts = Ok k
          /\ cache_entry w' k = Some o
          /\ clean o = false
          /\ info o = "Virus found")
    /\ Forall (fun ev => is_delivery ev = false) (calls_between init_world w').
Proof.
  eexists. split; [vm_compute; reflexivity|].
  apply (scannedDownload_403_unclean example_digest "/" example_path_join
           get_ok decrypt_ok scan_infected mkdtemp_ok rimraf_ok
           (Some "example.org") (Some "abc123") JUndefined example_opts
           init_world _ "Virus found" wf_world_init).
  vm_compute; reflexivity.
Defined.

Lemma generateReport_returns_cached_object_witness :
  exists w',
    generateReport_ongoing example_digest example_path_join get_ok decrypt_ok
      scan_clean ∅ (Some "example.org") (Some "abc123") JUndefined example_opts
      init_world
    = (Ok 0, w')
    /\ exists t url h o,
        tempDirectory example_opts = Some t
        /\ resultCache w' !! example_digest (hash_input example_url JUndefined)
           = Some 0
        /\ heap w' !! 0 = Some o
        /\ head (calls_between init_world w')
           = Some (EvGet url (example_path_join t "downloadedFile"))
        /\ get_ok (length (trace init_world)) url
             (example_path_join t "downloadedFile") = inl h
        /\ filePath o = Some (example_path_join t "downloadedFile")
        /\ headers o = h.
Proof.
  eexists. split; [vm_compute; reflexivity|].
  apply (proj1 (generateReport_returns_cached_object example_digest
                  example_path_join get_ok decrypt_ok scan_clean ∅
                  (Some "example.org") (Some "abc123") JUndefined example_opts
                  (example_digest (hash_input example_url JUndefined))
                  init_world eq_refl) (lookup_empty _) wf_world_init).
  vm_compute; reflexivity.
Defined.

Lemma registry_empty_when_idle_witness :
  exists s,
    Coalescer.run (uncurry4 (getInputHash example_digest)) Coalescer.init
      example_calls_done = Some s
    /\ Coalescer.ongoing s = ∅.
Proof.
  eexists. split; [reflexivity|].
  apply (proj2 (registry_empty_when_idle
                  (uncurry4 (getInputHash example_digest)) _
                  (ex_intro _ example_calls_done eq_refl))).
  intros [|e] x; simpl; [|done]. by intros [= <-].
Defined.

Lemma execution_started_by_call_witness :
  exists s x,
    Coalescer.run (uncurry4 (getInputHash example_digest)) Coalescer.init
      example_calls = Some s
    /\ Coalescer.executions s !! 1 = Some x
    /\ uncurry4 (getInputHash example_digest) (Coalescer.ex_args x)
       = Ok (Coalescer.ex_key x)
    /\ exists c cl,
        Coalescer.calls s !! c = Some cl
        /\ Coalescer.call_awaits cl = Some 1
        /\ Coalescer.call_args cl = Coalescer.ex_args x.
Proof.
  eexists _, _. split; [reflexivity|]. split; [reflexivity|].
  apply (execution_started_by_call (uncurry4 (getInputHash example_digest)) _
           1 _ (ex_intro _ example_calls eq_refl) eq_refl).
Defined.

Lemma pending_call_resumes_witness :
  exists s s',
    Coalescer.run (uncurry4 (getInputHash example_digest)) Coalescer.init
      example_calls_pending = Some s
    /\ Coalescer.run (uncurry4 (getInputHash example_digest)) s
         [Coalescer.LSettle 0 (Ok 7); Coalescer.LFinalize 0;
          Coalescer.LResume 1]
       = Some s'
    /\ Coalescer.calls s' !! 1
       = Some {| Coalescer.call_args := example_args;
                 Coalescer.call_awaits := Some 0;
                 Coalescer.call_result := Some (Ok 7) |}.
Proof.
  eexists _.
  destruct (pending_call_resumes (uncurry4 (getInputHash example_digest)) _
              1 _ (ex_intro _ example_calls_pending eq_refl) eq_refl eq_refl)
    as (e & x & Haw & Hx & _ & Hgo).
  simpl in Haw. injection Haw as <-.
  simpl in Hx. injection Hx as <-.
  destruct (Hgo (Ok 7) (or_introl eq_refl)) as (s' & Hrun & Hcall).
  exists s'. split; [reflexivity|]. split; [exact Hrun|exact Hcall].
Defined.
